(** * e4e build server: the job queue and build pipeline of [server/builder.py]
    and the endpoints of [server/api.py] that reach it.

    Python [str] values are sequences of Unicode code points; they are kept
    here as lists of code points, so that [str.splitlines] and the slices of
    [get_log_tail] are the ones Python computes. *)

From Stdlib Require Import ZArith Lia String Ascii SpecFloat.
From stdpp Require Import base option list numbers sorting gmap.

Local Open Scope Z_scope.
Set Warnings "-register-all".

(** ** Python strings *)

Abbreviation pystr := (list N).

(** A literal of the source, code point by code point (the literals of the
    two files are ASCII). *)
Fixpoint lit (s : string) : pystr :=
  match s with
  | EmptyString => []
  | String a s' => N_of_ascii a :: lit s'
  end.

(** The one-character string of a line feed. *)
Definition nl : pystr := [10%N].

(** [sep.join(parts)] *)
Fixpoint join (sep : pystr) (parts : list pystr) : pystr :=
  match parts with
  | [] => []
  | [p] => p
  | p :: rest => p ++ sep ++ join sep rest
  end.

(** The line boundaries of [str.splitlines]: LF, VT, FF, CR, FS, GS, RS,
    NEL, LINE SEPARATOR and PARAGRAPH SEPARATOR (CR LF counts once). *)
Definition is_linebreak (c : N) : bool :=
  match c with
  | 10 | 11 | 12 | 13 | 28 | 29 | 30 | 133 | 8232 | 8233 => true
  | _ => false
  end%N.

(** [cur] is the line being read, last character first. *)
Fixpoint splitlines_aux (cur : pystr) (s : pystr) : list pystr :=
  match s with
  | [] => match cur with [] => [] | _ => [rev cur] end
  | c :: s' =>
      if N.eqb c 13 then
        match s' with
        | 10%N :: s'' => rev cur :: splitlines_aux [] s''
        | _ => rev cur :: splitlines_aux [] s'
        end
      else if is_linebreak c then rev cur :: splitlines_aux [] s'
      else splitlines_aux (c :: cur) s'
  end.

Definition splitlines (s : pystr) : list pystr := splitlines_aux [] s.

(** [l[start:]] for a Python [int] start: a negative start counts from the
    end, and both ends are clamped to the list. *)
Definition slice_from {A} (start : Z) (l : list A) : list A :=
  let len := Z.of_nat (length l) in
  let s := if start <? 0 then Z.max 0 (start + len) else Z.min start len in
  drop (Z.to_nat s) l.

(** [str(n)] for a Python [int]. *)
Fixpoint digits_of_pos (fuel : nat) (n : N) (acc : pystr) : pystr :=
  match fuel with
  | O => acc
  | S fuel' =>
      let acc' := (48 + n mod 10)%N :: acc in
      if (n <? 10)%N then acc' else digits_of_pos fuel' (n / 10)%N acc'
  end.

Definition str_of_N (n : N) : pystr := digits_of_pos (S (N.to_nat (N.log2 n))) n [].

Definition str_of_Z (z : Z) : pystr :=
  if z <? 0 then 45%N :: str_of_N (Z.to_N (- z)) else str_of_N (Z.to_N z).

(** ** Python floats

    A [float] is an IEEE 754 binary64 number; the operations are the ones of
    the Standard Library's [SpecFloat] at precision 53, rounding to
    nearest, ties to even. *)

Abbreviation float := spec_float.

(** [float(z)] *)
Definition float_of_Z (z : Z) : float := binary_normalize 53 1024 z 0 false.

(** [x - y], [x / y] and [x < y] on floats; an [int] operand is converted
    first. *)
Definition float_sub (x y : float) : float := SFsub 53 1024 x y.
Definition float_div (x y : float) : float := SFdiv 53 1024 x y.
Definition float_ltb (x y : float) : bool := SFltb x y.

#[global] Arguments float_sub : simpl never.
#[global] Arguments float_div : simpl never.
#[global] Arguments float_ltb : simpl never.
#[global] Arguments float_of_Z : simpl never.

(** [f"{x:.1f}"]: the exact value of the float, with one digit after the
    point, rounded to nearest, ties to the even digit; the sign is kept,
    also on a zero. *)
Definition fmt_1f (x : float) : pystr :=
  match x with
  | S754_zero s => (if s then lit "-" else []) ++ lit "0.0"
  | S754_infinity s => (if s then lit "-" else []) ++ lit "inf"
  | S754_nan => lit "nan"
  | S754_finite s m e =>
      let n := if 0 <=? e then Z.pos m * 2 ^ e * 10 else Z.pos m * 10 in
      let d := if 0 <=? e then 1 else 2 ^ (- e) in
      let fl := n / d in
      let r := 2 * (n mod d) in
      let t := if d <? r then fl + 1
               else if r =? d then (if Z.even fl then fl else fl + 1)
               else fl in
      (if s then lit "-" else []) ++ str_of_Z (t / 10) ++ lit "." ++ str_of_Z (t mod 10)
  end.

#[global] Arguments fmt_1f : simpl never.

(** ** [BuildStatus] and [BuildJob] *)

Inductive BuildStatus := QUEUED | BUILDING | COMPLETE | FAILED.

#[global] Instance BuildStatus_eq_dec : EqDecision BuildStatus.
Proof. solve_decision. Defined.

(** [BuildStatus.value] *)
Definition status_value (s : BuildStatus) : pystr :=
  match s with
  | QUEUED => lit "queued"
  | BUILDING => lit "building"
  | COMPLETE => lit "complete"
  | FAILED => lit "failed"
  end.

(** A [pathlib.Path]: an absolute path, as its components below the root. *)
Abbreviation path := (list (list N)).

(** A [datetime]: the float its [timestamp()] returns (seconds since the
    epoch) and its [isoformat()] text, both as the clock handed them out. *)
Record datetime := { timestamp : float; isoformat : pystr }.

Record BuildJob := mkJob {
  packages : list pystr;
  config_hash : pystr;
  config_path : path;
  build_id : pystr;
  status : BuildStatus;
  packages_built : list pystr;
  log : pystr;
  error : option pystr;
  started_at : option datetime;
  completed_at : option datetime;
  artifact_path : option path
}.

(** [BuildJob(packages=..., config_hash=..., config_path=...)] with the
    [uuid4] text the constructor drew. *)
Definition new_job (pkgs : list pystr) (h : pystr) (cp : path) (uuid : pystr) : BuildJob :=
  mkJob pkgs h cp uuid QUEUED [] [] None None None None.

Definition set_status (s : BuildStatus) (j : BuildJob) : BuildJob :=
  mkJob (packages j) (config_hash j) (config_path j) (build_id j) s
        (packages_built j) (log j) (error j) (started_at j) (completed_at j) (artifact_path j).

Definition set_packages_built (l : list pystr) (j : BuildJob) : BuildJob :=
  mkJob (packages j) (config_hash j) (config_path j) (build_id j) (status j)
        l (log j) (error j) (started_at j) (completed_at j) (artifact_path j).

Definition set_error (e : option pystr) (j : BuildJob) : BuildJob :=
  mkJob (packages j) (config_hash j) (config_path j) (build_id j) (status j)
        (packages_built j) (log j) e (started_at j) (completed_at j) (artifact_path j).

Definition set_started_at (d : option datetime) (j : BuildJob) : BuildJob :=
  mkJob (packages j) (config_hash j) (config_path j) (build_id j) (status j)
        (packages_built j) (log j) (error j) d (completed_at j) (artifact_path j).

Definition set_completed_at (d : option datetime) (j : BuildJob) : BuildJob :=
  mkJob (packages j) (config_hash j) (config_path j) (build_id j) (status j)
        (packages_built j) (log j) (error j) (started_at j) d (artifact_path j).

Definition set_artifact_path (p : option path) (j : BuildJob) : BuildJob :=
  mkJob (packages j) (config_hash j) (config_path j) (build_id j) (status j)
        (packages_built j) (log j) (error j) (started_at j) (completed_at j) p.

(** [BuildJob.append_log] *)
Definition append_log (text : pystr) (j : BuildJob) : BuildJob :=
  mkJob (packages j) (config_hash j) (config_path j) (build_id j) (status j)
        (packages_built j) (log j ++ text) (error j) (started_at j) (completed_at j) (artifact_path j).

(** [BuildJob.get_log_tail]: [log_lines[-lines:]] joined by newlines. *)
Definition get_log_tail (j : BuildJob) (lines : Z) : pystr :=
  let log_lines := splitlines (log j) in
  join nl (slice_from (- lines) log_lines).


(** ** The file system

    A tree of directories, regular files, symbolic links and the archives
    [tarfile] writes.  [meta] stands for what [copystat] carries over (mode
    bits and times).  A link keeps its target text as [os.readlink] returns
    it. *)

Inductive node :=
| File (data : pystr) (meta : Z)
| Tar (members : list (pystr * node))
| Link (target : pystr)
| Dir (ents : list (pystr * node)).

Definition is_Dir (n : option node) : bool :=
  match n with Some (Dir _) => true | _ => false end.
Definition is_Link (n : option node) : bool :=
  match n with Some (Link _) => true | _ => false end.

Definition pystr_eqb (a b : pystr) : bool := bool_decide (a = b).

Fixpoint assoc (name : pystr) (ents : list (pystr * node)) : option node :=
  match ents with
  | [] => None
  | (k, n) :: rest => if pystr_eqb k name then Some n else assoc name rest
  end.

Fixpoint remove_ent (name : pystr) (ents : list (pystr * node)) : list (pystr * node) :=
  match ents with
  | [] => []
  | (k, n) :: rest => if pystr_eqb k name then remove_ent name rest else (k, n) :: remove_ent name rest
  end.

(** The entry [name] bound to [n]: in place when the name is there already,
    at the end of the directory otherwise. *)
Fixpoint put_ent (name : pystr) (n : node) (ents : list (pystr * node)) : list (pystr * node) :=
  match ents with
  | [] => [(name, n)]
  | (k, m) :: rest => if pystr_eqb k name then (k, n) :: rest else (k, m) :: put_ent name n rest
  end.

(** The node at a path none of whose components is a link to follow. *)
Fixpoint raw_lookup (root : node) (p : path) : option node :=
  match p with
  | [] => Some root
  | c :: p' =>
      match root with
      | Dir ents => match assoc c ents with Some n => raw_lookup n p' | None => None end
      | _ => None
      end
  end.

(** [raw_set root p new]: the tree with the node at [p] replaced by [new]
    ([None] removes it); the parent of [p] has to be a directory. *)
Fixpoint raw_set (root : node) (p : path) (new : option node) : option node :=
  match p with
  | [] => new
  | c :: p' =>
      match root with
      | Dir ents =>
          match p' with
          | [] => Some (Dir (match new with Some n => put_ent c n ents | None => remove_ent c ents end))
          | _ => match assoc c ents with
                 | Some sub => match raw_set sub p' new with
                               | Some sub' => Some (Dir (put_ent c sub' ents))
                               | None => None
                               end
                 | None => None
                 end
          end
      | _ => None
      end
  end.

(** [os.makedirs]-like placement: [n] at [p], the missing directories on the
    way created. *)
Fixpoint raw_put_parents (root : node) (p : path) (n : node) : option node :=
  match p with
  | [] => Some n
  | c :: p' =>
      match root with
      | Dir ents =>
          let sub := match assoc c ents with Some s => s | None => Dir [] end in
          match p' with
          | [] => Some (Dir (put_ent c n ents))
          | _ => match raw_put_parents sub p' n with
                 | Some sub' => Some (Dir (put_ent c sub' ents))
                 | None => None
                 end
          end
      | _ => None
      end
  end.

(** The components of a path text, split at [/]. *)
Fixpoint split_slash (cur : pystr) (s : pystr) : list pystr :=
  match s with
  | [] => [rev cur]
  | c :: s' => if N.eqb c 47 then rev cur :: split_slash [] s' else split_slash (c :: cur) s'
  end.

Definition is_absolute (s : pystr) : bool :=
  match s with 47%N :: _ => true | _ => false end.

Definition dot : pystr := lit ".".
Definition dotdot : pystr := lit "..".

(** Path resolution as the kernel does it: [cur] is the resolved prefix (a
    real directory chain), [rest] what is left to walk.  Empty components
    and [.] are skipped, [..] steps up, a link met on the way is expanded in
    place (from the root when its target is absolute); the last component is
    expanded only when [follow] is set.  Running out of [fuel] is ELOOP. *)
Fixpoint canon (fuel : nat) (root : node) (cur rest : path) (follow : bool) : option path :=
  match rest with
  | [] => Some cur
  | c :: rest' =>
      match fuel with
      | O => None
      | S fuel' =>
          if pystr_eqb c [] || pystr_eqb c dot then canon fuel' root cur rest' follow
          else if pystr_eqb c dotdot then canon fuel' root (removelast cur) rest' follow
          else
            match raw_lookup root (cur ++ [c]) with
            | Some (Link t) =>
                if follow || negb (bool_decide (rest' = [])) then
                  canon fuel' root (if is_absolute t then [] else cur)
                        (split_slash [] t ++ rest') follow
                else Some (cur ++ [c])
            | Some _ => canon fuel' root (cur ++ [c]) rest' follow
            | None => if is_Dir (raw_lookup root cur) then Some (cur ++ c :: rest') else None
            end
      end
  end.

Definition resolve_fuel : nat := (64 * 64)%nat.

#[global] Arguments canon : simpl never.

(** [os.stat] and [os.lstat], [None] standing for the OSError. *)
Definition stat (fs : node) (p : path) : option node :=
  match canon resolve_fuel fs [] p true with
  | Some q => raw_lookup fs q
  | None => None
  end.

Definition lstat (fs : node) (p : path) : option node :=
  match canon resolve_fuel fs [] p false with
  | Some q => raw_lookup fs q
  | None => None
  end.

(** [Path.exists], [Path.is_dir] (both follow links) and [Path.is_symlink]. *)
Definition path_exists (fs : node) (p : path) : bool := bool_decide (is_Some (stat fs p)).
Definition path_is_dir (fs : node) (p : path) : bool := is_Dir (stat fs p).
Definition path_is_symlink (fs : node) (p : path) : bool := is_Link (lstat fs p).


(** [str(path)] *)
Definition slash : pystr := lit "/".
Definition str_path (p : path) : pystr := slash ++ join slash p.

(** ** Exceptions

    Only what the worker does with an exception is modelled: [str(e)].  All
    of them are [Exception]s (OSError and its subclasses, [shutil.Error],
    ValueError). *)
Inductive exn := Exn (msg : pystr).

Definition str_exn (e : exn) : pystr := match e with Exn m => m end.

(** [repr(s)] of a [str]: in single quotes, or in double quotes when the
    text has a single quote and no double one; the quote and the backslash
    escaped, tab, line feed and carriage return by their letter, the other
    characters that are not printable by their code.  (Which characters
    are printable is settled here up to U+00FF; the ones above are taken as
    printable.) *)
Definition hex_digit (n : N) : N := (if n <? 10 then 48 + n else 87 + n)%N.

Definition repr_char (quote c : N) : pystr :=
  if (c =? quote)%N || (c =? 92)%N then [92%N; c]
  else if (c =? 9)%N then lit "\t"
  else if (c =? 10)%N then lit "\n"
  else if (c =? 13)%N then lit "\r"
  else if (c <? 32)%N || (c =? 127)%N || ((128 <=? c)%N && (c <=? 160)%N) || (c =? 173)%N
       then lit "\x" ++ [hex_digit (c / 16); hex_digit (c mod 16)]
  else [c].

Definition py_repr (s : pystr) : pystr :=
  let quote := if bool_decide (39%N ∈ s) && negb (bool_decide (34%N ∈ s)) then 34%N else 39%N in
  [quote] ++ concat (List.map (repr_char quote) s) ++ [quote].

(** [str(e)] for an [OSError] with one file name, and with two. *)
Definition os_error_text (what : string) (filename : pystr) : exn :=
  Exn (lit what ++ lit ": " ++ py_repr filename).

Definition os_error2_text (what : string) (filename filename2 : pystr) : exn :=
  Exn (lit what ++ lit ": " ++ py_repr filename ++ lit " -> " ++ py_repr filename2).

Definition os_error (what : string) (p : path) : exn := os_error_text what (str_path p).

(** [repr(p)] of a [Path]. *)
Definition repr_path (p : path) : pystr := lit "PosixPath(" ++ py_repr (str_path p) ++ lit ")".

Definition ENOENT := os_error "[Errno 2] No such file or directory".
Definition EEXIST := os_error "[Errno 17] File exists".
Definition ENOTDIR := os_error "[Errno 20] Not a directory".
Definition EISDIR := os_error "[Errno 21] Is a directory".

(** What a file-system call leaves: the exception it raised, if any, and the
    tree as it stands afterwards. *)
Abbreviation fs_result := (option exn * node)%type.

(** The resolved place of [p] when it is free and its parent is a
    directory. *)
Definition parent_is_dir (fs : node) (q : path) : bool :=
  negb (bool_decide (q = [])) && is_Dir (raw_lookup fs (removelast q)).

Definition fs_write (fs : node) (q : path) (new : option node) (p : path) : fs_result :=
  if parent_is_dir fs q then
    match raw_set fs q new with
    | Some fs' => (None, fs')
    | None => (Some (ENOENT p), fs)
    end
  else (Some (ENOENT p), fs).

(** [shutil.rmtree(p)] *)
Definition rmtree (fs : node) (p : path) : fs_result :=
  if path_is_symlink fs p then (Some (Exn (lit "Cannot call rmtree on a symbolic link")), fs)
  else
    match canon resolve_fuel fs [] p false with
    | Some q =>
        match raw_lookup fs q with
        | Some (Dir _) => fs_write fs q None p
        | Some _ => (Some (ENOTDIR p), fs)
        | None => (Some (ENOENT p), fs)
        end
    | None => (Some (ENOENT p), fs)
    end.

(** [Path.unlink()] *)
Definition unlink (fs : node) (p : path) : fs_result :=
  match canon resolve_fuel fs [] p false with
  | Some q =>
      match raw_lookup fs q with
      | Some (Dir _) => (Some (EISDIR p), fs)
      | Some _ => fs_write fs q None p
      | None => (Some (ENOENT p), fs)
      end
  | None => (Some (ENOENT p), fs)
  end.

(** [os.symlink(target, dst)]; its errors name both [target] and [dst]. *)
Definition symlink (fs : node) (target : pystr) (dst : path) : fs_result :=
  let enoent := os_error2_text "[Errno 2] No such file or directory" target (str_path dst) in
  match canon resolve_fuel fs [] dst false with
  | Some q =>
      match raw_lookup fs q with
      | Some _ => (Some (os_error2_text "[Errno 17] File exists" target (str_path dst)), fs)
      | None =>
          match fs_write fs q (Some (Link target)) dst with
          | (Some _, fs') => (Some enoent, fs')
          | written => written
          end
      end
  | None => (Some enoent, fs)
  end.

(** [os.readlink(p)] *)
Definition readlink (fs : node) (p : path) : exn + pystr :=
  match lstat fs p with
  | Some (Link t) => inr t
  | Some _ => inl (os_error "[Errno 22] Invalid argument" p)
  | None => inl (ENOENT p)
  end.

(** [shutil.copy2(src, dst)]: both ends follow links; into [dst] when it is
    a directory; contents and metadata are carried over. *)
Definition copy2 (fs : node) (src dst : path) : fs_result :=
  let dst_repr := if path_is_dir fs dst then py_repr (str_path (dst ++ [List.last src []]))
                  else repr_path dst in
  let dst := if path_is_dir fs dst then dst ++ [List.last src []] else dst in
  match canon resolve_fuel fs [] src true with
  | Some qs =>
      match raw_lookup fs qs with
      | Some (Dir _) => (Some (EISDIR src), fs)
      | Some (Link _) | None => (Some (ENOENT src), fs)
      | Some n =>
          match canon resolve_fuel fs [] dst true with
          | Some qd =>
              if bool_decide (qs = qd) then
                (Some (Exn (repr_path src ++ lit " and " ++ dst_repr ++ lit " are the same file")), fs)
              else if is_Dir (raw_lookup fs qd) then (Some (EISDIR dst), fs)
              else fs_write fs qd (Some n) dst
          | None => (Some (ENOENT dst), fs)
          end
      end
  | None => (Some (ENOENT src), fs)
  end.

(** The copy [shutil.copytree(..., symlinks=True)] makes of a tree: files by
    [copy2], links by [os.symlink(os.readlink(...))], directories entry by
    entry. *)
Fixpoint clone (n : node) : node :=
  match n with
  | File d m => File d m
  | Tar ms => Tar ms
  | Link t => Link t
  | Dir ents => Dir (List.map (fun kc => match kc with (k, c) => (k, clone c) end) ents)
  end.

Definition copy_fuel : nat := (64 * 64)%nat.

(** The copy [shutil.copytree] makes with [symlinks=False]: a link is
    replaced by a copy of what it points to, a dangling one is an error kept
    for the end, as the triple of the two names and the text of the
    [OSError].  [here] is the resolved directory the entries live in,
    [srct] and [dstt] are the names the copy goes by ([os.path.join] of the
    arguments and the entry names); the source is read as it stood when the
    copy began.  [fuel] bounds the depth of the recursion, not the number
    of entries. *)
Fixpoint copy_follow (fuel : nat) (fs : node) (here : path) (srct dstt : pystr)
         (ents : list (pystr * node)) {struct fuel}
  : list (pystr * node) * list (pystr * pystr * pystr) :=
  match fuel with
  | O => ([], [(srct, dstt, lit "maximum recursion depth exceeded")])
  | S fuel' =>
      (fix entries (ents : list (pystr * node))
         : list (pystr * node) * list (pystr * pystr * pystr) :=
         match ents with
         | [] => ([], [])
         | (k, n) :: rest =>
             let srcname := srct ++ slash ++ k in
             let dstname := dstt ++ slash ++ k in
             let dangling :=
               (srcname, dstname,
                str_exn (os_error_text "[Errno 2] No such file or directory" srcname)) in
             let one : option node * list (pystr * pystr * pystr) :=
               match n with
               | Dir sub =>
                   let r := copy_follow fuel' fs (here ++ [k]) srcname dstname sub in
                   (Some (Dir r.1), r.2)
               | Link t =>
                   match canon resolve_fuel fs [] (here ++ [k]) true with
                   | Some q =>
                       match raw_lookup fs q with
                       | Some (Dir sub) =>
                           let r := copy_follow fuel' fs q srcname dstname sub in
                           (Some (Dir r.1), r.2)
                       | Some (Link _) | None => (None, [dangling])
                       | Some f => (Some f, [])
                       end
                   | None => (None, [dangling])
                   end
               | f => (Some f, [])
               end in
             let r := entries rest in
             (match one.1 with Some c => (k, c) :: r.1 | None => r.1 end, one.2 ++ r.2)
         end) ents
  end.

#[global] Arguments copy_follow : simpl never.

(** [str(shutil.Error(errors))]: the [repr] of the list of triples. *)
Definition shutil_Error (errs : list (pystr * pystr * pystr)) : exn :=
  Exn (lit "["
       ++ join (lit ", ")
               (List.map (fun e => match e with
                                   | (src, dst, why) =>
                                       lit "(" ++ py_repr src ++ lit ", " ++ py_repr dst
                                       ++ lit ", " ++ py_repr why ++ lit ")"
                                   end) errs)
       ++ lit "]").

(** [shutil.copytree(src, dst, symlinks=symlinks)]: [src] is listed first,
    [dst] must not exist and is made with its missing parents, and the
    errors met on the way are raised together once everything else is
    copied. *)
Definition copytree (fs : node) (src dst : path) (symlinks : bool) : fs_result :=
  match canon resolve_fuel fs [] src true with
  | Some qs =>
      match raw_lookup fs qs with
      | Some (Dir ents) =>
          match canon resolve_fuel fs [] dst false with
          | Some qd =>
              match raw_lookup fs qd with
              | Some _ => (Some (EEXIST dst), fs)
              | None =>
                  let r := if symlinks then (match clone (Dir ents) with Dir c => c | _ => [] end, [])
                           else copy_follow copy_fuel fs qs (str_path src) (str_path dst) ents in
                  match raw_put_parents fs qd (Dir r.1) with
                  | Some fs' => (match r.2 with [] => None | errs => Some (shutil_Error errs) end, fs')
                  | None => (Some (ENOTDIR dst), fs)
                  end
              end
          | None => (Some (ENOENT dst), fs)
          end
      | Some _ => (Some (ENOTDIR src), fs)
      | None => (Some (ENOENT src), fs)
      end
  | None => (Some (ENOENT src), fs)
  end.

(** [Path.iterdir()]: the names in the directory, in directory order. *)
Definition iterdir (fs : node) (p : path) : exn + list pystr :=
  match stat fs p with
  | Some (Dir ents) => inr (List.map fst ents)
  | Some _ => inl (ENOTDIR p)
  | None => inl (ENOENT p)
  end.

(** [Path.mkdir(parents=True, exist_ok=True)] *)
Definition mkdir_p (fs : node) (p : path) : fs_result :=
  if path_is_dir fs p then (None, fs)
  else
    match canon resolve_fuel fs [] p false with
    | Some q =>
        match raw_lookup fs q with
        | Some _ => (Some (EEXIST p), fs)
        | None =>
            match raw_put_parents fs q (Dir []) with
            | Some fs' => (None, fs')
            | None => (Some (ENOTDIR p), fs)
            end
        end
    | None => (Some (ENOENT p), fs)
    end.

(** [Path(text)] for an absolute text, and [base / text]: empty components
    and [.] are dropped, [..] is kept; an absolute [text] replaces [base]. *)
Definition path_parts (s : pystr) : path :=
  List.filter (fun c => negb (pystr_eqb c [] || pystr_eqb c dot)) (split_slash [] s).

Definition path_join (base : path) (s : pystr) : path :=
  if is_absolute s then path_parts s else base ++ path_parts s.

(** ** The world a build runs in

    [clock] gives the successive readings of [datetime.now()], [ticks]
    counts the readings taken; [spawned] lists the argument vectors handed
    to [asyncio.create_subprocess_exec], oldest first; [assigned] lists
    the values stored into a [status] field, oldest first; [st_size] and
    [st_mtime] are the byte size and the modification time [stat()] reports
    for a node; [set_rank] stands for the hashes that settle the order in
    which a [set] of paths is iterated. *)
Record World := mkWorld {
  fs : node;
  clock : nat -> datetime;
  ticks : nat;
  spawned : list (list pystr);
  assigned : list BuildStatus;
  st_size : node -> Z;
  st_mtime : node -> float;
  set_rank : path -> N
}.

Definition set_fs (f : node) (w : World) : World :=
  mkWorld f (clock w) (ticks w) (spawned w) (assigned w) (st_size w) (st_mtime w) (set_rank w).

(** ** Code that mutates the job and the world and may raise *)

Inductive outcome (A : Type) := Ret (a : A) | Raise (e : exn).
Arguments Ret {A} a.
Arguments Raise {A} e.

Definition M (A : Type) : Type := BuildJob * World -> outcome A * (BuildJob * World).

Definition ret {A} (a : A) : M A := fun s => (Ret a, s).
Definition raise {A} (e : exn) : M A := fun s => (Raise e, s).
Definition bind {A B} (m : M A) (k : A -> M B) : M B :=
  fun s => match m s with
           | (Ret a, s') => k a s'
           | (Raise e, s') => (Raise e, s')
           end.

Notation "x <- m ;; k" := (bind m (fun x => k))
  (at level 200, m at level 99, k at level 200, only parsing).
Notation "m ;;; k" := (bind m (fun _ => k))
  (at level 100, k at level 200, right associativity, only parsing).

Definition get_job : M BuildJob := fun s => (Ret s.1, s).
Definition get_fs : M node := fun s => (Ret (fs s.2), s).
Definition get_world : M World := fun s => (Ret s.2, s).
Definition mod_job (f : BuildJob -> BuildJob) : M unit := fun s => (Ret tt, (f s.1, s.2)).

(** [job.status = st] *)
Definition assign_status (st : BuildStatus) : M unit :=
  fun s => (Ret tt, (set_status st s.1,
                     mkWorld (fs s.2) (clock s.2) (ticks s.2) (spawned s.2) (assigned s.2 ++ [st])
                             (st_size s.2) (st_mtime s.2) (set_rank s.2))).

(** [job.append_log(text)] *)
Definition logM (text : pystr) : M unit := mod_job (append_log text).

(** [datetime.now()] *)
Definition nowM : M datetime :=
  fun s => (Ret (clock s.2 (ticks s.2)),
            (s.1, mkWorld (fs s.2) (clock s.2) (S (ticks s.2)) (spawned s.2) (assigned s.2)
                         (st_size s.2) (st_mtime s.2) (set_rank s.2))).

(** A file-system call in the job's thread. *)
Definition fsM (op : node -> fs_result) : M unit :=
  fun s => match op (fs s.2) with
           | (None, f) => (Ret tt, (s.1, set_fs f s.2))
           | (Some e, f) => (Raise e, (s.1, set_fs f s.2))
           end.

Definition liftE {A} (r : exn + A) : M A :=
  match r with inl e => raise e | inr a => ret a end.

(** ** [BuildQueue._apply_config] *)

Definition portage_dir : path := [lit "etc"; lit "portage"].

Definition backup_dir (j : BuildJob) : path :=
  path_parts (lit "/tmp/portage-backup-" ++ build_id j).

(** The body of the loop over [job.config_path.iterdir()], entry by entry. *)
Fixpoint apply_items (cfg : path) (names : list pystr) : M unit :=
  match names with
  | [] => ret tt
  | name :: rest =>
      (if negb (pystr_eqb name dot || pystr_eqb name dotdot) then
         let item := cfg ++ [name] in
         let dest := portage_dir ++ [name] in
         f <- get_fs ;;
         (if path_exists f dest then
            if path_is_dir f dest then fsM (fun f => rmtree f dest)
            else fsM (fun f => unlink f dest)
          else ret tt) ;;;
         f <- get_fs ;;
         if path_is_dir f item then fsM (fun f => copytree f item dest true)
         else if path_is_symlink f item then
           (t <- liftE (readlink f item) ;;
            fsM (fun f => symlink f t dest))
         else fsM (fun f => copy2 f item dest)
       else ret tt) ;;;
      apply_items cfg rest
  end.

Definition _apply_config : M unit :=
  logM (lit "=== Applying portage config ===" ++ nl) ;;;
  job <- get_job ;;
  f <- get_fs ;;
  (if path_exists f portage_dir then fsM (fun f => copytree f portage_dir (backup_dir job) false)
   else ret tt) ;;;
  let config_portage := config_path job ++ [lit "etc"; lit "portage"] in
  f <- get_fs ;;
  if path_exists f config_portage then
    (if path_exists f portage_dir then fsM (fun f => rmtree f portage_dir) else ret tt) ;;;
    fsM (fun f => copytree f config_portage portage_dir true) ;;;
    logM (lit "Applied config from " ++ str_path config_portage ++ nl)
  else
    names <- liftE (iterdir f (config_path job)) ;;
    apply_items (config_path job) names ;;;
    logM (lit "Applied config from " ++ str_path (config_path job) ++ nl).

(** ** [BuildQueue._run_command], up to the point where it waits for the
    process to start *)

Definition space : pystr := lit " ".

Definition run_command_begin (cmd : list pystr) : M unit :=
  logM (lit "$ " ++ join space cmd ++ nl) ;;;
  fun s => (Ret tt, (s.1, mkWorld (fs s.2) (clock s.2) (ticks s.2) (spawned s.2 ++ [cmd])
                                  (assigned s.2) (st_size s.2) (st_mtime s.2) (set_rank s.2))).

(** ** Snapshots of the package cache *)

Definition rank_le (w : World) (a b : path) : Prop := (set_rank w a <= set_rank w b)%N.

#[global] Instance rank_le_dec (w : World) : RelDecision (rank_le w).
Proof. intros a b. unfold rank_le. apply _. Defined.

(** The order in which Python iterates the set [X] (the same every time,
    as long as the set is left alone). *)
Definition iteration (w : World) (X : gset path) : list path :=
  merge_sort (rank_le w) (elements X).

Definition binpkg_dir : path := [lit "var"; lit "cache"; lit "binpkgs"].

Definition gpkg_suffix : pystr := lit ".gpkg.tar".

(** [fnmatch(name, "*.gpkg.tar")] *)
Definition matches_gpkg (name : pystr) : bool :=
  pystr_eqb (drop (length name - length gpkg_suffix) name) gpkg_suffix.

(** The matches of [rglob] below a directory node, relative to it: every
    entry at any depth whose name matches, links not followed. *)
Fixpoint rglob_node (n : node) (here : path) : list path :=
  match n with
  | Dir ents =>
      List.flat_map (fun kc => match kc with
                               | (k, c) => (if matches_gpkg k then [here ++ [k]] else [])
                                           ++ rglob_node c (here ++ [k])
                               end) ents
  | _ => []
  end.

(** [set(binpkg_dir.rglob("*.gpkg.tar")) if binpkg_dir.exists() else set()] *)
Definition snapshot (f : node) : gset path :=
  match stat f binpkg_dir with
  | Some d => list_to_set (List.map (fun rel => binpkg_dir ++ rel) (rglob_node d []))
  | None => ∅
  end.

(** [p.relative_to(base)] and the text of a relative path. *)
Fixpoint relative_to (base p : path) : exn + path :=
  match base, p with
  | [], _ => inr p
  | b :: base', c :: p' =>
      if pystr_eqb b c then relative_to base' p'
      else inl (Exn (str_path p ++ lit " is not in the subpath of " ++ str_path base))
  | _ :: _, [] => inl (Exn (str_path p ++ lit " is not in the subpath of " ++ str_path base))
  end.

Definition str_rel (p : path) : pystr :=
  match p with [] => dot | _ => join slash p end.

(** ** [BuildQueue._create_artifact] *)

Definition artifact_dir : path := [lit "var"; lit "cache"; lit "e4e"; lit "artifacts"].

(** [tarfile.open(p, "w")]: the archive file is created empty (or emptied);
    the resolved place of the file stands for the open file object. *)
Definition tar_open (p : path) : M path :=
  fun s =>
    let f := fs s.2 in
    match canon resolve_fuel f [] p true with
    | Some q =>
        match raw_lookup f q with
        | Some (Dir _) => (Raise (EISDIR p), s)
        | Some (Link _) => (Raise (os_error "[Errno 40] Too many levels of symbolic links" p), s)
        | _ => match fs_write f q (Some (Tar [])) p with
               | (None, f') => (Ret q, (s.1, set_fs f' s.2))
               | (Some e, f') => (Raise e, (s.1, set_fs f' s.2))
               end
        end
    | None => (Raise (ENOENT p), s)
    end.

(** The order of [str] values: by code point, a prefix first. *)
Fixpoint pystr_leb (a b : pystr) : bool :=
  match a, b with
  | [], _ => true
  | _ :: _, [] => false
  | x :: a', y :: b' => if (x <? y)%N then true else if (y <? x)%N then false else pystr_leb a' b'
  end.

Definition name_le {A} (a b : pystr * A) : Prop := Is_true (pystr_leb a.1 b.1).

#[global] Instance name_le_dec {A} : RelDecision (@name_le A).
Proof. intros a b. unfold name_le. apply _. Defined.

(** The members [tar.add] makes of a node, by the names they get after the
    name of the node itself: the node (a link is not followed), and for a
    directory every entry with all its members, the entries in the order of
    [sorted(os.listdir(...))], each under a slash and its own name.  The
    member of a directory holds no entries. *)
Fixpoint members_below (n : node) : list (pystr * node) :=
  match n with
  | Dir ents =>
      ([], Dir []) ::
      concat (List.map snd
                (merge_sort name_le
                   (List.map (fun kc => match kc with
                                        | (k, c) =>
                                            (k, List.map (fun m => (slash ++ k ++ m.1, m.2))
                                                         (members_below c))
                                        end) ents)))
  | leaf => [([], leaf)]
  end.

Definition members_of (name : pystr) (n : node) : list (pystr * node) :=
  List.map (fun m => (name ++ m.1, m.2)) (members_below n).

(** [tar.add(src, arcname=name)] on the archive open at [q]: the members of
    the node at [src] are appended. *)
Definition tar_add (q src : path) (name : pystr) (f : node) : fs_result :=
  match lstat f src with
  | Some n =>
      match raw_lookup f q with
      | Some (Tar ms) => fs_write f q (Some (Tar (ms ++ members_of name n))) q
      | _ => (Some (ENOENT q), f)
      end
  | None => (Some (ENOENT src), f)
  end.

Fixpoint add_packages (tar : path) (pkgs : list path) : M unit :=
  match pkgs with
  | [] => ret tt
  | pkg_path :: rest =>
      arcname <- liftE (relative_to binpkg_dir pkg_path) ;;
      fsM (tar_add tar pkg_path (str_rel arcname)) ;;;
      logM (lit "  Added: " ++ str_rel arcname ++ nl) ;;;
      add_packages tar rest
  end.

Definition _create_artifact (pkgs : list path) : M unit :=
  fsM (fun f => mkdir_p f artifact_dir) ;;;
  job <- get_job ;;
  let artifact := path_join artifact_dir (build_id job ++ lit ".tar") in
  logM (nl ++ lit "=== Creating artifact tarball ===" ++ nl) ;;;
  tar <- tar_open artifact ;;
  add_packages tar pkgs ;;;
  mod_job (set_artifact_path (Some artifact)) ;;;
  w <- get_world ;;
  match stat (fs w) artifact with
  | Some n =>
      logM (lit "Artifact created: " ++ str_path artifact ++ lit " ("
            ++ str_of_Z (st_size w n) ++ lit " bytes)" ++ nl)
  | None => raise (ENOENT artifact)
  end.

(** ** [BuildQueue._run_build]

    The coroutine is suspended only inside [_run_command], while a process
    starts and while its output is read; between two such points it runs
    without interruption.  It is cut here at those points. *)

(** What [_run_build] is waiting for: the end of [emerge --sync], or the end
    of the build command (with the snapshot taken before it). *)
Inductive stage := Sync | Build (before_build : gset path).

Definition timestamp_file : path :=
  [lit "var"; lit "db"; lit "repos"; lit "gentoo"; lit "metadata"; lit "timestamp.chk"].

Definition emerge_cmd (job : BuildJob) : list pystr :=
  [lit "emerge"; lit "--buildpkg"; lit "--verbose"; lit "--with-bdeps=y";
   lit "--jobs=4"; lit "--load-average=8"; lit "--ask=n"] ++ packages job.

Definition sync_cmd : list pystr := [lit "emerge"; lit "--sync"].

(** Lines 100-115, up to the start of the build command. *)
Definition build_begin : M stage :=
  logM (nl ++ lit "=== Building packages ===" ++ nl) ;;;
  f <- get_fs ;;
  let before_build := if path_exists f binpkg_dir then snapshot f else ∅ in
  job <- get_job ;;
  run_command_begin (emerge_cmd job) ;;;
  ret (Build before_build).

(** Lines 80-84: the status, the start time and the head of the log. *)
Definition build_header : M unit :=
  assign_status BUILDING ;;;
  d <- nowM ;;
  mod_job (set_started_at (Some d)) ;;;
  logM (lit "Starting build at " ++ isoformat d ++ nl) ;;;
  job <- get_job ;;
  logM (lit "Packages: " ++ join (lit ", ") (packages job) ++ nl) ;;;
  logM (lit "Config hash: " ++ config_hash job ++ nl ++ nl).

Definition skip_line (tree_age : float) : pystr :=
  lit "=== Skipping sync (tree is " ++ fmt_1f (float_div tree_age (float_of_Z 3600))
  ++ lit "h old) ===" ++ nl.

(** Lines 88-98, and on to the build command when the sync is skipped. *)
Definition sync_or_build : M stage :=
  w <- get_world ;;
  skip_sync <-
    match stat (fs w) timestamp_file with
    | Some marker =>
        now <- nowM ;;
        let tree_age := float_sub (timestamp now) (st_mtime w marker) in
        if float_ltb tree_age (float_of_Z 604800) then
          logM (skip_line tree_age) ;;;
          ret true
        else ret false
    | None => ret false
    end ;;
  if negb skip_sync then
    logM (lit "=== Syncing portage tree ===" ++ nl) ;;;
    run_command_begin sync_cmd ;;;
    ret Sync
  else build_begin.

(** Lines 80-98: from the first statement to the start of the first
    command. *)
Definition run_build_begin : M stage :=
  build_header ;;;
  _apply_config ;;;
  sync_or_build.

(** [[str(p.relative_to(binpkg_dir)) for p in new_packages]] *)
Fixpoint rel_names (ps : list path) : exn + list pystr :=
  match ps with
  | [] => inr []
  | p :: rest =>
      match relative_to binpkg_dir p with
      | inl e => inl e
      | inr rel =>
          match rel_names rest with
          | inl e => inl e
          | inr l => inr (str_rel rel :: l)
          end
      end
  end.

(** Lines 122-131: the second snapshot, the list of new packages and the
    archive. *)
Definition package_outputs (before_build : gset path) : M unit :=
  w <- get_world ;;
  let after_build := if path_exists (fs w) binpkg_dir then snapshot (fs w) else ∅ in
  let new_packages := iteration w (after_build ∖ before_build) in
  built <- liftE (rel_names new_packages) ;;
  mod_job (set_packages_built built) ;;;
  logM (nl ++ lit "=== Built " ++ str_of_Z (Z.of_nat (length new_packages)) ++ lit " packages ===" ++ nl) ;;;
  mod_job (fun j => foldl (fun j pkg => append_log (lit "  - " ++ pkg ++ nl) j) j built) ;;;
  match new_packages with
  | [] => ret tt
  | _ => _create_artifact new_packages
  end.

(** Lines 117-134: from the build command's exit code to the end. *)
Definition run_build_end (before_build : gset path) (result : Z) : M unit :=
  if negb (result =? 0) then
    assign_status FAILED ;;;
    mod_job (set_error (Some (lit "emerge failed with exit code " ++ str_of_Z result)))
  else
    package_outputs before_build ;;;
    assign_status COMPLETE ;;;
    d <- nowM ;;
    logM (nl ++ lit "Build completed at " ++ isoformat d ++ nl).

(** ** [BuildQueue.worker]: the handler and the [finally] clause *)

Definition worker_except (e : exn) : M unit :=
  assign_status FAILED ;;;
  mod_job (set_error (Some (str_exn e))) ;;;
  logM (nl ++ nl ++ lit "FATAL ERROR: " ++ str_exn e ++ nl).

(** The part of [finally] that touches the job. *)
Definition worker_finally : M unit :=
  d <- nowM ;;
  mod_job (set_completed_at (Some d)).

(** A piece of [_run_build] inside the [try]: when it raises, the handler
    and [finally] run; [None] tells that the job is over. *)
Definition guarded {A} (m : M A) (s : BuildJob * World) : option A * (BuildJob * World) :=
  match m s with
  | (Ret a, s') => (Some a, s')
  | (Raise e, s') => (None, (bind (worker_except e) (fun _ => worker_finally) s').2)
  end.

(** ** The server: the [BuildQueue] object, the jobs it shares with the
    endpoints, and the worker task

    Jobs are objects on a heap, referred to by position; the [jobs] dict,
    the queue and [current_job] hold references to them. *)

Inductive pc :=
| Idle                               (* waiting in [queue.get()] *)
| Spawning (r : nat) (st : stage)    (* waiting in [create_subprocess_exec] *)
| Reading (r : nat) (st : stage).    (* waiting in [readline()] *)

Record Server := mkServer {
  heap : list BuildJob;
  jobs : gmap pystr nat;
  queue : list nat;
  current_job : option nat;
  wpc : pc;
  world : World
}.

Definition CONFIG_CACHE : path := [lit "var"; lit "cache"; lit "e4e"; lit "configs"].

Inductive event :=
| Submit (pkgs : list pystr) (hash : pystr) (uuid : pystr)
                                     (* [submit_build] from [job = BuildJob(...)] on *)
| Touch (f : node)                   (* some process changes the file system *)
| Get                                (* [queue.get()] returns in the worker *)
| Spawned                            (* the process has started *)
| SpawnFailed (e : exn)              (* [create_subprocess_exec] raises *)
| Line (text : pystr)                (* [readline()] returns a line; its decoding *)
| ReadFailed (e : exn)               (* [readline()] raises *)
| Exited (code : Z).                 (* end of output; [process.returncode] *)

(** The limit of the [StreamReader] of a subprocess pipe
    ([asyncio.streams._DEFAULT_LIMIT = 2 ** 16]): [readline()] returns a
    line of at most that many bytes before its line feed, and raises
    [ValueError] on a longer one. *)
Definition readline_limit : N := 65536.

(** What the decoding of a line that [readline()] returns looks like: it is
    not empty (an empty read is the end of the output) and has no more
    characters than the line has bytes. *)
Definition readable (text : pystr) : bool :=
  negb (bool_decide (text = [])) && (N.of_nat (length text) <=? readline_limit + 1)%N.

Definition init (w : World) : Server := mkServer [] ∅ [] None Idle w.

(** [BuildQueue.submit] on a job just allocated at the end of the heap. *)
Definition submit (job : BuildJob) (s : Server) : Server :=
  let r := length (heap s) in
  mkServer (heap s ++ [job]) (<[build_id job := r]> (jobs s)) (queue s ++ [r])
           (current_job s) (wpc s) (world s).

(** [BuildQueue.get_job] *)
Definition get_job_by_id (s : Server) (id : pystr) : option BuildJob :=
  r ← jobs s !! id; heap s !! r.

(** The worker resumes job [r] with [m]; [next] is where it waits
    afterwards when [m] returns a value.  When the job is over ([m] raised,
    or was the last piece) [finally] clears [current_job]. *)
Definition resume {A} (r : nat) (m : M A) (next : A -> pc) (last : bool) (s : Server)
  : option Server :=
  j ← heap s !! r;
  match guarded m (j, world s) with
  | (Some a, (j', w')) =>
      if last then
        let s' := (worker_finally (j', w')).2 in
        Some (mkServer (<[r := s'.1]> (heap s)) (jobs s) (queue s) None Idle s'.2)
      else Some (mkServer (<[r := j']> (heap s)) (jobs s) (queue s) (current_job s) (next a) w')
  | (None, (j', w')) =>
      Some (mkServer (<[r := j']> (heap s)) (jobs s) (queue s) None Idle w')
  end.

Definition step (ev : event) (s : Server) : option Server :=
  match ev, wpc s with
  | Submit pkgs hash uuid, _ =>
      let config_path := path_join CONFIG_CACHE hash in
      if path_exists (fs (world s)) config_path
      then Some (submit (new_job pkgs hash config_path uuid) s)
      else None
  | Touch f, _ =>
      Some (mkServer (heap s) (jobs s) (queue s) (current_job s) (wpc s) (set_fs f (world s)))
  | Get, Idle =>
      match queue s with
      | r :: q =>
          resume r run_build_begin (Spawning r) false
                 (mkServer (heap s) (jobs s) q (Some r) Idle (world s))
      | [] => None
      end
  | Spawned, Spawning r st =>
      Some (mkServer (heap s) (jobs s) (queue s) (current_job s) (Reading r st) (world s))
  | SpawnFailed e, Spawning r st => resume r (raise (A:=unit) e) (fun _ => Idle) false s
  | Line text, Reading r st =>
      if readable text then resume r (logM text) (fun _ => Reading r st) false s else None
  | ReadFailed e, Reading r st => resume r (raise (A:=unit) e) (fun _ => Idle) false s
  | Exited code, Reading r Sync => resume r build_begin (Spawning r) false s
  | Exited code, Reading r (Build before_build) =>
      resume r (run_build_end before_build code) (fun _ => Idle) true s
  | _, _ => None
  end.

Fixpoint run (evs : list event) (s : Server) : option Server :=
  match evs with
  | [] => Some s
  | ev :: rest => s' ← step ev s; run rest s'
  end.

Definition reachable (s : Server) : Prop := exists w evs, run evs (init w) = Some s.

(** ** The endpoint [GET /build/{build_id}/logs] *)

Inductive response := HTTP404 | LogBody (text : pystr).

Definition get_build_logs (s : Server) (id : pystr) (lines : Z) : response :=
  match get_job_by_id s id with
  | None => HTTP404
  | Some job => LogBody (get_log_tail job lines)
  end.

(** ** Notions used in the statements, and machines to try them on *)

(** A job without its log, and a world without its file system and its
    count of clock readings. *)
Definition forget_log (j : BuildJob) : BuildJob :=
  mkJob (packages j) (config_hash j) (config_path j) (build_id j) (status j)
        (packages_built j) [] (error j) (started_at j) (completed_at j) (artifact_path j).

Definition forget_fs (w : World) : World :=
  mkWorld (Dir []) (clock w) 0 (spawned w) (assigned w) (st_size w) (st_mtime w) (set_rank w).

(** [quiet m]: [m] may write to the log, touch the file system and read the
    clock, and nothing else. *)
Definition quiet_rel (s s' : BuildJob * World) : Prop :=
  forget_log s'.1 = forget_log s.1 /\ forget_fs s'.2 = forget_fs s.2.

Definition quiet {A} (m : M A) : Prop := forall s, quiet_rel s (m s).2.

Definition tick (w : World) : World :=
  mkWorld (fs w) (clock w) (S (ticks w)) (spawned w) (assigned w) (st_size w) (st_mtime w) (set_rank w).

Definition with_spawn (cmd : list pystr) (w : World) : World :=
  mkWorld (fs w) (clock w) (ticks w) (spawned w ++ [cmd]) (assigned w) (st_size w) (st_mtime w) (set_rank w).

Definition with_status (st : BuildStatus) (w : World) : World :=
  mkWorld (fs w) (clock w) (ticks w) (spawned w) (assigned w ++ [st]) (st_size w) (st_mtime w) (set_rank w).

(** The age [_run_build] measures for the marker [m], in the world [w]. *)
Definition tree_age (w : World) (m : node) : float :=
  float_sub (timestamp (clock w (ticks w))) (st_mtime w m).

Definition skips_sync (w : World) : Prop :=
  exists m, stat (fs w) timestamp_file = Some m
            /\ float_ltb (tree_age w m) (float_of_Z 604800) = true.

Definition sync_text : pystr :=
  (lit "=== Syncing portage tree ===" ++ nl) ++ (lit "$ " ++ join space sync_cmd ++ nl).

(** A coarser frame, for the packaging code: the list of built packages and
    the artifact location may change as well. *)
Definition forget_out (j : BuildJob) : BuildJob :=
  mkJob (packages j) (config_hash j) (config_path j) (build_id j) (status j)
        [] [] (error j) (started_at j) (completed_at j) None.

Definition calm_rel (s s' : BuildJob * World) : Prop :=
  forget_out s'.1 = forget_out s.1 /\ forget_fs s'.2 = forget_fs s.2.

Definition calm {A} (m : M A) : Prop := forall s, calm_rel s (m s).2.

(** What the handler and [finally] make of a job, and of the world. *)
Definition failed_job (e : exn) (d : datetime) (j : BuildJob) : BuildJob :=
  set_completed_at (Some d)
    (append_log (nl ++ nl ++ lit "FATAL ERROR: " ++ str_exn e ++ nl)
       (set_error (Some (str_exn e)) (set_status FAILED j))).

(** Code that starts a command: it writes to the log and to the list of
    started commands, may touch the file system and read the clock, and
    leaves the rest of the job and the list of assigned statuses alone. *)
Definition steady_rel (s s' : BuildJob * World) : Prop :=
  forget_log s'.1 = forget_log s.1 /\ assigned s'.2 = assigned s.2 /\ clock s'.2 = clock s.2.

Definition steady {A} (m : M A) : Prop := forall s, steady_rel s (m s).2.

Definition fresh (j : BuildJob) : Prop :=
  status j = QUEUED /\ packages_built j = [] /\ artifact_path j = None /\ error j = None
  /\ started_at j = None /\ completed_at j = None.

Definition building (j : BuildJob) : Prop :=
  status j = BUILDING /\ packages_built j = [] /\ artifact_path j = None /\ error j = None
  /\ started_at j <> None /\ completed_at j = None.

Definition terminal (st : BuildStatus) : Prop := st = COMPLETE \/ st = FAILED.

Definition finished (j : BuildJob) : Prop :=
  terminal (status j) /\ started_at j <> None /\ completed_at j <> None
  /\ (status j = FAILED <-> error j <> None).

(** The number of jobs the worker has taken from the queue so far, and the
    job it is running. *)
Definition started (s : Server) : nat := (length (heap s) - length (queue s))%nat.

Definition running (s : Server) : option nat :=
  match wpc s with
  | Idle => None
  | Spawning r _ | Reading r _ => Some r
  end.

(** The invariant of the server: the queue holds the jobs not yet started,
    oldest first; the job being run, if any, is the last one started and is
    the one [current_job] names; every job is in the state its place
    calls for. *)
Record Inv (s : Server) : Prop := mkInv {
  inv_len : (length (queue s) <= length (heap s))%nat;
  inv_queue : queue s = seq (started s) (length (queue s));
  inv_current : current_job s = running s;
  inv_running : forall r, running s = Some r -> S r = started s;
  inv_jobs : forall r j, heap s !! r = Some j ->
      ((started s <= r)%nat /\ fresh j)
      \/ (running s = Some r /\ building j)
      \/ ((r < started s)%nat /\ running s <> Some r /\ finished j)
}.

(** The arrows of the life cycle. *)
Definition edge (a b : BuildStatus) : Prop :=
  (a = QUEUED /\ b = BUILDING) \/ (a = BUILDING /\ (b = COMPLETE \/ b = FAILED)).

(** [chain a l]: the assignments [l], made in that order to a status that
    was [a], each follow an arrow. *)
Fixpoint chain (a : BuildStatus) (l : list BuildStatus) : Prop :=
  match l with
  | [] => True
  | b :: l' => edge a b /\ chain b l'
  end.

(** What one step does to the jobs: nothing to their statuses, or it runs
    code of the worker on one job [r] (the head of the queue for [Get], the
    running job otherwise), and the statuses [new] that code assigns, in
    order, follow the life cycle from the status the job had. *)
Definition worker_job (ev : event) (s s' : Server) (r : nat) (j : BuildJob) : Prop :=
  (ev = Get /\ wpc s = Idle /\ queue s = r :: queue s' /\ fresh j)
  \/ (ev <> Get /\ running s = Some r /\ queue s' = queue s /\ building j).

Definition demo_now : datetime := {| timestamp := float_of_Z 1700000000; isoformat := lit "2023-11-14T22:13:20" |}.

Definition demo_config : node :=
  Dir [(lit "make.conf", File (lit "USE=-X") 420);
       (lit "make.profile", Link (lit "/var/db/profiles/p1"))].

Definition demo_fs : node :=
  Dir [(lit "etc", Dir [(lit "portage", Dir [(lit "make.conf", File (lit "USE=X") 420)])]);
       (lit "var",
        Dir [(lit "db", Dir [(lit "profiles", Dir [(lit "p1", Dir [(lit "eapi", File (lit "8") 420)])])]);
             (lit "cache",
              Dir [(lit "binpkgs", Dir [(lit "old-1.gpkg.tar", File (lit "old") 420)]);
                   (lit "e4e", Dir [(lit "configs", Dir [(lit "h1", demo_config)])])])])].

Definition demo_world : World :=
  mkWorld demo_fs (fun _ => demo_now) 0 [] [] (fun _ => 10240) (fun _ => float_of_Z 0) (fun _ => 0%N).

Definition demo_submit (uuid : string) : event := Submit [lit "foo"; lit "bar"] (lit "h1") (lit uuid).

(** Two builds submitted, none started. *)
Definition demo_queued : Server :=
  submit (new_job [lit "foo"; lit "bar"] (lit "h1") (CONFIG_CACHE ++ [lit "h1"]) (lit "id2"))
    (submit (new_job [lit "foo"; lit "bar"] (lit "h1") (CONFIG_CACHE ++ [lit "h1"]) (lit "id1"))
       (init demo_world)).

(** The worker has taken the first of the two. *)
Definition demo_building : Server := default demo_queued (step Get demo_queued).

(** [raises ev s e]: what the event [ev] makes the worker run in [s]
    raises [e]: the code of [_run_build] up to the first command or after
    the build command, [create_subprocess_exec], or [readline()]. *)
Inductive raises : event -> Server -> exn -> Prop :=
| raises_begin s r q j e st :
    wpc s = Idle -> queue s = r :: q -> heap s !! r = Some j ->
    run_build_begin (j, world s) = (Raise e, st) ->
    raises Get s e
| raises_spawn s r stg e :
    wpc s = Spawning r stg ->
    raises (SpawnFailed e) s e
| raises_read s r stg e :
    wpc s = Reading r stg ->
    raises (ReadFailed e) s e
| raises_end s r b code j e st :
    wpc s = Reading r (Build b) -> heap s !! r = Some j ->
    run_build_end b code (j, world s) = (Raise e, st) ->
    raises (Exited code) s e.

(** The first build has synced the tree and its build command is running. *)
Definition demo_reading : Server :=
  default demo_building (run [Spawned; Exited 0; Spawned] demo_building).

Definition demo_before : gset path :=
  match wpc demo_reading with Reading _ (Build b) => b | _ => ∅ end.

(** The first build has failed (its build command exited with code 1) and
    the worker has taken the second. *)
Definition demo_second : Server :=
  default demo_reading (run [Exited 1; Get] demo_reading).

Definition demo_first_job (s : Server) : BuildJob :=
  default (new_job [] [] [] []) (heap s !! 0%nat).

(** The sync command of the first build is running; then it has exited. *)
Definition demo_syncing : Server := default demo_building (step Spawned demo_building).

Definition demo_synced : Server := default demo_syncing (step (Exited 0) demo_syncing).

(** Lines 80-86: the head of the log and the staging of the configuration. *)
Definition stage_config : M unit := bind build_header (fun _ => _apply_config).

(** The stage the worker is in, for the job it runs. *)
Definition in_sync (p : pc) (r : nat) : Prop := p = Spawning r Sync \/ p = Reading r Sync.
Definition in_build (p : pc) (r : nat) : Prop :=
  exists b, p = Spawning r (Build b) \/ p = Reading r (Build b).

(** A machine whose tree was never synced: no freshness marker, and the
    profile link of the live configuration points into the tree that is not
    there yet. *)
Definition unsynced_fs : node :=
  Dir [(lit "etc",
        Dir [(lit "portage",
              Dir [(lit "make.conf", File (lit "USE=X") 420);
                   (lit "make.profile",
                    Link (lit "/var/db/repos/gentoo/profiles/default/linux/amd64/23.0"))])]);
       (lit "var",
        Dir [(lit "cache",
              Dir [(lit "e4e", Dir [(lit "configs", Dir [(lit "h1", demo_config)])])])])].

Definition unsynced_queued : Server :=
  submit (new_job [lit "foo"] (lit "h1") (CONFIG_CACHE ++ [lit "h1"]) (lit "id1"))
    (init (mkWorld unsynced_fs (fun _ => demo_now) 0 [] [] (fun _ => 10240) (fun _ => float_of_Z 0) (fun _ => 0%N))).

Definition is_prefix (p s : pystr) : bool := pystr_eqb (take (length p) s) p.

(** The spellings of emerge's keep-going option. *)
Definition keep_going_option (opt : pystr) : bool := is_prefix (lit "--keep-going") opt.

Definition build_options : list pystr :=
  [lit "--buildpkg"; lit "--verbose"; lit "--with-bdeps=y";
   lit "--jobs=4"; lit "--load-average=8"; lit "--ask=n"].

Definition demo_job : BuildJob :=
  new_job [lit "foo"; lit "bar"] (lit "h1") (CONFIG_CACHE ++ [lit "h1"]) (lit "id1").

(** A machine on which the artifacts directory cannot be made: a regular
    file is in its place. *)
Definition blocked_fs : node :=
  default demo_fs (raw_set demo_fs artifact_dir (Some (File (lit "") 420))).

Definition blocked_world : World :=
  mkWorld blocked_fs (fun _ => demo_now) 0 [] [] (fun _ => 10240) (fun _ => float_of_Z 0) (fun _ => 0%N).

(** The build command of the first job is running there... *)
Definition blocked_reading : Server :=
  default (init blocked_world)
    (run [demo_submit "id1"; Get; Spawned; Exited 0; Spawned] (init blocked_world)).

(** ... and has written one new package to the cache. *)
Definition new_package_written (f : node) : node :=
  default f (raw_set f (binpkg_dir ++ [lit "new-1.gpkg.tar"]) (Some (File (lit "new") 420))).

Definition blocked_built : Server :=
  default blocked_reading
    (step (Touch (new_package_written (fs (world blocked_reading)))) blocked_reading).

Inductive shape := SNone | SLink (t : pystr) | SDir | SLeaf.

Definition shape_of (n : option node) : shape :=
  match n with
  | None => SNone
  | Some (Link t) => SLink t
  | Some (Dir _) => SDir
  | Some _ => SLeaf
  end.

Definition is_leaf (n : node) : Prop := shape_of (Some n) = SLeaf.

(** The last statement of [_create_artifact] (line 207), which reads the
    size of the archive. *)
Definition report_artifact (artifact : path) : M unit :=
  bind get_world (fun w =>
    match stat (fs w) artifact with
    | Some n =>
        logM (lit "Artifact created: " ++ str_path artifact ++ lit " ("
              ++ str_of_Z (st_size w n) ++ lit " bytes)" ++ nl)
    | None => raise (ENOENT artifact)
    end).

(** [stored names ms]: the members [ms] are those that [tar.add] makes of
    one node per name, in the order of the names. *)
Definition stored (names : list pystr) (ms : list (pystr * node)) : Prop :=
  exists groups,
    ms = concat groups
    /\ Forall2 (fun name g => exists n, g = members_of name n) names groups.

(** The packages a build has added to the cache: what is in it when the
    build command has exited, less the snapshot taken before. *)
Definition new_packages_of (before_build : gset path) (f : node) : list path :=
  elements ((if path_exists f binpkg_dir then snapshot f else ∅) ∖ before_build).

(** The location of the archive of the build [id]. *)
Definition artifact_of (id : pystr) : path := path_join artifact_dir (id ++ lit ".tar").

(** [demo_reading] once its build command has written one new package. *)
Definition demo_built : Server :=
  default demo_reading
    (step (Touch (new_package_written (fs (world demo_reading)))) demo_reading).

Definition demo_complete : Server := default demo_built (step (Exited 0) demo_built).




(** [grows m]: [m] only appends to the log. *)
Definition grows {A} (m : M A) : Prop := forall s, log s.1 `prefix_of` log (m s).2.1.

(** [evolves j j']: [j'] is a later state of the job [j]: the request, the
    identity and the configuration are the same, the log has grown, and the
    artifact location is as it was or is [artifacts/<build_id>.tar]. *)
Definition evolves (j j' : BuildJob) : Prop :=
  packages j' = packages j /\ config_hash j' = config_hash j
  /\ config_path j' = config_path j /\ build_id j' = build_id j
  /\ log j `prefix_of` log j'
  /\ (artifact_path j' = artifact_path j
      \/ artifact_path j' = Some (artifact_of (build_id j))).

(** The frame of the code around [_create_artifact]: the identity and the
    artifact location are left alone. *)
Definition keeps_location {A} (m : M A) : Prop :=
  forall s, artifact_path (m s).2.1 = artifact_path s.1 /\ build_id (m s).2.1 = build_id s.1.

(** What [_create_artifact] may do to the location of a job [j]. *)
Definition located (j r : BuildJob) : Prop :=
  build_id r = build_id j
  /\ (artifact_path r = artifact_path j \/ artifact_path r = Some (artifact_of (build_id j))).

(** Every location recorded is the one named after the build. *)
Definition well_located (s : Server) : Prop :=
  forall r j, heap s !! r = Some j ->
              artifact_path j = None \/ artifact_path j = Some (artifact_of (build_id j)).

(** [demo_complete] once the worker has taken the second job. *)
Definition demo_next : Server := default demo_complete (step Get demo_complete).

(** The outputs recorded on a job agree with its status. *)
Definition outputs_agree (j : BuildJob) : Prop :=
  (artifact_path j <> None -> status j = COMPLETE)
  /\ (status j = COMPLETE -> (artifact_path j = None <-> packages_built j = [])).

(** Every id of the [jobs] dict refers to a job that carries it. *)
Definition registered (s : Server) : Prop :=
  forall id r, jobs s !! id = Some r -> exists j, heap s !! r = Some j /\ build_id j = id.

(** [build_queue.queue.qsize()]: the [queue_size] that [GET /health] and
    [GET /queue] report. *)
Definition queue_size (s : Server) : nat := length (queue s).

(** [GET /build/{build_id}/artifact] (api.py, lines 129-150): an
    [HTTPException] or a [FileResponse]. *)
Inductive reply :=
| HTTPException (status_code : Z) (detail : pystr)
| FileResponse (p : path) (media_type filename : pystr).

Definition get_build_artifact (s : Server) (build_id : pystr) : reply :=
  match get_job_by_id s build_id with
  | None => HTTPException 404 (lit "Build not found")
  | Some job =>
      if negb (bool_decide (status job = COMPLETE)) then
        HTTPException 400 (lit "Build not complete, current status: " ++ status_value (status job))
      else
        match artifact_path job with
        | Some p =>
            if path_exists (fs (world s)) p
            then FileResponse p (lit "application/x-tar")
                              (lit "binpkgs-" ++ build_id ++ lit ".tar")
            else HTTPException 404 (lit "Artifact not found")
        | None => HTTPException 404 (lit "Artifact not found")
        end
  end.

(** What [_run_build] writes first (lines 82-84). *)
Definition log_header (d : datetime) (j : BuildJob) : pystr :=
  (lit "Starting build at " ++ isoformat d ++ nl)
  ++ (lit "Packages: " ++ join (lit ", ") (packages j) ++ nl)
  ++ (lit "Config hash: " ++ config_hash j ++ nl ++ nl).

(** The log is empty until the job starts, and opens with the header from
    then on. *)
Definition log_opens (j : BuildJob) : Prop :=
  match started_at j with
  | None => log j = []
  | Some d => log_header d j `prefix_of` log j
  end.

(** A command of the server: the sync command, or the build command of one
    of its jobs. *)
Definition server_command (s : Server) (cmd : list pystr) : Prop :=
  cmd = sync_cmd \/ exists r j, heap s !! r = Some j /\ cmd = emerge_cmd j.

(** [demo_reading] once its build command has exited with code 0, having
    written nothing. *)
Definition demo_nothing_built : Server :=
  default demo_reading (step (Exited 0) demo_reading).

(** [GET /build/{build_id}] (api.py, lines 98-115): the body of the answer,
    field by field. *)
Record status_body := mkStatusBody {
  body_build_id : pystr;
  body_status : pystr;
  body_packages : list pystr;
  body_packages_built : list pystr;
  body_log_tail : pystr;
  body_started_at : option pystr;
  body_completed_at : option pystr;
  body_error : option pystr
}.

Inductive status_reply :=
| StatusNotFound                       (* [HTTPException(404, "Build not found")] *)
| StatusBody (body : status_body).

Definition get_build_status (s : Server) (id : pystr) : status_reply :=
  match get_job_by_id s id with
  | None => StatusNotFound
  | Some job =>
      StatusBody (mkStatusBody (build_id job) (status_value (status job)) (packages job)
                               (packages_built job) (get_log_tail job 50)
                               (option_map isoformat (started_at job))
                               (option_map isoformat (completed_at job))
                               (error job))
  end.

(** * Properties *)

(** ** Reading the log *)

Lemma slice_from_0 {A} (l : list A) : slice_from 0 l = l.
Proof.
  unfold slice_from. simpl.
  replace (Z.min 0 (Z.of_nat (length l))) with 0 by lia.
  reflexivity.
Qed.

(** C10: [get_log_tail] with [lines = 0] returns every line of the log,
    joined by newlines (the slice [log_lines[-0:]] is the whole list), and
    the logs endpoint hands that text out for [?lines=0] on any known
    build. *)
Theorem get_log_tail_zero_is_whole_log :
  (forall job : BuildJob, get_log_tail job 0 = join nl (splitlines (log job)))
  /\ (forall (s : Server) (id : pystr),
        get_build_logs s id 0 =
        match get_job_by_id s id with
        | None => HTTP404
        | Some job => LogBody (join nl (splitlines (log job)))
        end).
Proof.
  assert (H : forall job, get_log_tail job 0 = join nl (splitlines (log job))).
  { intros job. unfold get_log_tail. change (- 0) with 0. now rewrite slice_from_0. }
  split; [exact H|].
  intros s id. unfold get_build_logs.
  destruct (get_job_by_id s id); [now rewrite H | reflexivity].
Qed.

(** ** Frames: what a piece of code leaves alone *)

Lemma quiet_rel_refl s : quiet_rel s s.
Proof. split; reflexivity. Qed.

Lemma quiet_rel_trans s1 s2 s3 : quiet_rel s1 s2 -> quiet_rel s2 s3 -> quiet_rel s1 s3.
Proof. intros [A1 B1] [A2 B2]. split; congruence. Qed.

Lemma quiet_ret {A} (a : A) : quiet (ret a).
Proof. intros s. apply quiet_rel_refl. Qed.

Lemma quiet_raise {A} (e : exn) : quiet (raise (A:=A) e).
Proof. intros s. apply quiet_rel_refl. Qed.

Lemma quiet_bind {A B} (m : M A) (k : A -> M B) :
  quiet m -> (forall a, quiet (k a)) -> quiet (bind m k).
Proof.
  intros Hm Hk s. unfold bind. specialize (Hm s).
  destruct (m s) as [[a|e] s']; simpl in *; [|exact Hm].
  eapply quiet_rel_trans; [exact Hm | apply Hk].
Qed.

Lemma quiet_get_job : quiet get_job.
Proof. intros s. apply quiet_rel_refl. Qed.

Lemma quiet_get_fs : quiet get_fs.
Proof. intros s. apply quiet_rel_refl. Qed.

Lemma quiet_get_world : quiet get_world.
Proof. intros s. apply quiet_rel_refl. Qed.

Lemma quiet_logM text : quiet (logM text).
Proof. intros [j w]. split; reflexivity. Qed.

Lemma quiet_nowM : quiet nowM.
Proof. intros [j w]. split; reflexivity. Qed.

Lemma quiet_fsM op : quiet (fsM op).
Proof. intros [j w]. unfold fsM. simpl. destruct (op (fs w)) as [[e|] f]; split; reflexivity. Qed.

Lemma quiet_liftE {A} (r : exn + A) : quiet (liftE r).
Proof. destruct r; [apply quiet_raise | apply quiet_ret]. Qed.

Create HintDb quiet.
#[local] Hint Resolve quiet_ret quiet_raise quiet_get_job quiet_get_fs quiet_get_world
  quiet_logM quiet_nowM quiet_fsM quiet_liftE : quiet.

Ltac quiet_step :=
  match goal with
  | |- quiet (bind _ _) => apply quiet_bind; [|intros ?]
  | |- quiet (if ?c then _ else _) => destruct c
  | |- quiet (match ?c with _ => _ end) => destruct c
  | |- quiet _ => solve [auto with quiet]
  end.

Lemma quiet_apply_items cfg names : quiet (apply_items cfg names).
Proof.
  induction names as [|name rest IH]; simpl; [apply quiet_ret|].
  repeat quiet_step.
Qed.

Lemma quiet_apply_config : quiet _apply_config.
Proof.
  unfold _apply_config. repeat quiet_step; apply quiet_apply_items.
Qed.

Lemma quiet_add_packages artifact pkgs : quiet (add_packages artifact pkgs).
Proof.
  induction pkgs as [|p rest IH]; simpl; [apply quiet_ret|].
  repeat quiet_step.
Qed.

Lemma forget_log_fields (j j' : BuildJob) :
  forget_log j' = forget_log j ->
  packages j' = packages j /\ config_hash j' = config_hash j /\ config_path j' = config_path j
  /\ build_id j' = build_id j /\ status j' = status j /\ packages_built j' = packages_built j
  /\ error j' = error j /\ started_at j' = started_at j /\ completed_at j' = completed_at j
  /\ artifact_path j' = artifact_path j.
Proof. intros H. injection H. intros. repeat split; assumption. Qed.

Lemma forget_fs_fields (w w' : World) :
  forget_fs w' = forget_fs w ->
  clock w' = clock w /\ spawned w' = spawned w /\ assigned w' = assigned w
  /\ st_size w' = st_size w /\ st_mtime w' = st_mtime w.
Proof. intros H. injection H. intros. repeat split; assumption. Qed.

(** ** The pieces of a build, one by one *)

Lemma build_header_spec j w :
  exists j', build_header (j, w) = (Ret tt, (j', tick (with_status BUILDING w)))
             /\ forget_log j' = forget_log (set_started_at (Some (clock w (ticks w)))
                                                           (set_status BUILDING j)).
Proof. eexists. split; reflexivity. Qed.

Lemma build_begin_spec j w :
  exists b text, build_begin (j, w)
                 = (Ret (Build b), (append_log text j, with_spawn (emerge_cmd j) w)).
Proof.
  eexists. exists ((nl ++ lit "=== Building packages ===" ++ nl)
                   ++ (lit "$ " ++ join space (emerge_cmd j) ++ nl)).
  cbv -[lit nl join app snapshot path_exists space binpkg_dir].
  rewrite <- app_assoc. reflexivity.
Qed.

Lemma sync_or_build_skip j w m :
  stat (fs w) timestamp_file = Some m ->
  float_ltb (tree_age w m) (float_of_Z 604800) = true ->
  exists b text, sync_or_build (j, w)
                 = (Ret (Build b), (append_log (skip_line (tree_age w m) ++ text) j,
                                    with_spawn (emerge_cmd j) (tick w))).
Proof.
  intros Hm Hage.
  destruct (build_begin_spec (append_log (skip_line (tree_age w m)) j) (tick w)) as (b & text & Hb).
  exists b, text.
  unfold sync_or_build, bind, get_world. simpl. rewrite Hm. simpl.
  fold (tree_age w m).
  rewrite Hage.
  simpl. unfold logM, mod_job. simpl.
  etransitivity; [exact Hb|].
  unfold append_log. simpl. rewrite <- app_assoc. reflexivity.
Qed.

Lemma sync_or_build_stale j w m :
  stat (fs w) timestamp_file = Some m ->
  float_ltb (tree_age w m) (float_of_Z 604800) = false ->
  sync_or_build (j, w) = (Ret Sync, (append_log sync_text j, with_spawn sync_cmd (tick w))).
Proof.
  intros Hm Hage.
  unfold sync_or_build, bind, get_world. simpl. rewrite Hm. simpl.
  fold (tree_age w m).
  rewrite Hage.
  simpl. unfold append_log. simpl. rewrite <- app_assoc. reflexivity.
Qed.

Lemma sync_or_build_absent j w :
  stat (fs w) timestamp_file = None ->
  sync_or_build (j, w) = (Ret Sync, (append_log sync_text j, with_spawn sync_cmd w)).
Proof.
  intros Hm.
  unfold sync_or_build, bind, get_world. simpl. rewrite Hm. simpl.
  unfold append_log. simpl. rewrite <- app_assoc. reflexivity.
Qed.

Lemma calm_rel_refl s : calm_rel s s.
Proof. split; reflexivity. Qed.

Lemma calm_rel_trans s1 s2 s3 : calm_rel s1 s2 -> calm_rel s2 s3 -> calm_rel s1 s3.
Proof. intros [A1 B1] [A2 B2]. split; congruence. Qed.

Lemma quiet_calm {A} (m : M A) : quiet m -> calm m.
Proof.
  intros H s. destruct (H s) as [Hj Hw]. split; [|exact Hw].
  apply forget_log_fields in Hj. destruct Hj as (?&?&?&?&?&?&?&?&?&?).
  unfold forget_out. congruence.
Qed.

Lemma calm_bind {A B} (m : M A) (k : A -> M B) :
  calm m -> (forall a, calm (k a)) -> calm (bind m k).
Proof.
  intros Hm Hk s. unfold bind. specialize (Hm s).
  destruct (m s) as [[a|e] s']; simpl in *; [|exact Hm].
  eapply calm_rel_trans; [exact Hm | apply Hk].
Qed.

Lemma calm_set_packages_built l : calm (mod_job (set_packages_built l)).
Proof. intros [j w]. split; reflexivity. Qed.

Lemma calm_set_artifact_path p : calm (mod_job (set_artifact_path p)).
Proof. intros [j w]. split; reflexivity. Qed.

Lemma forget_log_foldl (l : list pystr) (f : pystr -> pystr) j :
  forget_log (foldl (fun j pkg => append_log (f pkg) j) j l) = forget_log j.
Proof.
  revert j. induction l as [|x l IH]; intros j; simpl; [reflexivity|].
  rewrite IH. reflexivity.
Qed.

Lemma quiet_log_each (l : list pystr) (f : pystr -> pystr) :
  quiet (mod_job (fun j => foldl (fun j pkg => append_log (f pkg) j) j l)).
Proof. intros [j w]. split; simpl; [apply forget_log_foldl | reflexivity]. Qed.

Lemma quiet_tar_open p : quiet (tar_open p).
Proof.
  intros [j w]. unfold tar_open. cbn [fst snd].
  destruct (canon resolve_fuel (fs w) [] p true) as [q|]; [|apply quiet_rel_refl].
  destruct (raw_lookup (fs w) q) as [[| | |]|]; try apply quiet_rel_refl;
    destruct (fs_write (fs w) q (Some (Tar [])) p) as [[e|] f]; split; reflexivity.
Qed.

Ltac calm_step :=
  match goal with
  | |- calm (bind _ _) => apply calm_bind; [|intros ?]
  | |- calm (mod_job (set_packages_built _)) => apply calm_set_packages_built
  | |- calm (mod_job (set_artifact_path _)) => apply calm_set_artifact_path
  | |- calm (mod_job (fun j => foldl _ j _)) => apply quiet_calm, quiet_log_each
  | |- calm (tar_open _) => apply quiet_calm, quiet_tar_open
  | |- calm (add_packages _ _) => apply quiet_calm, quiet_add_packages
  | |- calm (if ?c then _ else _) => destruct c
  | |- calm (match ?c with _ => _ end) => destruct c
  | |- calm _ => solve [apply quiet_calm; auto with quiet]
  end.

Lemma calm_create_artifact pkgs : calm (_create_artifact pkgs).
Proof. unfold _create_artifact. repeat calm_step. Qed.

Lemma calm_package_outputs b : calm (package_outputs b).
Proof.
  unfold package_outputs. repeat calm_step; apply calm_create_artifact.
Qed.

Lemma handler_eq e j w :
  bind (worker_except e) (fun _ => worker_finally) (j, w)
  = (Ret tt, (failed_job e (clock w (ticks w)) j, tick (with_status FAILED w))).
Proof. reflexivity. Qed.

Lemma guarded_raise {A} (m : M A) s e s' :
  m s = (Raise e, s') ->
  guarded m s = (None, (failed_job e (clock s'.2 (ticks s'.2)) s'.1, tick (with_status FAILED s'.2))).
Proof. intros H. unfold guarded. rewrite H. destruct s' as [j w]. reflexivity. Qed.

Lemma guarded_ret {A} (m : M A) s a s' :
  m s = (Ret a, s') -> guarded m s = (Some a, s').
Proof. intros H. unfold guarded. rewrite H. reflexivity. Qed.

Lemma finally_eq j w :
  worker_finally (j, w) = (Ret tt, (set_completed_at (Some (clock w (ticks w))) j, tick w)).
Proof. reflexivity. Qed.

(** The build command failed: lines 117-120. *)
Lemma run_build_end_nonzero b code j w :
  code <> 0 ->
  run_build_end b code (j, w)
  = (Ret tt, (set_error (Some (lit "emerge failed with exit code " ++ str_of_Z code))
                        (set_status FAILED j),
              with_status FAILED w)).
Proof.
  intros H. unfold run_build_end.
  destruct (code =? 0) eqn:E; [apply Z.eqb_eq in E; contradiction|].
  reflexivity.
Qed.

(** The build command succeeded: lines 122-134. *)
Lemma run_build_end_zero b j w :
  match run_build_end b 0 (j, w) with
  | (Ret _, (j', w')) =>
      exists j1 w1, package_outputs b (j, w) = (Ret tt, (j1, w1))
                    /\ forget_log j' = forget_log (set_status COMPLETE j1)
                    /\ w' = tick (with_status COMPLETE w1)
  | (Raise e, s') => package_outputs b (j, w) = (Raise e, s')
  end.
Proof.
  unfold run_build_end. simpl. unfold bind at 1.
  destruct (package_outputs b (j, w)) as [[[]|e] [j1 w1]]; [|reflexivity].
  exists j1, w1. repeat split.
Qed.

Lemma steady_rel_refl s : steady_rel s s.
Proof. repeat split. Qed.

Lemma steady_rel_trans s1 s2 s3 : steady_rel s1 s2 -> steady_rel s2 s3 -> steady_rel s1 s3.
Proof. intros (A1 & B1 & C1) (A2 & B2 & C2). repeat split; congruence. Qed.

Lemma quiet_steady {A} (m : M A) : quiet m -> steady m.
Proof.
  intros H s. destruct (H s) as [Hj Hw]. apply forget_fs_fields in Hw.
  destruct Hw as (?&?&?&?&?). repeat split; assumption.
Qed.

Lemma steady_bind {A B} (m : M A) (k : A -> M B) :
  steady m -> (forall a, steady (k a)) -> steady (bind m k).
Proof.
  intros Hm Hk s. unfold bind. specialize (Hm s).
  destruct (m s) as [[a|e] s']; simpl in *; [|exact Hm].
  eapply steady_rel_trans; [exact Hm | apply Hk].
Qed.

Lemma steady_run_command_begin cmd : steady (run_command_begin cmd).
Proof. intros [j w]. repeat split. Qed.

Lemma steady_build_begin : steady build_begin.
Proof.
  intros [j w]. destruct (build_begin_spec j w) as (b & text & ->). repeat split.
Qed.

Lemma steady_sync_or_build : steady sync_or_build.
Proof.
  intros [j w].
  destruct (stat (fs w) timestamp_file) as [m|] eqn:Hm.
  - destruct (float_ltb (tree_age w m) (float_of_Z 604800)) eqn:Hlt.
    + destruct (sync_or_build_skip j w m Hm Hlt) as (b & text & ->). repeat split.
    + rewrite (sync_or_build_stale j w m Hm Hlt). repeat split.
  - rewrite (sync_or_build_absent j w Hm). repeat split.
Qed.

Lemma steady_apply_config : steady _apply_config.
Proof. apply quiet_steady, quiet_apply_config. Qed.

Lemma steady_logM text : steady (logM text).
Proof. apply quiet_steady, quiet_logM. Qed.

(** Lines 80-98 as a whole: whether they end by starting a command or by
    raising, the job has been marked and stamped, and that is the one
    status assigned. *)
Lemma run_build_begin_frame j w :
  let s' := (run_build_begin (j, w)).2 in
  forget_log s'.1 = forget_log (set_started_at (Some (clock w (ticks w))) (set_status BUILDING j))
  /\ assigned s'.2 = assigned w ++ [BUILDING]
  /\ clock s'.2 = clock w.
Proof.
  destruct (build_header_spec j w) as (j0 & Hh & Hj0).
  assert (E : run_build_begin (j, w)
              = bind _apply_config (fun _ => sync_or_build) (j0, tick (with_status BUILDING w))).
  { unfold run_build_begin. unfold bind at 1. rewrite Hh. reflexivity. }
  cbv zeta. rewrite E. clear E Hh.
  assert (Hrest : steady (bind _apply_config (fun _ => sync_or_build))).
  { apply steady_bind; [apply steady_apply_config | intros _; apply steady_sync_or_build]. }
  destruct (Hrest (j0, tick (with_status BUILDING w))) as (A & B & C).
  simpl in *. repeat split.
  - rewrite A. exact Hj0.
  - exact B.
  - exact C.
Qed.

(** ** The worker resuming a job *)

Lemma resume_spec {A} (r : nat) (m : M A) (next : A -> pc) (last : bool) (s s' : Server) :
  resume r m next last s = Some s' ->
  exists j, heap s !! r = Some j /\ jobs s' = jobs s /\ queue s' = queue s /\
    ((exists a j1 w1, m (j, world s) = (Ret a, (j1, w1)) /\ last = false
        /\ heap s' = <[r := j1]> (heap s) /\ world s' = w1
        /\ current_job s' = current_job s /\ wpc s' = next a)
     \/ (exists a j1 w1, m (j, world s) = (Ret a, (j1, w1)) /\ last = true
        /\ heap s' = <[r := set_completed_at (Some (clock w1 (ticks w1))) j1]> (heap s)
        /\ world s' = tick w1
        /\ current_job s' = None /\ wpc s' = Idle)
     \/ (exists e j1 w1, m (j, world s) = (Raise e, (j1, w1))
        /\ heap s' = <[r := failed_job e (clock w1 (ticks w1)) j1]> (heap s)
        /\ world s' = tick (with_status FAILED w1)
        /\ current_job s' = None /\ wpc s' = Idle)).
Proof.
  unfold resume. intros H.
  destruct (heap s !! r) as [j|] eqn:Hj; [|discriminate].
  exists j. simpl in H.
  destruct (m (j, world s)) as [[a|e] [j1 w1]] eqn:Hm.
  - rewrite (guarded_ret _ _ _ _ Hm) in H.
    destruct last; injection H as <-; simpl; repeat split.
    + right; left. exists a, j1, w1. repeat split.
    + left. exists a, j1, w1. repeat split.
  - rewrite (guarded_raise _ _ _ _ Hm) in H. injection H as <-. simpl. repeat split.
    right; right. exists e, j1, w1. repeat split.
Qed.

(** ** The states a job goes through *)

Lemma Inv_init w : Inv (init w).
Proof.
  split; simpl; try reflexivity; try lia.
  - intros r. discriminate.
  - intros r j H. rewrite lookup_nil in H. discriminate.
Qed.

Lemma building_forget_out j j' : forget_out j' = forget_out j ->
  status j' = status j /\ error j' = error j /\ started_at j' = started_at j
  /\ completed_at j' = completed_at j.
Proof. intros H. injection H. intros. repeat split; assumption. Qed.

Lemma started_eq (s : Server) :
  (length (queue s) <= length (heap s))%nat ->
  (started s + length (queue s) = length (heap s))%nat.
Proof. unfold started. lia. Qed.

(** The job the worker runs moves on: it is still being built, or it is
    over. *)
Lemma Inv_update_running (s s' : Server) (r : nat) (j' : BuildJob) :
  Inv s -> running s = Some r ->
  heap s' = <[r := j']> (heap s) -> queue s' = queue s ->
  current_job s' = running s' ->
  (running s' = Some r /\ building j') \/ (running s' = None /\ finished j') ->
  Inv s'.
Proof.
  intros [Hlen Hq Hcur Hrun Hjobs] Hr Hheap Hqueue Hcur' Hcase.
  assert (Hst : started s' = started s).
  { unfold started. rewrite Hheap, Hqueue, length_insert. reflexivity. }
  pose proof (Hrun r Hr) as Hk.
  split.
  - rewrite Hheap, Hqueue, length_insert. exact Hlen.
  - rewrite Hst, Hqueue. exact Hq.
  - exact Hcur'.
  - intros r0 Hr0. rewrite Hst. destruct Hcase as [[Hr' _]|[Hr' _]]; [|congruence].
    rewrite Hr' in Hr0. injection Hr0 as <-. exact Hk.
  - intros r0 j0 Hl. rewrite Hst. rewrite Hheap in Hl.
    destruct (decide (r0 = r)) as [->|Hne].
    + assert (Hlt : (r < length (heap s))%nat).
      { apply lookup_lt_Some in Hl. rewrite length_insert in Hl. exact Hl. }
      rewrite list_lookup_insert_eq in Hl by exact Hlt. injection Hl as <-.
      destruct Hcase as [[Hr' Hb]|[Hr' Hf]].
      * right; left. split; assumption.
      * right; right. split; [lia|]. split; [congruence | exact Hf].
    + rewrite list_lookup_insert_ne in Hl by congruence.
      destruct (Hjobs r0 j0 Hl) as [H|[[H _]|(H1 & H2 & H3)]].
      * left. exact H.
      * congruence.
      * right; right. split; [exact H1|]. split; [|exact H3].
        destruct Hcase as [[Hr' _]|[Hr' _]]; congruence.
Qed.

(** The worker takes the next job from the queue. *)
Lemma Inv_update_get (s s' : Server) (r : nat) (q : list nat) (j' : BuildJob) :
  Inv s -> wpc s = Idle -> queue s = r :: q ->
  heap s' = <[r := j']> (heap s) -> queue s' = q ->
  current_job s' = running s' ->
  (running s' = Some r /\ building j') \/ (running s' = None /\ finished j') ->
  Inv s'.
Proof.
  intros [Hlen Hq Hcur Hrun Hjobs] Hidle Hqueue Hheap Hqueue' Hcur' Hcase.
  pose proof (started_eq s Hlen) as Hsum. rewrite Hqueue in Hsum, Hq, Hlen. simpl in *.
  injection Hq as Hr Hq'.
  assert (Hst : started s' = S (started s)).
  { unfold started in *. rewrite Hheap, Hqueue', length_insert. rewrite Hqueue. simpl. lia. }
  assert (Hnone : running s = None) by (unfold running; rewrite Hidle; reflexivity).
  split.
  - rewrite Hheap, Hqueue', length_insert. lia.
  - rewrite Hst, Hqueue'. exact Hq'.
  - exact Hcur'.
  - intros r0 Hr0. rewrite Hst. destruct Hcase as [[Hr' _]|[Hr' _]]; [|congruence].
    rewrite Hr' in Hr0. injection Hr0 as <-. congruence.
  - intros r0 j0 Hl. rewrite Hst. rewrite Hheap in Hl.
    destruct (decide (r0 = r)) as [->|Hne].
    + assert (Hlt : (r < length (heap s))%nat).
      { apply lookup_lt_Some in Hl. rewrite length_insert in Hl. exact Hl. }
      rewrite list_lookup_insert_eq in Hl by exact Hlt. injection Hl as <-.
      destruct Hcase as [[Hr' Hb]|[Hr' Hf]].
      * right; left. split; assumption.
      * right; right. split; [lia|]. split; [congruence | exact Hf].
    + rewrite list_lookup_insert_ne in Hl by congruence.
      destruct (Hjobs r0 j0 Hl) as [[H1 H2]|[[H _]|(H1 & H2 & H3)]].
      * left. split; [lia | exact H2].
      * congruence.
      * right; right. split; [lia|]. split; [|exact H3].
        destruct Hcase as [[Hr' _]|[Hr' _]]; [|congruence].
        rewrite Hr'. intros E. injection E as E. lia.
Qed.

Lemma Inv_submit (s : Server) (job : BuildJob) : Inv s -> fresh job -> Inv (submit job s).
Proof.
  intros [Hlen Hq Hcur Hrun Hjobs] Hf.
  pose proof (started_eq s Hlen) as Hsum.
  assert (Hst : started (submit job s) = started s).
  { unfold started, submit. simpl. rewrite !length_app. simpl. lia. }
  split; simpl.
  - rewrite !length_app. simpl. lia.
  - rewrite Hst, length_app. simpl. rewrite seq_app. simpl.
    rewrite <- Hq. do 2 f_equal. lia.
  - exact Hcur.
  - intros r Hr. rewrite Hst. apply Hrun. exact Hr.
  - intros r j Hl. rewrite Hst.
    destruct (decide (r < length (heap s))%nat) as [Hlt|Hge].
    + rewrite lookup_app_l in Hl by exact Hlt. apply Hjobs. exact Hl.
    + rewrite lookup_app_r in Hl by lia.
      destruct (r - length (heap s))%nat eqn:E; simpl in Hl; [|rewrite lookup_nil in Hl; discriminate].
      injection Hl as <-. left. split; [lia | exact Hf].
Qed.

Lemma building_forget_log j j' : forget_log j' = forget_log j -> building j -> building j'.
Proof.
  intros H (A & B & C & D & E & F).
  apply forget_log_fields in H. destruct H as (?&?&?&?&?&?&?&?&?&?).
  unfold building. repeat split; congruence.
Qed.

Lemma fresh_new_job pkgs h cp uuid : fresh (new_job pkgs h cp uuid).
Proof. repeat split. Qed.

Lemma building_begin j j1 d :
  fresh j -> forget_log j1 = forget_log (set_started_at (Some d) (set_status BUILDING j)) ->
  building j1.
Proof.
  intros (A & B & C & D & E & F) H.
  apply forget_log_fields in H. destruct H as (?&?&?&?&?&?&?&?&?&?). simpl in *.
  unfold building. repeat split; congruence.
Qed.

Lemma finished_failed_job e d j :
  started_at j <> None -> finished (failed_job e d j).
Proof.
  intros H. unfold finished, failed_job, terminal. simpl.
  repeat split; auto; discriminate.
Qed.

Lemma finished_nonzero d x j :
  building j -> finished (set_completed_at (Some d) (set_error (Some x) (set_status FAILED j))).
Proof.
  intros (A & B & C & D & E & F). unfold finished, terminal. simpl.
  repeat split; auto; discriminate.
Qed.

Lemma finished_complete d j jp j' :
  building j -> forget_out jp = forget_out j -> forget_log j' = forget_log (set_status COMPLETE jp) ->
  finished (set_completed_at (Some d) j').
Proof.
  intros (A & B & C & D & E & F) Hp H.
  apply building_forget_out in Hp. destruct Hp as (?&?&?&?).
  apply forget_log_fields in H. destruct H as (?&?&?&?&Hs&?&He&?&?&?). simpl in *.
  unfold finished, terminal. simpl. rewrite Hs, He.
  repeat split; auto; try discriminate; congruence.
Qed.

Lemma Inv_running_building s r j :
  Inv s -> running s = Some r -> heap s !! r = Some j -> building j.
Proof.
  intros HI Hr Hl. destruct (inv_jobs s HI r j Hl) as [[H _]|[[_ H]|(_ & H & _)]].
  - pose proof (inv_running s HI r Hr). lia.
  - exact H.
  - contradiction.
Qed.

Lemma Inv_head_fresh s r q j :
  Inv s -> wpc s = Idle -> queue s = r :: q -> heap s !! r = Some j ->
  r = started s /\ fresh j.
Proof.
  intros HI Hidle Hq Hl.
  pose proof (inv_queue s HI) as Hseq. rewrite Hq in Hseq. simpl in Hseq.
  injection Hseq as Hr _. split; [exact Hr|].
  destruct (inv_jobs s HI r j Hl) as [[_ H]|[[H _]|(H & _)]].
  - exact H.
  - unfold running in H. rewrite Hidle in H. discriminate.
  - lia.
Qed.

(** Every step of the server keeps the invariant. *)
Lemma Inv_step ev s s' : Inv s -> step ev s = Some s' -> Inv s'.
Proof.
  intros HI Hstep. unfold step in Hstep.
  destruct ev as [pkgs hash uuid|f| | |e|text|e|code].
  - (* Submit *)
    assert (H : (if path_exists (fs (world s)) (path_join CONFIG_CACHE hash)
                 then Some (submit (new_job pkgs hash (path_join CONFIG_CACHE hash) uuid) s)
                 else None) = Some s') by (destruct (wpc s); exact Hstep).
    destruct (path_exists _ _); [|discriminate]. injection H as <-.
    apply Inv_submit; [exact HI | apply fresh_new_job].
  - (* Touch *)
    assert (H : s' = mkServer (heap s) (jobs s) (queue s) (current_job s) (wpc s)
                              (set_fs f (world s))) by (destruct (wpc s); congruence).
    subst s'. destruct HI as [A B C D E]. split; assumption.
  - (* Get *)
    destruct (wpc s) eqn:Hpc; try discriminate.
    destruct (queue s) as [|r q] eqn:Hq; [discriminate|].
    apply resume_spec in Hstep. simpl in Hstep.
    destruct Hstep as (j & Hl & _ & Hq' & Hcase).
    destruct (Inv_head_fresh s r q j HI Hpc Hq Hl) as [Hr Hf].
    pose proof (run_build_begin_frame j (world s)) as (Fj & _ & _).
    destruct Hcase as [(a & j1 & w1 & Hm & _ & Hh & _ & Hc & Hp)
                      |[(a & j1 & w1 & _ & Hlast & _)|(e & j1 & w1 & Hm & Hh & _ & Hc & Hp)]].
    + rewrite Hm in Fj. simpl in Fj.
      eapply (Inv_update_get s s' r q j1 HI Hpc Hq Hh Hq').
      * unfold running. rewrite Hp, Hc. reflexivity.
      * left. split; [unfold running; rewrite Hp; reflexivity|].
        eapply building_begin; eassumption.
    + discriminate.
    + rewrite Hm in Fj. simpl in Fj.
      eapply (Inv_update_get s s' r q _ HI Hpc Hq Hh Hq').
      * unfold running. rewrite Hp, Hc. reflexivity.
      * right. split; [unfold running; rewrite Hp; reflexivity|].
        apply finished_failed_job.
        apply forget_log_fields in Fj. destruct Fj as (?&?&?&?&?&?&?&Hs&?&?).
        simpl in Hs. rewrite Hs. discriminate.
  - (* Spawned *)
    destruct (wpc s) as [|r st|r st] eqn:Hpc; try discriminate.
    injection Hstep as <-. destruct HI as [A B C D E].
    unfold running, started in *. rewrite Hpc in *. split; simpl; assumption.
  - (* SpawnFailed *)
    destruct (wpc s) as [|r st|r st] eqn:Hpc; try discriminate.
    assert (Hr : running s = Some r) by (unfold running; rewrite Hpc; reflexivity).
    apply resume_spec in Hstep.
    destruct Hstep as (j & Hl & _ & Hq' & Hcase).
    pose proof (Inv_running_building s r j HI Hr Hl) as Hb.
    destruct Hcase as [(a & j1 & w1 & Hm & _)
                      |[(a & j1 & w1 & Hm & _)|(e0 & j1 & w1 & Hm & Hh & _ & Hc & Hp)]];
      try discriminate.
    injection Hm as <- <- <-.
    eapply (Inv_update_running s s' r _ HI Hr Hh Hq').
    + unfold running. rewrite Hp, Hc. reflexivity.
    + right. split; [unfold running; rewrite Hp; reflexivity|].
      apply finished_failed_job. apply Hb.
  - (* Line *)
    destruct (wpc s) as [|r st|r st] eqn:Hpc; try discriminate.
    destruct (readable text); [|discriminate].
    assert (Hr : running s = Some r) by (unfold running; rewrite Hpc; reflexivity).
    apply resume_spec in Hstep.
    destruct Hstep as (j & Hl & _ & Hq' & Hcase).
    pose proof (Inv_running_building s r j HI Hr Hl) as Hb.
    destruct Hcase as [(a & j1 & w1 & Hm & _ & Hh & _ & Hc & Hp)
                      |[(a & j1 & w1 & _ & Hlast & _)|(e0 & j1 & w1 & Hm & _)]];
      try discriminate.
    injection Hm as <- <- <-.
    eapply (Inv_update_running s s' r _ HI Hr Hh Hq').
    + unfold running. rewrite Hp, Hc. rewrite (inv_current s HI). exact Hr.
    + left. split; [unfold running; rewrite Hp; reflexivity|].
      eapply building_forget_log; [|exact Hb]. reflexivity.
  - (* ReadFailed *)
    destruct (wpc s) as [|r st|r st] eqn:Hpc; try discriminate.
    assert (Hr : running s = Some r) by (unfold running; rewrite Hpc; reflexivity).
    apply resume_spec in Hstep.
    destruct Hstep as (j & Hl & _ & Hq' & Hcase).
    pose proof (Inv_running_building s r j HI Hr Hl) as Hb.
    destruct Hcase as [(a & j1 & w1 & Hm & _)
                      |[(a & j1 & w1 & Hm & _)|(e0 & j1 & w1 & Hm & Hh & _ & Hc & Hp)]];
      try discriminate.
    injection Hm as <- <- <-.
    eapply (Inv_update_running s s' r _ HI Hr Hh Hq').
    + unfold running. rewrite Hp, Hc. reflexivity.
    + right. split; [unfold running; rewrite Hp; reflexivity|].
      apply finished_failed_job. apply Hb.
  - (* Exited *)
    destruct (wpc s) as [|r st|r st] eqn:Hpc; try discriminate.
    assert (Hr : running s = Some r) by (unfold running; rewrite Hpc; reflexivity).
    destruct st as [|b].
    + apply resume_spec in Hstep.
      destruct Hstep as (j & Hl & _ & Hq' & Hcase).
      pose proof (Inv_running_building s r j HI Hr Hl) as Hb.
      destruct (build_begin_spec j (world s)) as (b & text & Hbb).
      destruct Hcase as [(a & j1 & w1 & Hm & _ & Hh & _ & Hc & Hp)
                        |[(a & j1 & w1 & _ & Hlast & _)|(e0 & j1 & w1 & Hm & _)]];
        try discriminate.
      rewrite Hbb in Hm. injection Hm as <- <- <-.
      eapply (Inv_update_running s s' r _ HI Hr Hh Hq').
      * unfold running. rewrite Hp, Hc. rewrite (inv_current s HI). exact Hr.
      * left. split; [unfold running; rewrite Hp; reflexivity|].
        eapply building_forget_log; [|exact Hb]. reflexivity.
    + apply resume_spec in Hstep.
      destruct Hstep as (j & Hl & _ & Hq' & Hcase).
      pose proof (Inv_running_building s r j HI Hr Hl) as Hb.
      destruct Hcase as [(a & j1 & w1 & Hm & Hlast & _)
                        |[(a & j1 & w1 & Hm & _ & Hh & _ & Hc & Hp)
                         |(e0 & j1 & w1 & Hm & Hh & _ & Hc & Hp)]];
        try discriminate.
      * eapply (Inv_update_running s s' r _ HI Hr Hh Hq').
        { unfold running. rewrite Hp, Hc. reflexivity. }
        right. split; [unfold running; rewrite Hp; reflexivity|].
        destruct (decide (code = 0)) as [->|Hne].
        -- pose proof (run_build_end_zero b j (world s)) as Hz. rewrite Hm in Hz.
           destruct Hz as (jp & wp & Hpo & Hj1 & _).
           pose proof (calm_package_outputs b (j, world s)) as [Hcalm _].
           rewrite Hpo in Hcalm. simpl in Hcalm.
           eapply finished_complete; eassumption.
        -- rewrite (run_build_end_nonzero b code j (world s) Hne) in Hm.
           injection Hm as _ <- _. apply finished_nonzero. exact Hb.
      * eapply (Inv_update_running s s' r _ HI Hr Hh Hq').
        { unfold running. rewrite Hp, Hc. reflexivity. }
        right. split; [unfold running; rewrite Hp; reflexivity|].
        apply finished_failed_job.
        destruct (decide (code = 0)) as [->|Hne].
        -- pose proof (run_build_end_zero b j (world s)) as Hz. rewrite Hm in Hz.
           pose proof (calm_package_outputs b (j, world s)) as [Hcalm _].
           rewrite Hz in Hcalm. simpl in Hcalm.
           apply building_forget_out in Hcalm. destruct Hcalm as (_ & _ & Hs & _).
           rewrite Hs. apply Hb.
        -- rewrite (run_build_end_nonzero b code j (world s) Hne) in Hm. discriminate.
Qed.

Lemma Inv_run evs : forall s s', Inv s -> run evs s = Some s' -> Inv s'.
Proof.
  induction evs as [|ev evs IH]; intros s s' HI H; simpl in H.
  - injection H as <-. exact HI.
  - destruct (step ev s) as [s1|] eqn:E; [|discriminate]. simpl in H.
    eapply IH; [|exact H]. eapply Inv_step; eassumption.
Qed.

Lemma Inv_reachable s : reachable s -> Inv s.
Proof. intros (w & evs & H). eapply Inv_run; [apply Inv_init | exact H]. Qed.

(** ** The life cycle of a status *)

Ltac close_effect :=
  repeat split; eauto; try discriminate; try solve [left; auto]; try solve [right; auto].

Lemma step_effect ev s s' :
  Inv s -> step ev s = Some s' ->
  (assigned (world s') = assigned (world s)
   /\ forall r j, heap s !! r = Some j -> heap s' !! r = Some j)
  \/ exists r j j' new,
       heap s !! r = Some j /\ heap s' = <[r := j']> (heap s)
       /\ worker_job ev s s' r j
       /\ assigned (world s') = assigned (world s) ++ new
       /\ chain (status j) new
       /\ status j' = List.last new (status j)
       /\ (status j = QUEUED ->
           started_at j' = Some (clock (world s) (ticks (world s))) /\ new <> []).
Proof.
  intros HI Hstep. unfold step in Hstep.
  destruct ev as [pkgs hash uuid|f| | |e|text|e|code].
  - left.
    assert (H : (if path_exists (fs (world s)) (path_join CONFIG_CACHE hash)
                 then Some (submit (new_job pkgs hash (path_join CONFIG_CACHE hash) uuid) s)
                 else None) = Some s') by (destruct (wpc s); exact Hstep).
    destruct (path_exists _ _); [|discriminate]. injection H as <-. simpl.
    split; [reflexivity|]. intros r j Hl. apply lookup_app_l_Some. exact Hl.
  - left.
    assert (H : s' = mkServer (heap s) (jobs s) (queue s) (current_job s) (wpc s)
                              (set_fs f (world s))) by (destruct (wpc s); congruence).
    subst s'. simpl. split; [reflexivity | auto].
  - (* Get *)
    right.
    destruct (wpc s) eqn:Hpc; try discriminate.
    destruct (queue s) as [|r q] eqn:Hq; [discriminate|].
    apply resume_spec in Hstep. simpl in Hstep.
    destruct Hstep as (j & Hl & _ & Hq' & Hcase).
    destruct (Inv_head_fresh s r q j HI Hpc Hq Hl) as [Hr Hf].
    pose proof (run_build_begin_frame j (world s)) as (Fj & Fa & Fc).
    assert (Hwj : worker_job Get s s' r j).
    { left. rewrite Hq'. unfold fresh in Hf. repeat split; solve [auto | apply Hf]. }
    destruct Hf as (Hs & _).
    destruct Hcase as [(a & j1 & w1 & Hm & _ & Hh & Hw & Hc & Hp)
                      |[(a & j1 & w1 & _ & Hlast & _)|(e & j1 & w1 & Hm & Hh & Hw & Hc & Hp)]];
      try discriminate;
      rewrite Hm in Fj, Fa, Fc; simpl in Fj, Fa, Fc;
      apply forget_log_fields in Fj; destruct Fj as (?&?&?&?&Fs&?&?&Fst&?&?);
      simpl in Fs, Fst.
    + exists r, j, j1, [BUILDING]. rewrite Hw, Hs. simpl.
      close_effect.
    + exists r, j, (failed_job e (clock w1 (ticks w1)) j1), [BUILDING; FAILED].
      rewrite Hw, Hs. simpl. rewrite Fa, <- app_assoc.
      close_effect.
  - (* Spawned *)
    left. destruct (wpc s) as [|r st|r st] eqn:Hpc; try discriminate.
    injection Hstep as <-. simpl. auto.
  - (* SpawnFailed *)
    right. destruct (wpc s) as [|r st|r st] eqn:Hpc; try discriminate.
    assert (Hr : running s = Some r) by (unfold running; rewrite Hpc; reflexivity).
    apply resume_spec in Hstep.
    destruct Hstep as (j & Hl & _ & Hq' & Hcase).
    pose proof (Inv_running_building s r j HI Hr Hl) as Hb.
    destruct Hcase as [(a & j1 & w1 & Hm & _)
                      |[(a & j1 & w1 & Hm & _)|(e0 & j1 & w1 & Hm & Hh & Hw & Hc & Hp)]];
      try discriminate.
    injection Hm as <- <- <-.
    assert (Hwj : worker_job (SpawnFailed e) s s' r j)
      by (right; repeat split; solve [auto | discriminate | apply Hb]).
    exists r, j, (failed_job e (clock (world s) (ticks (world s))) j), [FAILED].
    destruct Hb as (Hs & Hrest). rewrite Hw, Hs. simpl.
    close_effect.
  - (* Line *)
    right. destruct (wpc s) as [|r st|r st] eqn:Hpc; try discriminate.
    destruct (readable text); [|discriminate].
    assert (Hr : running s = Some r) by (unfold running; rewrite Hpc; reflexivity).
    apply resume_spec in Hstep.
    destruct Hstep as (j & Hl & _ & Hq' & Hcase).
    pose proof (Inv_running_building s r j HI Hr Hl) as Hb.
    destruct Hcase as [(a & j1 & w1 & Hm & _ & Hh & Hw & Hc & Hp)
                      |[(a & j1 & w1 & _ & Hlast & _)|(e0 & j1 & w1 & Hm & _)]];
      try discriminate.
    injection Hm as <- <- <-.
    assert (Hwj : worker_job (Line text) s s' r j)
      by (right; repeat split; solve [auto | discriminate | apply Hb]).
    exists r, j, (append_log text j), []. rewrite Hw, app_nil_r.
    destruct Hb as (Hs & Hrest). rewrite Hs. simpl.
    close_effect.
  - (* ReadFailed *)
    right. destruct (wpc s) as [|r st|r st] eqn:Hpc; try discriminate.
    assert (Hr : running s = Some r) by (unfold running; rewrite Hpc; reflexivity).
    apply resume_spec in Hstep.
    destruct Hstep as (j & Hl & _ & Hq' & Hcase).
    pose proof (Inv_running_building s r j HI Hr Hl) as Hb.
    destruct Hcase as [(a & j1 & w1 & Hm & _)
                      |[(a & j1 & w1 & Hm & _)|(e0 & j1 & w1 & Hm & Hh & Hw & Hc & Hp)]];
      try discriminate.
    injection Hm as <- <- <-.
    assert (Hwj : worker_job (ReadFailed e) s s' r j)
      by (right; repeat split; solve [auto | discriminate | apply Hb]).
    exists r, j, (failed_job e (clock (world s) (ticks (world s))) j), [FAILED].
    destruct Hb as (Hs & Hrest). rewrite Hw, Hs. simpl.
    close_effect.
  - (* Exited *)
    right. destruct (wpc s) as [|r st|r st] eqn:Hpc; try discriminate.
    assert (Hr : running s = Some r) by (unfold running; rewrite Hpc; reflexivity).
    assert (Hev : Exited code <> Get) by discriminate.
    destruct st as [|b]; apply resume_spec in Hstep;
      destruct Hstep as (j & Hl & _ & Hq' & Hcase);
      pose proof (Inv_running_building s r j HI Hr Hl) as Hb;
      assert (Hwj : worker_job (Exited code) s s' r j)
        by (right; repeat split; solve [auto | apply Hb]);
      destruct Hb as (Hs & _ & _ & _ & Hst & _).
    + destruct (build_begin_spec j (world s)) as (b & text & Hbb).
      destruct Hcase as [(a & j1 & w1 & Hm & _ & Hh & Hw & Hc & Hp)
                        |[(a & j1 & w1 & _ & Hlast & _)|(e0 & j1 & w1 & Hm & _)]];
        try discriminate.
      rewrite Hbb in Hm. injection Hm as <- <- <-.
      exists r, j, (append_log text j), []. rewrite Hw, Hs. simpl. rewrite app_nil_r.
      close_effect.
    + destruct Hcase as [(a & j1 & w1 & Hm & Hlast & _)
                        |[(a & j1 & w1 & Hm & _ & Hh & Hw & Hc & Hp)
                         |(e0 & j1 & w1 & Hm & Hh & Hw & Hc & Hp)]];
        try discriminate.
      * destruct (decide (code = 0)) as [->|Hne].
        -- pose proof (run_build_end_zero b j (world s)) as Hz. rewrite Hm in Hz.
           destruct Hz as (jp & wp & Hpo & Hj1 & ->).
           pose proof (calm_package_outputs b (j, world s)) as [_ Hcalm].
           rewrite Hpo in Hcalm. simpl in Hcalm.
           apply forget_fs_fields in Hcalm. destruct Hcalm as (_ & _ & Ha & _).
           apply forget_log_fields in Hj1. destruct Hj1 as (?&?&?&?&Fs&_).
           eexists r, j, _, [COMPLETE]. rewrite Hw, Hs. simpl. rewrite Ha.
           close_effect.
        -- rewrite (run_build_end_nonzero b code j (world s) Hne) in Hm.
           injection Hm as _ <- <-.
           eexists r, j, _, [FAILED]. rewrite Hw, Hs. simpl.
           close_effect.
      * destruct (decide (code = 0)) as [->|Hne].
        -- pose proof (run_build_end_zero b j (world s)) as Hz. rewrite Hm in Hz.
           pose proof (calm_package_outputs b (j, world s)) as [_ Hcalm].
           rewrite Hz in Hcalm. simpl in Hcalm.
           apply forget_fs_fields in Hcalm. destruct Hcalm as (_ & _ & Ha & _).
           eexists r, j, _, [FAILED]. rewrite Hw, Hs. simpl. rewrite Ha.
           close_effect.
        -- rewrite (run_build_end_nonzero b code j (world s) Hne) in Hm. discriminate.
Qed.

(** ** A small server to try things on

    A machine with a live configuration, one staged configuration [h1]
    (a [make.conf] and a [make.profile] link to a profile directory), one
    package already in the cache and no freshness marker. *)

Lemma demo_queued_reachable : reachable demo_queued.
Proof. exists demo_world, [demo_submit "id1"; demo_submit "id2"]. vm_compute. reflexivity. Qed.

Lemma demo_building_reachable : reachable demo_building.
Proof. exists demo_world, [demo_submit "id1"; demo_submit "id2"; Get]. vm_compute. reflexivity. Qed.

Lemma chain_terminal a new : terminal a -> chain a new -> new = [].
Proof.
  intros Ht Hc. destruct new as [|b new]; [reflexivity|].
  destruct Hc as [[[-> _]|[-> _]] _]; destruct Ht; discriminate.
Qed.


(** C2: jobs are started in the order of their submission, one at a time.
    The heap lists the jobs in submission order ([submit] appends).  In a
    reachable server: a job leaves Queued only by the worker taking it from
    the queue, and at that moment every job submitted before it has a
    terminal status and every job submitted after it is still Queued; a
    job that is no longer Queued has only jobs with a terminal status
    before it; and at most one job is Building. *)
Theorem builds_are_fifo_and_serialized (s : Server) :
  reachable s ->
  (forall ev s' r j j',
      step ev s = Some s' -> heap s !! r = Some j -> heap s' !! r = Some j' ->
      status j = QUEUED -> status j' <> QUEUED ->
      ev = Get /\ head (queue s) = Some r
      /\ forall r0 j0, heap s !! r0 = Some j0 ->
           ((r0 < r)%nat -> terminal (status j0)) /\ ((r < r0)%nat -> status j0 = QUEUED))
  /\ (forall r1 r2 j1 j2,
        (r1 < r2)%nat -> heap s !! r1 = Some j1 -> heap s !! r2 = Some j2 ->
        status j2 <> QUEUED -> terminal (status j1))
  /\ (forall r1 r2 j1 j2,
        heap s !! r1 = Some j1 -> heap s !! r2 = Some j2 ->
        status j1 = BUILDING -> status j2 = BUILDING -> r1 = r2).
Proof.
  intros Hreach. pose proof (Inv_reachable s Hreach) as HI.
  split; [|split].
  - intros ev s' r j j' Hstep Hl Hl' Hq Hnq.
    destruct (step_effect ev s s' HI Hstep)
      as [[_ H]|(r' & j0 & j0' & new & Hl0 & Hh & Hwj & _)].
    { apply H in Hl. congruence. }
    destruct (decide (r = r')) as [<-|Hne];
      [|rewrite Hh, list_lookup_insert_ne in Hl' by congruence; congruence].
    assert (j0 = j) as -> by congruence.
    destruct Hwj as [(-> & Hidle & Hqueue & _)|(_ & _ & _ & Hb & _)]; [|congruence].
    split; [reflexivity|]. split; [rewrite Hqueue; reflexivity|].
    destruct (Inv_head_fresh s r _ j HI Hidle Hqueue Hl) as [Hr _].
    intros r0 j1 Hl1.
    destruct (inv_jobs s HI r0 j1 Hl1) as [[Hge Hf]|[[Hrun _]|(Hlt & _ & Hf)]].
    + split; [lia | intros _; apply Hf].
    + unfold running in Hrun. rewrite Hidle in Hrun. discriminate.
    + split; [intros _; apply Hf | lia].
  - intros r1 r2 j1 j2 Hlt Hl1 Hl2 Hnq.
    assert (H2 : (r2 < started s)%nat).
    { destruct (inv_jobs s HI r2 j2 Hl2) as [[_ Hf]|[[Hrun _]|(H & _)]].
      - destruct Hf as [Hf _]. contradiction.
      - pose proof (inv_running s HI r2 Hrun). lia.
      - exact H. }
    destruct (inv_jobs s HI r1 j1 Hl1) as [[Hge _]|[[Hrun _]|(_ & _ & Hf)]].
    + lia.
    + pose proof (inv_running s HI r1 Hrun). lia.
    + apply Hf.
  - intros r1 r2 j1 j2 Hl1 Hl2 Hb1 Hb2.
    assert (Hrun : forall r j, heap s !! r = Some j -> status j = BUILDING -> running s = Some r).
    { intros r j Hl Hb.
      destruct (inv_jobs s HI r j Hl) as [[_ Hf]|[[Hrun _]|(_ & _ & [[Hf|Hf] _])]];
        [destruct Hf | | |]; congruence. }
    pose proof (Hrun r1 j1 Hl1 Hb1). pose proof (Hrun r2 j2 Hl2 Hb2). congruence.
Qed.

Lemma builds_are_fifo_and_serialized_witness :
  terminal (status (demo_first_job demo_second)).
Proof.
  assert (Hreach : reachable demo_second).
  { exists demo_world,
      [demo_submit "id1"; demo_submit "id2"; Get; Spawned; Exited 0; Spawned; Exited 1; Get].
    vm_compute. reflexivity. }
  refine (proj1 (proj2 (builds_are_fifo_and_serialized demo_second Hreach))
            0%nat 1%nat (demo_first_job demo_second)
            (default (demo_first_job demo_second) (heap demo_second !! 1%nat)) _ _ _ _).
  - lia.
  - vm_compute. reflexivity.
  - vm_compute. reflexivity.
  - vm_compute. discriminate.
Defined.

Lemma resume_last_ret {A} r (m : M A) next s j a j1 w1 :
  heap s !! r = Some j -> m (j, world s) = (Ret a, (j1, w1)) ->
  resume r m next true s
  = Some (mkServer (<[r := set_completed_at (Some (clock w1 (ticks w1))) j1]> (heap s))
                   (jobs s) (queue s) None Idle (tick w1)).
Proof.
  intros Hl Hm. unfold resume. rewrite Hl. simpl.
  rewrite (guarded_ret _ _ _ _ Hm). reflexivity.
Qed.

Lemma resume_raise {A} r (m : M A) next last s j e j1 w1 :
  heap s !! r = Some j -> m (j, world s) = (Raise e, (j1, w1)) ->
  resume r m next last s
  = Some (mkServer (<[r := failed_job e (clock w1 (ticks w1)) j1]> (heap s))
                   (jobs s) (queue s) None Idle (tick (with_status FAILED w1))).
Proof.
  intros Hl Hm. unfold resume. rewrite Hl. simpl.
  rewrite (guarded_raise _ _ _ _ Hm). reflexivity.
Qed.

Lemma resume_is_Some {A} r (m : M A) next last s :
  is_Some (heap s !! r) -> is_Some (resume r m next last s).
Proof.
  intros [j Hl]. unfold resume. rewrite Hl. simpl.
  destruct (guarded m (j, world s)) as [[a|] [j' w']]; [destruct last|]; eauto.
Qed.

Lemma Inv_running_lookup s r : Inv s -> running s = Some r -> is_Some (heap s !! r).
Proof.
  intros HI Hr. apply lookup_lt_is_Some.
  pose proof (inv_running s HI r Hr). unfold started in *. lia.
Qed.

Lemma Inv_head_lookup s r q : Inv s -> queue s = r :: q -> is_Some (heap s !! r).
Proof.
  intros HI Hq. apply lookup_lt_is_Some.
  pose proof (inv_queue s HI) as Hs. pose proof (inv_len s HI) as Hlen.
  rewrite Hq in Hs, Hlen. simpl in *. injection Hs as Hr _.
  unfold started in Hr. rewrite Hq in Hr. simpl in Hr. lia.
Qed.

Lemma resume_ret {A} r (m : M A) next s j a j1 w1 :
  heap s !! r = Some j -> m (j, world s) = (Ret a, (j1, w1)) ->
  resume r m next false s
  = Some (mkServer (<[r := j1]> (heap s)) (jobs s) (queue s) (current_job s) (next a) w1).
Proof.
  intros Hl Hm. unfold resume. rewrite Hl. simpl.
  rewrite (guarded_ret _ _ _ _ Hm). reflexivity.
Qed.

(** The worker takes the job at the head of the queue: Building is assigned
    and the start time stamped; the job is then Building and the worker
    waits for its first command, or the code up to there raised and the job
    is Failed. *)
Lemma get_begins s r q :
  Inv s -> wpc s = Idle -> queue s = r :: q ->
  exists s' j j',
    step Get s = Some s' /\ heap s !! r = Some j /\ status j = QUEUED
    /\ heap s' !! r = Some j' /\ queue s' = q
    /\ started_at j' = Some (clock (world s) (ticks (world s)))
    /\ ((status j' = BUILDING /\ running s' = Some r /\ current_job s' = Some r
         /\ completed_at j' = None
         /\ assigned (world s') = assigned (world s) ++ [BUILDING])
        \/ (status j' = FAILED /\ wpc s' = Idle /\ current_job s' = None
            /\ completed_at j' <> None
            /\ assigned (world s') = assigned (world s) ++ [BUILDING; FAILED])).
Proof.
  intros HI Hpc Hq.
  destruct (Inv_head_lookup s r q HI Hq) as [j Hl].
  destruct (Inv_head_fresh s r q j HI Hpc Hq Hl) as [_ Hf].
  assert (Hlt : (r < length (heap s))%nat) by (apply lookup_lt_Some in Hl; exact Hl).
  pose proof (run_build_begin_frame j (world s)) as (Fj & Fa & _).
  set (s0 := mkServer (heap s) (jobs s) q (Some r) Idle (world s)).
  destruct (run_build_begin (j, world s)) as [[a|e] [j1 w1]] eqn:Hm;
    cbn [fst snd] in Fj, Fa;
    apply forget_log_fields in Fj; destruct Fj as (_&_&_&_&Fs&_&_&Fst&Fc&_);
    cbn in Fs, Fst, Fc.
  - exists (mkServer (<[r := j1]> (heap s)) (jobs s) q (Some r) (Spawning r a) w1), j, j1.
    split.
    { unfold step. rewrite Hpc, Hq. exact (resume_ret r _ _ s0 j a j1 w1 Hl Hm). }
    cbn [heap queue wpc current_job world running].
    split; [exact Hl|]. split; [apply Hf|].
    split; [apply list_lookup_insert_eq; exact Hlt|]. split; [reflexivity|].
    split; [exact Fst|]. left.
    destruct Hf as (_&_&_&_&_&Hc). repeat split; try assumption; congruence.
  - exists (mkServer (<[r := failed_job e (clock w1 (ticks w1)) j1]> (heap s)) (jobs s) q
                     None Idle (tick (with_status FAILED w1))), j,
           (failed_job e (clock w1 (ticks w1)) j1).
    split.
    { unfold step. rewrite Hpc, Hq. exact (resume_raise r _ _ _ s0 j e j1 w1 Hl Hm). }
    cbn [heap queue wpc current_job world running].
    split; [exact Hl|]. split; [apply Hf|].
    split; [apply list_lookup_insert_eq; exact Hlt|]. split; [reflexivity|].
    split; [exact Fst|]. right.
    cbn. rewrite Fa, <- app_assoc. repeat split; discriminate.
Qed.

(** The build command has exited: the job ends Complete or Failed, with its
    completion time, and the worker is idle again. *)
Lemma exit_ends s r b code :
  Inv s -> wpc s = Reading r (Build b) ->
  exists s' j',
    step (Exited code) s = Some s' /\ heap s' !! r = Some j'
    /\ terminal (status j') /\ completed_at j' <> None
    /\ (status j' = COMPLETE -> code = 0)
    /\ wpc s' = Idle /\ current_job s' = None /\ queue s' = queue s.
Proof.
  intros HI Hpc.
  assert (Hr : running s = Some r) by (unfold running; rewrite Hpc; reflexivity).
  destruct (Inv_running_lookup s r HI Hr) as [j Hl].
  assert (Hlt : (r < length (heap s))%nat) by (apply lookup_lt_Some in Hl; exact Hl).
  assert (Hsome : is_Some (step (Exited code) s)).
  { unfold step. rewrite Hpc. apply resume_is_Some. eauto. }
  destruct Hsome as [s' Hstep]. pose proof (Inv_step _ _ _ HI Hstep) as HI'.
  pose proof Hstep as Hstep0. unfold step in Hstep. rewrite Hpc in Hstep.
  apply resume_spec in Hstep. destruct Hstep as (j0 & Hl0 & _ & Hq' & Hcase).
  assert (j0 = j) as -> by congruence.
  assert (Hend : exists X, heap s' = <[r := X]> (heap s) /\ current_job s' = None /\ wpc s' = Idle
                           /\ (status X = COMPLETE -> code = 0)).
  { destruct Hcase as [(a & j1 & w1 & Hm & Hlast & _)
                      |[(a & j1 & w1 & Hm & _ & Hh & _ & Hc & Hp)
                       |(e0 & j1 & w1 & Hm & Hh & _ & Hc & Hp)]]; try discriminate.
    - eexists. split; [exact Hh|]. split; [exact Hc|]. split; [exact Hp|].
      destruct (decide (code = 0)) as [->|Hne]; [reflexivity|].
      rewrite (run_build_end_nonzero b code j (world s) Hne) in Hm.
      injection Hm as _ <- _. discriminate.
    - eexists. split; [exact Hh|]. split; [exact Hc|]. split; [exact Hp|]. discriminate. }
  destruct Hend as (X & Hh & Hc & Hp & Hcode).
  assert (Hl' : heap s' !! r = Some X) by (rewrite Hh; apply list_lookup_insert_eq; exact Hlt).
  exists s', X. split; [exact Hstep0|]. split; [exact Hl'|].
  assert (Hfin : finished X).
  { destruct (inv_jobs s' HI' r X Hl') as [[Hge _]|[[Hrun _]|(_ & _ & Hf)]].
    - pose proof (inv_running s HI r Hr) as Hs. unfold started in *.
      rewrite Hh, length_insert, Hq' in Hge. lia.
    - unfold running in Hrun. rewrite Hp in Hrun. discriminate.
    - exact Hf. }
  destruct Hfin as (Ht & _ & Hcompl & _). repeat split; assumption.
Qed.

(** C1: the status of a job goes Queued -> Building -> \{Complete |
    Failed\}.  When the worker takes the job at the head of the queue, the
    job was Queued, Building is assigned to it and its start time is
    stamped with the reading of the clock; after that step the job is
    Building and is the one the worker runs, or the code up to the first
    command raised and Failed was assigned next.  When the build command
    of the running job exits, the job ends with one of Complete and Failed
    (Complete only on exit code 0), with its completion time, and the
    worker is idle.  No step does anything else to a status: the statuses
    [new] that a step assigns go to one job and each follows an arrow from
    the one before; a job leaves Queued only by the worker taking it; a
    job with a terminal status is left exactly as it is by every step; and
    every job is Queued, or Building and the one the worker runs, or has a
    terminal status. *)
Theorem status_follows_life_cycle (s : Server) :
  reachable s ->
  (forall r q,
      wpc s = Idle -> queue s = r :: q ->
      exists s' j j',
        step Get s = Some s' /\ heap s !! r = Some j /\ status j = QUEUED
        /\ heap s' !! r = Some j' /\ queue s' = q
        /\ started_at j' = Some (clock (world s) (ticks (world s)))
        /\ ((status j' = BUILDING /\ running s' = Some r /\ current_job s' = Some r
             /\ completed_at j' = None
             /\ assigned (world s') = assigned (world s) ++ [BUILDING])
            \/ (status j' = FAILED /\ wpc s' = Idle /\ current_job s' = None
                /\ completed_at j' <> None
                /\ assigned (world s') = assigned (world s) ++ [BUILDING; FAILED])))
  /\ (forall r b code,
        wpc s = Reading r (Build b) ->
        exists s' j',
          step (Exited code) s = Some s' /\ heap s' !! r = Some j'
          /\ terminal (status j') /\ completed_at j' <> None
          /\ (status j' = COMPLETE -> code = 0)
          /\ wpc s' = Idle /\ current_job s' = None /\ queue s' = queue s)
  /\ (forall ev s',
        step ev s = Some s' ->
        ((assigned (world s') = assigned (world s)
          /\ forall r j, heap s !! r = Some j -> heap s' !! r = Some j)
         \/ exists r j j' new,
              heap s !! r = Some j /\ heap s' = <[r := j']> (heap s)
              /\ assigned (world s') = assigned (world s) ++ new
              /\ chain (status j) new
              /\ status j' = List.last new (status j)
              /\ (status j = QUEUED ->
                  ev = Get /\ head new = Some BUILDING
                  /\ started_at j' = Some (clock (world s) (ticks (world s)))))
        /\ (forall r j, heap s !! r = Some j -> terminal (status j) -> heap s' !! r = Some j)
        /\ (forall r j, heap s' !! r = Some j ->
              status j = QUEUED
              \/ (status j = BUILDING /\ running s' = Some r /\ started_at j <> None)
              \/ terminal (status j))).
Proof.
  intros Hreach. pose proof (Inv_reachable s Hreach) as HI.
  split; [intros r q; apply get_begins; exact HI|].
  split; [intros r b code; apply exit_ends; exact HI|].
  intros ev s' Hstep.
  pose proof (Inv_step ev s s' HI Hstep) as HI'.
  pose proof (step_effect ev s s' HI Hstep) as Heff.
  split; [|split].
  - destruct Heff as [H|(r & j & j' & new & Hl & Hh & Hwj & Ha & Hc & Hs & Hq)]; [left; exact H|].
    right. exists r, j, j', new. repeat split; try assumption.
    + destruct Hwj as [(-> & _)|(_ & _ & _ & Hb & _)]; [reflexivity|congruence].
    + destruct (Hq H) as [_ Hne]. destruct new as [|b new]; [contradiction|].
      destruct Hc as [[[_ ->]|[Hb _]] _]; [reflexivity|congruence].
    + apply Hq. exact H.
  - intros r0 j0 Hl0 Ht.
    destruct Heff as [[_ H]|(r & j & j' & new & Hl & Hh & Hwj & _)]; [auto|].
    destruct (decide (r0 = r)) as [->|Hne].
    + assert (j0 = j) as -> by congruence.
      destruct Ht as [Ht|Ht];
        destruct Hwj as [(_ & _ & _ & Hf & _)|(_ & _ & _ & Hb & _)]; congruence.
    + rewrite Hh, list_lookup_insert_ne by congruence. exact Hl0.
  - intros r j Hl.
    destruct (inv_jobs s' HI' r j Hl) as [[_ Hf]|[[Hr Hb]|(_ & _ & Hf)]].
    + left. apply Hf.
    + right; left. split; [apply Hb|]. split; [exact Hr | apply Hb].
    + right; right. apply Hf.
Qed.

Lemma status_follows_life_cycle_witness :
  exists s' j j',
    step Get demo_queued = Some s' /\ heap demo_queued !! 0%nat = Some j /\ status j = QUEUED
    /\ heap s' !! 0%nat = Some j' /\ queue s' = [1%nat]
    /\ started_at j' = Some (clock (world demo_queued) (ticks (world demo_queued)))
    /\ ((status j' = BUILDING /\ running s' = Some 0%nat /\ current_job s' = Some 0%nat
         /\ completed_at j' = None
         /\ assigned (world s') = assigned (world demo_queued) ++ [BUILDING])
        \/ (status j' = FAILED /\ wpc s' = Idle /\ current_job s' = None
            /\ completed_at j' <> None
            /\ assigned (world s') = assigned (world demo_queued) ++ [BUILDING; FAILED])).
Proof.
  refine (proj1 (status_follows_life_cycle demo_queued demo_queued_reachable) 0%nat [1%nat] _ _).
  - vm_compute. reflexivity.
  - vm_compute. reflexivity.
Defined.


(** C3: when the build command exits with a nonzero code, the job ends
    Failed, its error names the code, nothing is packaged (the file system
    is left as it is, no artifact location is recorded) and the list of
    built packages is empty. *)
Theorem nonzero_exit_fails_job (s : Server) (r : nat) (b : gset path) (code : Z) :
  reachable s -> wpc s = Reading r (Build b) -> code <> 0 ->
  exists s' j',
    step (Exited code) s = Some s' /\ heap s' !! r = Some j'
    /\ status j' = FAILED
    /\ error j' = Some (lit "emerge failed with exit code " ++ str_of_Z code)
    /\ packages_built j' = [] /\ artifact_path j' = None
    /\ fs (world s') = fs (world s)
    /\ spawned (world s') = spawned (world s)
    /\ completed_at j' <> None
    /\ wpc s' = Idle /\ current_job s' = None.
Proof.
  intros Hreach Hpc Hcode. pose proof (Inv_reachable s Hreach) as HI.
  assert (Hr : running s = Some r) by (unfold running; rewrite Hpc; reflexivity).
  destruct (Inv_running_lookup s r HI Hr) as [j Hl].
  pose proof (Inv_running_building s r j HI Hr Hl) as (_ & Hpb & Hart & _).
  eexists. eexists. split.
  { unfold step. rewrite Hpc.
    eapply resume_last_ret; [exact Hl | apply run_build_end_nonzero; exact Hcode]. }
  simpl. split.
  { apply list_lookup_insert_eq. apply lookup_lt_Some in Hl. exact Hl. }
  repeat split; auto; discriminate.
Qed.

(** C7: an exception raised while a job runs (by the code up to the first
    command, by the start of a command, by the reading of its output, or by
    the code that follows the build command) ends in the worker's handler:
    the job is marked Failed with [str(e)] as its error and the completion
    time is stamped; the worker is back at the head of its loop with
    [current_job] cleared, the rest of the queue untouched, and takes the
    next job when there is one.  Whatever the outcome, a job with a
    terminal status has its completion time. *)
Theorem exceptions_end_in_failed_job (s : Server) (ev : event) (e : exn) :
  reachable s -> raises ev s e ->
  (exists s' r j',
      step ev s = Some s'
      /\ (head (queue s) = Some r /\ queue s' = tail (queue s)
          \/ running s = Some r /\ queue s' = queue s)
      /\ heap s' !! r = Some j'
      /\ status j' = FAILED /\ error j' = Some (str_exn e)
      /\ (exists w, completed_at j' = Some (clock w (ticks w)))
      /\ current_job s' = None /\ wpc s' = Idle
      /\ (queue s' <> [] -> is_Some (step Get s')))
  /\ (forall r j, heap s !! r = Some j -> terminal (status j) -> completed_at j <> None).
Proof.
  intros Hreach Hraise. pose proof (Inv_reachable s Hreach) as HI.
  split.
  2:{ intros r j Hl Ht.
      destruct (inv_jobs s HI r j Hl) as [[_ Hf]|[[_ Hb]|(_ & _ & Hf)]].
      - destruct Hf as (Hs & _). destruct Ht; congruence.
      - destruct Hb as (Hs & _). destruct Ht; congruence.
      - apply Hf. }
  destruct Hraise as [s r q j e [j1 w1] Hpc Hq Hl Hm|s r stg e Hpc|s r stg e Hpc
                     |s r b code j e [j1 w1] Hpc Hl Hm].
  - (* Get *)
    set (s0 := mkServer (heap s) (jobs s) q (Some r) Idle (world s)).
    assert (Hstep : step Get s = Some (mkServer (<[r := failed_job e (clock w1 (ticks w1)) j1]> (heap s))
                           (jobs s) q None Idle (tick (with_status FAILED w1)))).
    { unfold step. rewrite Hpc, Hq. apply (resume_raise r _ _ _ s0 j e j1 w1 Hl Hm). }
    pose proof (Inv_step _ _ _ HI Hstep) as HI'.
    eexists. exists r. eexists. split; [exact Hstep|].
    split; [left; rewrite Hq; split; reflexivity|].
    split; [simpl; apply list_lookup_insert_eq; apply lookup_lt_Some in Hl; exact Hl|].
    simpl. repeat split; eauto.
    intros Hne. unfold step. simpl. destruct q as [|r' q']; [contradiction|].
    apply resume_is_Some. simpl. eapply (Inv_head_lookup _ r' q' HI'). reflexivity.
  - (* SpawnFailed *)
    assert (Hr : running s = Some r) by (unfold running; rewrite Hpc; reflexivity).
    destruct (Inv_running_lookup s r HI Hr) as [j Hl].
    assert (Hstep : step (SpawnFailed e) s
                    = Some (mkServer (<[r := failed_job e (clock (world s) (ticks (world s))) j]> (heap s))
                           (jobs s) (queue s) None Idle (tick (with_status FAILED (world s))))).
    { unfold step. rewrite Hpc. apply (resume_raise r _ _ _ s j e j (world s) Hl). reflexivity. }
    pose proof (Inv_step _ _ _ HI Hstep) as HI'.
    eexists. exists r. eexists. split; [exact Hstep|].
    split; [right; split; [exact Hr | reflexivity]|].
    split; [simpl; apply list_lookup_insert_eq; apply lookup_lt_Some in Hl; exact Hl|].
    simpl. repeat split; eauto.
    intros Hne. unfold step. simpl. destruct (queue s) as [|r' q'] eqn:Hq; [contradiction|].
    apply resume_is_Some. simpl. eapply (Inv_head_lookup _ r' q' HI'). reflexivity.
  - (* ReadFailed *)
    assert (Hr : running s = Some r) by (unfold running; rewrite Hpc; reflexivity).
    destruct (Inv_running_lookup s r HI Hr) as [j Hl].
    assert (Hstep : step (ReadFailed e) s
                    = Some (mkServer (<[r := failed_job e (clock (world s) (ticks (world s))) j]> (heap s))
                           (jobs s) (queue s) None Idle (tick (with_status FAILED (world s))))).
    { unfold step. rewrite Hpc. apply (resume_raise r _ _ _ s j e j (world s) Hl). reflexivity. }
    pose proof (Inv_step _ _ _ HI Hstep) as HI'.
    eexists. exists r. eexists. split; [exact Hstep|].
    split; [right; split; [exact Hr | reflexivity]|].
    split; [simpl; apply list_lookup_insert_eq; apply lookup_lt_Some in Hl; exact Hl|].
    simpl. repeat split; eauto.
    intros Hne. unfold step. simpl. destruct (queue s) as [|r' q'] eqn:Hq; [contradiction|].
    apply resume_is_Some. simpl. eapply (Inv_head_lookup _ r' q' HI'). reflexivity.
  - (* Exited *)
    assert (Hr : running s = Some r) by (unfold running; rewrite Hpc; reflexivity).
    assert (Hstep : step (Exited code) s
                    = Some (mkServer (<[r := failed_job e (clock w1 (ticks w1)) j1]> (heap s))
                           (jobs s) (queue s) None Idle (tick (with_status FAILED w1)))).
    { unfold step. rewrite Hpc. apply (resume_raise r _ _ _ s j e j1 w1 Hl Hm). }
    pose proof (Inv_step _ _ _ HI Hstep) as HI'.
    eexists. exists r. eexists. split; [exact Hstep|].
    split; [right; split; [exact Hr | reflexivity]|].
    split; [simpl; apply list_lookup_insert_eq; apply lookup_lt_Some in Hl; exact Hl|].
    simpl. repeat split; eauto.
    intros Hne. unfold step. simpl. destruct (queue s) as [|r' q'] eqn:Hq; [contradiction|].
    apply resume_is_Some. simpl. eapply (Inv_head_lookup _ r' q' HI'). reflexivity.
Qed.

Lemma demo_reading_reachable : reachable demo_reading.
Proof.
  exists demo_world, [demo_submit "id1"; demo_submit "id2"; Get; Spawned; Exited 0; Spawned].
  vm_compute. reflexivity.
Qed.

Lemma nonzero_exit_fails_job_witness :
  exists s' j',
    step (Exited 1) demo_reading = Some s' /\ heap s' !! 0%nat = Some j'
    /\ status j' = FAILED
    /\ error j' = Some (lit "emerge failed with exit code " ++ str_of_Z 1)
    /\ packages_built j' = [] /\ artifact_path j' = None
    /\ fs (world s') = fs (world demo_reading)
    /\ spawned (world s') = spawned (world demo_reading)
    /\ completed_at j' <> None
    /\ wpc s' = Idle /\ current_job s' = None.
Proof.
  apply (nonzero_exit_fails_job demo_reading 0%nat demo_before 1 demo_reading_reachable).
  - vm_compute. reflexivity.
  - lia.
Defined.

Lemma exceptions_end_in_failed_job_witness :
  exists s' r j',
    step (SpawnFailed (Exn (lit "[Errno 2] No such file or directory: 'emerge'"))) demo_building = Some s'
    /\ (head (queue demo_building) = Some r /\ queue s' = tail (queue demo_building)
        \/ running demo_building = Some r /\ queue s' = queue demo_building)
    /\ heap s' !! r = Some j'
    /\ status j' = FAILED
    /\ error j' = Some (str_exn (Exn (lit "[Errno 2] No such file or directory: 'emerge'")))
    /\ (exists w, completed_at j' = Some (clock w (ticks w)))
    /\ current_job s' = None /\ wpc s' = Idle
    /\ (queue s' <> [] -> is_Some (step Get s')).
Proof.
  refine (proj1 (exceptions_end_in_failed_job demo_building _ _ demo_building_reachable _)).
  apply (raises_spawn demo_building 0%nat Sync). vm_compute. reflexivity.
Defined.

(** ** Starting commands *)

Lemma run_build_begin_staged j w :
  run_build_begin (j, w)
  = match stage_config (j, w) with
    | (Ret _, s1) => sync_or_build s1
    | (Raise e, s1) => (Raise e, s1)
    end.
Proof.
  unfold run_build_begin, stage_config, bind.
  destruct (build_header (j, w)) as [[[]|e] s0]; [|reflexivity].
  destruct (_apply_config s0) as [[[]|e] s1]; reflexivity.
Qed.

Lemma stage_config_spawned j w :
  spawned (stage_config (j, w)).2.2 = spawned w
  /\ forget_log (stage_config (j, w)).2.1
     = forget_log (set_started_at (Some (clock w (ticks w))) (set_status BUILDING j)).
Proof.
  unfold stage_config, bind.
  destruct (build_header_spec j w) as (j0 & -> & Hj0).
  destruct (quiet_apply_config (j0, tick (with_status BUILDING w))) as [Hj Hw].
  apply forget_fs_fields in Hw. destruct Hw as (_ & Hs & _).
  destruct (_apply_config (j0, tick (with_status BUILDING w))) as [[[]|e] s1];
    simpl in *; split; congruence.
Qed.

(** The first step of a build whose configuration was staged. *)
Lemma get_after_staging s r q j j1 w1 :
  wpc s = Idle -> queue s = r :: q -> heap s !! r = Some j ->
  stage_config (j, world s) = (Ret tt, (j1, w1)) ->
  exists s' j',
    step Get s = Some s' /\ heap s' !! r = Some j'
    /\ ((exists m, stat (fs w1) timestamp_file = Some m
                       /\ float_ltb (tree_age w1 m) (float_of_Z 604800) = true
                   /\ spawned (world s') = spawned (world s) ++ [emerge_cmd j]
                   /\ (exists b, wpc s' = Spawning r (Build b))
                   /\ exists rest, log j' = log j1 ++ skip_line (tree_age w1 m) ++ rest)
        \/ ((stat (fs w1) timestamp_file = None
             \/ exists m, stat (fs w1) timestamp_file = Some m /\ float_ltb (tree_age w1 m) (float_of_Z 604800) = false)
            /\ spawned (world s') = spawned (world s) ++ [sync_cmd]
            /\ wpc s' = Spawning r Sync)).
Proof.
  intros Hpc Hq Hl Hst.
  pose proof (stage_config_spawned j (world s)) as [Hsp Hfj]. rewrite Hst in Hsp, Hfj.
  simpl in Hsp, Hfj. apply forget_log_fields in Hfj. destruct Hfj as (Hpk & _).
  simpl in Hpk.
  assert (Hec : emerge_cmd j1 = emerge_cmd j) by (unfold emerge_cmd; rewrite Hpk; reflexivity).
  pose proof (run_build_begin_staged j (world s)) as Hrb. rewrite Hst in Hrb.
  assert (Hlt : (r < length (heap s))%nat) by (apply lookup_lt_Some in Hl; exact Hl).
  assert (Hgo : forall st j' w',
             run_build_begin (j, world s) = (Ret st, (j', w')) ->
             step Get s = Some (mkServer (<[r := j']> (heap s)) (jobs s) q (Some r)
                                         (Spawning r st) w')).
  { intros st j' w' H. unfold step. rewrite Hpc, Hq. unfold resume. simpl.
    rewrite Hl. simpl. rewrite (guarded_ret _ _ _ _ H). reflexivity. }
  destruct (stat (fs w1) timestamp_file) as [m|] eqn:Hm.
  - destruct (float_ltb (tree_age w1 m) (float_of_Z 604800)) eqn:Hage.
    + destruct (sync_or_build_skip j1 w1 m Hm Hage) as (b & text & Hsb).
      rewrite Hsb in Hrb. eexists. eexists. split; [apply Hgo; exact Hrb|]. simpl.
      split; [apply list_lookup_insert_eq; exact Hlt|].
      left. exists m. repeat split; eauto; congruence.
    + rewrite (sync_or_build_stale j1 w1 m Hm Hage) in Hrb.
      eexists. eexists. split; [apply Hgo; exact Hrb|]. simpl.
      split; [apply list_lookup_insert_eq; exact Hlt|].
      right. repeat split; eauto; congruence.
  - rewrite (sync_or_build_absent j1 w1 Hm) in Hrb.
    eexists. eexists. split; [apply Hgo; exact Hrb|]. simpl.
    split; [apply list_lookup_insert_eq; exact Hlt|].
    right. repeat split; eauto; congruence.
Qed.

Lemma step_in_sync ev s s' r :
  Inv s -> in_sync (wpc s) r -> step ev s = Some s' ->
  (spawned (world s') = spawned (world s) /\ (in_sync (wpc s') r \/ wpc s' = Idle))
  \/ (exists j, heap s !! r = Some j
                /\ spawned (world s') = spawned (world s) ++ [emerge_cmd j]
                /\ in_build (wpc s') r).
Proof.
  intros HI Hin Hstep. unfold step in Hstep.
  destruct ev as [pkgs hash uuid|f| | |e|text|e|code].
  - left. destruct (path_exists _ _); [|destruct (wpc s); discriminate].
    assert (s' = submit (new_job pkgs hash (path_join CONFIG_CACHE hash) uuid) s)
      as -> by (destruct (wpc s); congruence).
    simpl. auto.
  - left. assert (s' = mkServer (heap s) (jobs s) (queue s) (current_job s) (wpc s)
                                (set_fs f (world s))) as -> by (destruct (wpc s); congruence).
    simpl. auto.
  - destruct Hin as [Hin|Hin]; rewrite Hin in Hstep; discriminate.
  - left. destruct Hin as [Hin|Hin]; rewrite Hin in Hstep; [|discriminate].
    injection Hstep as <-. simpl. split; [reflexivity|]. left. right. reflexivity.
  - left. destruct Hin as [Hin|Hin]; rewrite Hin in Hstep; [|discriminate].
    apply resume_spec in Hstep. destruct Hstep as (j & Hl & _ & _ & Hcase).
    destruct Hcase as [(a & j1 & w1 & Hm & _)
                      |[(a & j1 & w1 & Hm & _)|(e0 & j1 & w1 & Hm & _ & Hw & _ & Hp)]];
      try discriminate.
    injection Hm as <- <- <-. rewrite Hw. simpl. auto.
  - left. destruct Hin as [Hin|Hin]; rewrite Hin in Hstep; [discriminate|].
    destruct (readable text); [|discriminate].
    apply resume_spec in Hstep. destruct Hstep as (j & Hl & _ & _ & Hcase).
    destruct Hcase as [(a & j1 & w1 & Hm & _ & _ & Hw & _ & Hp)
                      |[(a & j1 & w1 & _ & Hlast & _)|(e0 & j1 & w1 & Hm & _)]];
      try discriminate.
    injection Hm as <- <- <-. rewrite Hw, Hp. split; [reflexivity|]. left. right. reflexivity.
  - left. destruct Hin as [Hin|Hin]; rewrite Hin in Hstep; [discriminate|].
    apply resume_spec in Hstep. destruct Hstep as (j & Hl & _ & _ & Hcase).
    destruct Hcase as [(a & j1 & w1 & Hm & _)
                      |[(a & j1 & w1 & Hm & _)|(e0 & j1 & w1 & Hm & _ & Hw & _ & Hp)]];
      try discriminate.
    injection Hm as <- <- <-. rewrite Hw. simpl. auto.
  - right. destruct Hin as [Hin|Hin]; rewrite Hin in Hstep; [discriminate|].
    apply resume_spec in Hstep. destruct Hstep as (j & Hl & _ & _ & Hcase).
    destruct (build_begin_spec j (world s)) as (b & text & Hbb).
    destruct Hcase as [(a & j1 & w1 & Hm & _ & _ & Hw & _ & Hp)
                      |[(a & j1 & w1 & _ & Hlast & _)|(e0 & j1 & w1 & Hm & _)]];
      try discriminate.
    rewrite Hbb in Hm. injection Hm as <- <- <-.
    exists j. rewrite Hw, Hp. simpl. repeat split; auto. exists b. left. reflexivity.
Qed.

Lemma step_in_build ev s s' r :
  Inv s -> in_build (wpc s) r -> step ev s = Some s' ->
  spawned (world s') = spawned (world s) /\ (in_build (wpc s') r \/ wpc s' = Idle).
Proof.
  intros HI [b Hin] Hstep. unfold step in Hstep.
  destruct ev as [pkgs hash uuid|f| | |e|text|e|code].
  - destruct (path_exists _ _); [|destruct (wpc s); discriminate].
    assert (s' = submit (new_job pkgs hash (path_join CONFIG_CACHE hash) uuid) s)
      as -> by (destruct (wpc s); congruence).
    simpl. split; [reflexivity|]. left. exists b. exact Hin.
  - assert (s' = mkServer (heap s) (jobs s) (queue s) (current_job s) (wpc s)
                          (set_fs f (world s))) as -> by (destruct (wpc s); congruence).
    simpl. split; [reflexivity|]. left. exists b. exact Hin.
  - destruct Hin as [Hin|Hin]; rewrite Hin in Hstep; discriminate.
  - destruct Hin as [Hin|Hin]; rewrite Hin in Hstep; [|discriminate].
    injection Hstep as <-. simpl. split; [reflexivity|]. left. exists b. right. reflexivity.
  - destruct Hin as [Hin|Hin]; rewrite Hin in Hstep; [|discriminate].
    apply resume_spec in Hstep. destruct Hstep as (j & Hl & _ & _ & Hcase).
    destruct Hcase as [(a & j1 & w1 & Hm & _)
                      |[(a & j1 & w1 & Hm & _)|(e0 & j1 & w1 & Hm & _ & Hw & _ & Hp)]];
      try discriminate.
    injection Hm as <- <- <-. rewrite Hw. simpl. auto.
  - destruct Hin as [Hin|Hin]; rewrite Hin in Hstep; [discriminate|].
    destruct (readable text); [|discriminate].
    apply resume_spec in Hstep. destruct Hstep as (j & Hl & _ & _ & Hcase).
    destruct Hcase as [(a & j1 & w1 & Hm & _ & _ & Hw & _ & Hp)
                      |[(a & j1 & w1 & _ & Hlast & _)|(e0 & j1 & w1 & Hm & _)]];
      try discriminate.
    injection Hm as <- <- <-. rewrite Hw, Hp. split; [reflexivity|].
    left. exists b. right. reflexivity.
  - destruct Hin as [Hin|Hin]; rewrite Hin in Hstep; [discriminate|].
    apply resume_spec in Hstep. destruct Hstep as (j & Hl & _ & _ & Hcase).
    destruct Hcase as [(a & j1 & w1 & Hm & _)
                      |[(a & j1 & w1 & Hm & _)|(e0 & j1 & w1 & Hm & _ & Hw & _ & Hp)]];
      try discriminate.
    injection Hm as <- <- <-. rewrite Hw. simpl. auto.
  - destruct Hin as [Hin|Hin]; rewrite Hin in Hstep; [discriminate|].
    apply resume_spec in Hstep. destruct Hstep as (j & Hl & _ & _ & Hcase).
    assert (Hsp : spawned (run_build_end b code (j, world s)).2.2 = spawned (world s)).
    { destruct (decide (code = 0)) as [->|Hne].
      - pose proof (run_build_end_zero b j (world s)) as Hz.
        pose proof (calm_package_outputs b (j, world s)) as [_ Hcalm].
        apply forget_fs_fields in Hcalm. destruct Hcalm as (_ & Hs & _).
        destruct (run_build_end b 0 (j, world s)) as [[[]|e] [j1 w1]].
        + destruct Hz as (jp & wp & Hpo & _ & ->). rewrite Hpo in Hs. exact Hs.
        + rewrite Hz in Hs. exact Hs.
      - rewrite (run_build_end_nonzero b code j (world s) Hne). reflexivity. }
    destruct Hcase as [(a & j1 & w1 & Hm & Hlast & _)
                      |[(a & j1 & w1 & Hm & _ & _ & Hw & _ & Hp)
                       |(e0 & j1 & w1 & Hm & _ & Hw & _ & Hp)]];
      try discriminate; rewrite Hm in Hsp; rewrite Hw; simpl in *; auto.
Qed.

Lemma get_staging_fails s r q j e st :
  wpc s = Idle -> queue s = r :: q -> heap s !! r = Some j ->
  stage_config (j, world s) = (Raise e, st) ->
  exists s', step Get s = Some s' /\ spawned (world s') = spawned (world s) /\ wpc s' = Idle.
Proof.
  intros Hpc Hq Hl Hst.
  pose proof (stage_config_spawned j (world s)) as [Hsp _]. rewrite Hst in Hsp.
  pose proof (run_build_begin_staged j (world s)) as Hrb. rewrite Hst in Hrb.
  destruct st as [j1 w1]. eexists. split.
  - unfold step. rewrite Hpc, Hq.
    apply (resume_raise r _ _ _ (mkServer (heap s) (jobs s) q (Some r) Idle (world s))
                        j e j1 w1 Hl Hrb).
  - simpl. split; [exact Hsp | reflexivity].
Qed.

(** The age is logged in hours, as Python formats the double [tree_age / 3600]
    to one decimal: the nearest, ties to even, of the binary value.  540 s
    are just below 0.15 h and 900 s exactly 0.25 h; a marker stamped 90 s in
    the future is -0.025 h old. *)
Lemma skip_line_formats_the_double :
  skip_line (float_of_Z 540) = lit "=== Skipping sync (tree is 0.1h old) ===" ++ nl
  /\ skip_line (float_of_Z 900) = lit "=== Skipping sync (tree is 0.2h old) ===" ++ nl
  /\ skip_line (float_sub (float_of_Z 1700000000) (float_of_Z 1700000090))
     = lit "=== Skipping sync (tree is -0.0h old) ===" ++ nl.
Proof. repeat split; vm_compute; reflexivity. Qed.

(** C6, as stated, fails: with no marker, a job whose staging raises (here
    the backup copy meets a dangling link) is over, Failed, without the
    sync command having been started. *)
Lemma sync_not_started_when_staging_fails :
  stat (fs (world unsynced_queued)) timestamp_file = None
  /\ exists s' j', step Get unsynced_queued = Some s'
                   /\ heap s' !! 0%nat = Some j' /\ status j' = FAILED
                   /\ wpc s' = Idle /\ spawned (world s') = [].
Proof.
  split; [vm_compute; reflexivity|].
  eexists. eexists. split; [vm_compute; reflexivity|].
  split; [vm_compute; reflexivity|]. repeat split.
Qed.

(** C6 (amended): for a job whose configuration was staged, a marker
    younger than 604800 s means that the sync command is not started (the
    build command is started next) and the skip is logged with the measured
    age (the double [now - st_mtime], printed in hours to one decimal); an
    absent marker, or one that is not younger, means that the sync command
    is started, first.  While the worker waits for the sync, the
    only command started is the build command, once, when the sync has
    exited; from then on no command is started for the job.  A job whose
    staging raises starts no command. *)
Theorem tree_refresh_policy (s : Server) :
  reachable s ->
  (forall r q j j1 w1,
      wpc s = Idle -> queue s = r :: q -> heap s !! r = Some j ->
      stage_config (j, world s) = (Ret tt, (j1, w1)) ->
      exists s' j',
        step Get s = Some s' /\ heap s' !! r = Some j'
        /\ ((exists m, stat (fs w1) timestamp_file = Some m
                       /\ float_ltb (tree_age w1 m) (float_of_Z 604800) = true
                       /\ spawned (world s') = spawned (world s) ++ [emerge_cmd j]
                       /\ (exists b, wpc s' = Spawning r (Build b))
                       /\ exists rest, log j' = log j1 ++ skip_line (tree_age w1 m) ++ rest)
            \/ ((stat (fs w1) timestamp_file = None
                 \/ exists m, stat (fs w1) timestamp_file = Some m
                              /\ float_ltb (tree_age w1 m) (float_of_Z 604800) = false)
                /\ spawned (world s') = spawned (world s) ++ [sync_cmd]
                /\ wpc s' = Spawning r Sync)))
  /\ (forall r q j e st,
        wpc s = Idle -> queue s = r :: q -> heap s !! r = Some j ->
        stage_config (j, world s) = (Raise e, st) ->
        exists s', step Get s = Some s' /\ spawned (world s') = spawned (world s)
                   /\ wpc s' = Idle)
  /\ (forall ev s' r,
        in_sync (wpc s) r -> step ev s = Some s' ->
        (spawned (world s') = spawned (world s) /\ (in_sync (wpc s') r \/ wpc s' = Idle))
        \/ (exists j, heap s !! r = Some j
                      /\ spawned (world s') = spawned (world s) ++ [emerge_cmd j]
                      /\ in_build (wpc s') r))
  /\ (forall ev s' r,
        in_build (wpc s) r -> step ev s = Some s' ->
        spawned (world s') = spawned (world s) /\ (in_build (wpc s') r \/ wpc s' = Idle)).
Proof.
  intros Hreach. pose proof (Inv_reachable s Hreach) as HI.
  split; [|split; [|split]].
  - intros r q j j1 w1. apply get_after_staging.
  - intros r q j e st. apply get_staging_fails.
  - intros ev s' r Hin Hstep. eapply step_in_sync; eassumption.
  - intros ev s' r Hin Hstep. eapply step_in_build; eassumption.
Qed.

Lemma tree_refresh_policy_witness :
  (spawned (world demo_synced) = spawned (world demo_syncing)
   /\ (in_sync (wpc demo_synced) 0%nat \/ wpc demo_synced = Idle))
  \/ (exists j, heap demo_syncing !! 0%nat = Some j
                /\ spawned (world demo_synced) = spawned (world demo_syncing) ++ [emerge_cmd j]
                /\ in_build (wpc demo_synced) 0%nat).
Proof.
  assert (Hreach : reachable demo_syncing).
  { exists demo_world, [demo_submit "id1"; demo_submit "id2"; Get; Spawned].
    vm_compute. reflexivity. }
  refine (proj1 (proj2 (proj2 (tree_refresh_policy demo_syncing Hreach)))
            (Exited 0) demo_synced 0%nat _ _).
  - right. vm_compute. reflexivity.
  - vm_compute. reflexivity.
Defined.

(** ** The build command line *)

(** C9, as stated, fails: the command line built for a job asking for
    [foo] and [bar] carries no keep-going option. *)
Lemma build_command_has_no_keep_going :
  existsb keep_going_option
          (emerge_cmd (new_job [lit "foo"; lit "bar"] (lit "h1") (CONFIG_CACHE ++ [lit "h1"]) (lit "id1")))
  = false.
Proof. vm_compute. reflexivity. Qed.

(** C9 (amended): the build command is started as [emerge] with the options
    [--buildpkg --verbose --with-bdeps=y], the parallelism settings
    [--jobs=4 --load-average=8] and [--ask=n], followed by the whole list of
    requested packages, each passed as it was given.  None of the options
    the code adds is a keep-going option: the command line carries one
    exactly when one of the requested package strings is one. *)
Theorem build_command_line (j : BuildJob) (w : World) :
  (exists b text,
      build_begin (j, w)
      = (Ret (Build b),
         (append_log text j, with_spawn (lit "emerge" :: build_options ++ packages j) w)))
  /\ spawned (with_spawn (lit "emerge" :: build_options ++ packages j) w)
     = spawned w ++ [lit "emerge" :: build_options ++ packages j]
  /\ existsb keep_going_option build_options = false
  /\ existsb keep_going_option (lit "emerge" :: build_options ++ packages j)
     = existsb keep_going_option (packages j)
  /\ (In (lit "--jobs=4") build_options /\ In (lit "--load-average=8") build_options
      /\ In (lit "--ask=n") build_options).
Proof.
  split; [exact (build_begin_spec j w)|].
  split; [reflexivity|].
  split; [vm_compute; reflexivity|].
  split.
  - change (lit "emerge" :: build_options ++ packages j)
      with ((lit "emerge" :: build_options) ++ packages j).
    rewrite existsb_app.
    replace (existsb keep_going_option (lit "emerge" :: build_options)) with false
      by (vm_compute; reflexivity).
    reflexivity.
  - unfold build_options. simpl. tauto.
Qed.

(** ** Staging a configuration *)

(** C8: the staged configuration [h1] has no [etc/portage] below it, so its
    entries are merged one by one.  Its entry [make.profile] is a symbolic
    link to a directory that exists on the machine; [item.is_dir()] is
    asked first and follows the link, so the live configuration gets a copy
    of the directory in place of the link.  (The backup is made and the
    regular file is copied with its metadata, as the claim says.) *)
Theorem linked_directory_is_copied_not_linked :
  path_exists demo_fs (config_path demo_job ++ [lit "etc"; lit "portage"]) = false
  /\ lstat demo_fs (config_path demo_job ++ [lit "make.profile"])
     = Some (Link (lit "/var/db/profiles/p1"))
  /\ exists j' w',
       _apply_config (demo_job, demo_world) = (Ret tt, (j', w'))
       /\ lstat (fs w') (portage_dir ++ [lit "make.profile"])
          = Some (Dir [(lit "eapi", File (lit "8") 420)])
       /\ lstat (fs w') (portage_dir ++ [lit "make.conf"]) = Some (File (lit "USE=-X") 420)
       /\ lstat (fs w') (backup_dir demo_job)
          = Some (Dir [(lit "make.conf", File (lit "USE=X") 420)]).
Proof.
  split; [vm_compute; reflexivity|]. split; [vm_compute; reflexivity|].
  eexists. eexists. split; [vm_compute; reflexivity|].
  repeat split; vm_compute; reflexivity.
Qed.

(** ** The outputs recorded on a job *)

Lemma insert_lookup_cases (l : list BuildJob) r0 X r j j' :
  l !! r = Some j -> <[r0 := X]> l !! r = Some j' -> (r = r0 /\ j' = X) \/ j' = j.
Proof.
  intros Hl Hl'. destruct (decide (r = r0)) as [->|Hne].
  - left. split; [reflexivity|].
    rewrite list_lookup_insert_eq in Hl' by (apply lookup_lt_Some in Hl; exact Hl). congruence.
  - right. rewrite list_lookup_insert_ne in Hl' by congruence. congruence.
Qed.

Ltac same_outputs Hl Hl' Hh :=
  rewrite Hh in Hl';
  let H := fresh in
  destruct (insert_lookup_cases _ _ _ _ _ _ Hl Hl') as [[-> ->] | ->];
  [|left; split; reflexivity].

(** A step changes the list of built packages or the artifact location of
    a job only when it is the step that follows a build command exiting
    with code 0, for the job that ran it. *)
Lemma step_outputs ev s s' r j j' :
  Inv s -> step ev s = Some s' -> heap s !! r = Some j -> heap s' !! r = Some j' ->
  (packages_built j' = packages_built j /\ artifact_path j' = artifact_path j)
  \/ (exists b, ev = Exited 0 /\ wpc s = Reading r (Build b)
                /\ (status j' = COMPLETE
                    \/ (status j' = FAILED
                        /\ exists e, raises (Exited 0) s e /\ error j' = Some (str_exn e)))).
Proof.
  intros HI Hstep Hl Hl'.
  destruct (step_effect ev s s' HI Hstep) as [[_ H]|_].
  { left. apply H in Hl. assert (j' = j) as -> by congruence. split; reflexivity. }
  unfold step in Hstep.
  destruct ev as [pkgs hash uuid|f| | |e|text|e|code].
  - destruct (path_exists _ _); [|destruct (wpc s); discriminate].
    assert (s' = submit (new_job pkgs hash (path_join CONFIG_CACHE hash) uuid) s)
      as -> by (destruct (wpc s); congruence).
    simpl in Hl'. rewrite (lookup_app_l_Some _ _ _ _ Hl) in Hl'.
    left. assert (j' = j) as -> by congruence. split; reflexivity.
  - assert (s' = mkServer (heap s) (jobs s) (queue s) (current_job s) (wpc s)
                          (set_fs f (world s))) as -> by (destruct (wpc s); congruence).
    simpl in Hl'. left. assert (j' = j) as -> by congruence. split; reflexivity.
  - (* Get *)
    destruct (wpc s) eqn:Hpc; try discriminate.
    destruct (queue s) as [|r0 q] eqn:Hq; [discriminate|].
    apply resume_spec in Hstep. simpl in Hstep.
    destruct Hstep as (j0 & Hl0 & _ & _ & Hcase).
    pose proof (run_build_begin_frame j0 (world s)) as (Fj & _ & _).
    destruct Hcase as [(a & j1 & w1 & Hm & _ & Hh & _)
                      |[(a & j1 & w1 & _ & Hlast & _)|(e & j1 & w1 & Hm & Hh & _)]];
      try discriminate;
      rewrite Hm in Fj; simpl in Fj;
      apply forget_log_fields in Fj; destruct Fj as (_&_&_&_&_&Fp&_&_&_&Fa);
      simpl in Fp, Fa; same_outputs Hl Hl' Hh;
      left; assert (j0 = j) as -> by congruence; split; assumption.
  - destruct (wpc s) as [|r0 st|r0 st] eqn:Hpc; try discriminate.
    injection Hstep as <-. simpl in Hl'. left.
    assert (j' = j) as -> by congruence. split; reflexivity.
  - (* SpawnFailed *)
    destruct (wpc s) as [|r0 st|r0 st] eqn:Hpc; try discriminate.
    apply resume_spec in Hstep. destruct Hstep as (j0 & Hl0 & _ & _ & Hcase).
    destruct Hcase as [(a & j1 & w1 & Hm & _)
                      |[(a & j1 & w1 & Hm & _)|(e0 & j1 & w1 & Hm & Hh & _)]];
      try discriminate.
    injection Hm as <- <- <-. same_outputs Hl Hl' Hh.
    left. assert (j0 = j) as -> by congruence. split; reflexivity.
  - (* Line *)
    destruct (wpc s) as [|r0 st|r0 st] eqn:Hpc; try discriminate.
    destruct (readable text); [|discriminate].
    apply resume_spec in Hstep. destruct Hstep as (j0 & Hl0 & _ & _ & Hcase).
    destruct Hcase as [(a & j1 & w1 & Hm & _ & Hh & _)
                      |[(a & j1 & w1 & _ & Hlast & _)|(e0 & j1 & w1 & Hm & _)]];
      try discriminate.
    injection Hm as <- <- <-. same_outputs Hl Hl' Hh.
    left. assert (j0 = j) as -> by congruence. split; reflexivity.
  - (* ReadFailed *)
    destruct (wpc s) as [|r0 st|r0 st] eqn:Hpc; try discriminate.
    apply resume_spec in Hstep. destruct Hstep as (j0 & Hl0 & _ & _ & Hcase).
    destruct Hcase as [(a & j1 & w1 & Hm & _)
                      |[(a & j1 & w1 & Hm & _)|(e0 & j1 & w1 & Hm & Hh & _)]];
      try discriminate.
    injection Hm as <- <- <-. same_outputs Hl Hl' Hh.
    left. assert (j0 = j) as -> by congruence. split; reflexivity.
  - (* Exited *)
    destruct (wpc s) as [|r0 st|r0 st] eqn:Hpc; try discriminate.
    destruct st as [|b]; apply resume_spec in Hstep;
      destruct Hstep as (j0 & Hl0 & _ & _ & Hcase).
    + destruct (build_begin_spec j0 (world s)) as (b & text & Hbb).
      destruct Hcase as [(a & j1 & w1 & Hm & _ & Hh & _)
                        |[(a & j1 & w1 & _ & Hlast & _)|(e0 & j1 & w1 & Hm & _)]];
        try discriminate.
      rewrite Hbb in Hm. injection Hm as <- <- <-. same_outputs Hl Hl' Hh.
      left. assert (j0 = j) as -> by congruence. split; reflexivity.
    + destruct (decide (code = 0)) as [->|Hne].
      * destruct Hcase as [(a & j1 & w1 & Hm & Hlast & _)
                          |[(a & j1 & w1 & Hm & _ & Hh & _)
                           |(e0 & j1 & w1 & Hm & Hh & _)]];
          try discriminate; same_outputs Hl Hl' Hh; right; exists b;
          (split; [reflexivity|]); (split; [reflexivity|]).
        -- left. pose proof (run_build_end_zero b j0 (world s)) as Hz. rewrite Hm in Hz.
           destruct Hz as (jp & wp & _ & Hj1 & _).
           apply forget_log_fields in Hj1. destruct Hj1 as (_&_&_&_&Fs&_). exact Fs.
        -- right. split; [reflexivity|]. exists e0. split; [|reflexivity].
           exact (raises_end s r0 b 0 j0 e0 (j1, w1) Hpc Hl0 Hm).
      * rewrite (run_build_end_nonzero b code j0 (world s) Hne) in Hcase.
        destruct Hcase as [(a & j1 & w1 & Hm & Hlast & _)
                          |[(a & j1 & w1 & Hm & _ & Hh & _)
                           |(e0 & j1 & w1 & Hm & _)]];
          try discriminate.
        injection Hm as _ <- _. same_outputs Hl Hl' Hh.
        left. assert (j0 = j) as -> by congruence. split; reflexivity.
Qed.

Lemma blocked_built_reachable : reachable blocked_built.
Proof.
  exists blocked_world,
    [demo_submit "id1"; Get; Spawned; Exited 0; Spawned;
     Touch (new_package_written (fs (world blocked_reading)))].
  vm_compute. reflexivity.
Qed.

(** ** Writing a file does not move it

    Path resolution looks at the kind of the nodes it meets, and at the
    targets of links; writing a regular file changes neither. *)

Lemma pystr_eqb_true a b : pystr_eqb a b = true <-> a = b.
Proof. unfold pystr_eqb. apply bool_decide_eq_true. Qed.

Lemma pystr_eqb_false a b : pystr_eqb a b = false <-> a <> b.
Proof. unfold pystr_eqb. apply bool_decide_eq_false. Qed.

Lemma assoc_put_ent_eq c n ents : assoc c (put_ent c n ents) = Some n.
Proof.
  induction ents as [|[k m] ents IH]; simpl.
  - rewrite (proj2 (pystr_eqb_true c c) eq_refl). reflexivity.
  - destruct (pystr_eqb k c) eqn:E; simpl; rewrite E; [reflexivity | exact IH].
Qed.

Lemma assoc_put_ent_ne c c' n ents : c' <> c -> assoc c' (put_ent c n ents) = assoc c' ents.
Proof.
  intros Hne. induction ents as [|[k m] ents IH]; simpl.
  - rewrite (proj2 (pystr_eqb_false c c')); [reflexivity | congruence].
  - destruct (pystr_eqb k c) eqn:E; simpl.
    + apply pystr_eqb_true in E. subst k.
      rewrite (proj2 (pystr_eqb_false c c')); [reflexivity | congruence].
    + destruct (pystr_eqb k c'); [reflexivity | exact IH].
Qed.

Lemma raw_lookup_app f p1 p2 :
  raw_lookup f (p1 ++ p2) = match raw_lookup f p1 with
                            | Some n => raw_lookup n p2
                            | None => None
                            end.
Proof.
  revert f. induction p1 as [|c p1 IH]; intros f; simpl; [reflexivity|].
  destruct f as [| | |ents]; try reflexivity.
  destruct (assoc c ents); [apply IH | reflexivity].
Qed.

Lemma raw_lookup_set_eq f q n f' :
  q <> [] -> raw_set f q (Some n) = Some f' -> raw_lookup f' q = Some n.
Proof.
  revert f f'. induction q as [|c q IH]; intros f f' Hne H; [contradiction|].
  simpl in H. destruct f as [| | |ents]; try discriminate.
  destruct q as [|c2 q].
  - injection H as <-. simpl. rewrite assoc_put_ent_eq. reflexivity.
  - destruct (assoc c ents) as [sub|]; [|discriminate].
    destruct (raw_set sub (c2 :: q) (Some n)) as [sub'|] eqn:E; [|discriminate].
    injection H as <-. simpl raw_lookup at 1. rewrite assoc_put_ent_eq.
    apply (IH sub sub'); [discriminate | exact E].
Qed.

Lemma raw_lookup_set_other f q new f' p :
  raw_set f q new = Some f' -> q <> [] -> ~ q `prefix_of` p ->
  shape_of (raw_lookup f' p) = shape_of (raw_lookup f p).
Proof.
  revert f f' p. induction q as [|c q IH]; intros f f' p H Hne Hp; [contradiction|].
  simpl in H. destruct f as [| | |ents]; try discriminate.
  assert (Hcase : forall sub', f' = Dir (put_ent c sub' ents) ->
            (forall p', p = c :: p' ->
               shape_of (raw_lookup sub' p')
               = shape_of (match assoc c ents with Some s => raw_lookup s p' | None => None end)) ->
            shape_of (raw_lookup f' p) = shape_of (raw_lookup (Dir ents) p)).
  { intros sub' -> Hsub. destruct p as [|c' p']; [reflexivity|]. simpl.
    destruct (decide (c' = c)) as [->|Hc].
    - rewrite assoc_put_ent_eq. apply Hsub. reflexivity.
    - rewrite assoc_put_ent_ne by exact Hc. reflexivity. }
  destruct q as [|c2 q].
  - destruct p as [|c' p'].
    + destruct new; injection H as <-; reflexivity.
    + assert (Hc : c' <> c).
      { intros ->. apply Hp. exists p'. reflexivity. }
      destruct new as [n|]; injection H as <-; simpl.
      * rewrite assoc_put_ent_ne by exact Hc. reflexivity.
      * assert (Hrm : forall es, assoc c' (remove_ent c es) = assoc c' es).
        { induction es as [|[k m] es IHes]; simpl; [reflexivity|].
          destruct (pystr_eqb k c) eqn:E; simpl.
          - apply pystr_eqb_true in E. subst k.
            rewrite (proj2 (pystr_eqb_false c c')); [exact IHes | congruence].
          - destruct (pystr_eqb k c'); [reflexivity | exact IHes]. }
        rewrite Hrm. reflexivity.
  - destruct (assoc c ents) as [sub|] eqn:Hsub; [|discriminate].
    destruct (raw_set sub (c2 :: q) new) as [sub'|] eqn:E; [|discriminate].
    injection H as H. apply (Hcase sub'); [congruence|].
    intros p' ->. apply (IH sub sub' p' E); [discriminate|].
    intros [k Hk]. apply Hp. exists k. rewrite Hk. reflexivity.
Qed.

Lemma raw_lookup_below f q k :
  shape_of (raw_lookup f q) = SNone \/ shape_of (raw_lookup f q) = SLeaf ->
  k <> [] -> raw_lookup f (q ++ k) = None.
Proof.
  intros Hq Hk. rewrite raw_lookup_app.
  destruct (raw_lookup f q) as [[| | |ents]|]; try reflexivity;
    try (destruct Hq; discriminate);
    (destruct k; [contradiction | reflexivity]).
Qed.

Lemma is_Dir_shape n : is_Dir n = true <-> shape_of n = SDir.
Proof. destruct n as [[| | |]|]; simpl; split; congruence. Qed.

(** One step of [canon], in terms of shapes. *)
Lemma canon_step fuel root cur c rest follow :
  canon (S fuel) root cur (c :: rest) follow
  = if pystr_eqb c [] || pystr_eqb c dot then canon fuel root cur rest follow
    else if pystr_eqb c dotdot then canon fuel root (removelast cur) rest follow
    else match shape_of (raw_lookup root (cur ++ [c])) with
         | SLink t =>
             if follow || negb (bool_decide (rest = [])) then
               canon fuel root (if is_absolute t then [] else cur)
                     (split_slash [] t ++ rest) follow
             else Some (cur ++ [c])
         | SNone => if is_Dir (raw_lookup root cur) then Some (cur ++ c :: rest) else None
         | _ => canon fuel root (cur ++ [c]) rest follow
         end.
Proof.
  unfold canon at 1; fold canon.
  destruct (pystr_eqb c [] || pystr_eqb c dot); [reflexivity|].
  destruct (pystr_eqb c dotdot); [reflexivity|].
  destruct (raw_lookup root (cur ++ [c])) as [[| | |]|]; reflexivity.
Qed.

Lemma canon_nil fuel root cur follow : canon fuel root cur [] follow = Some cur.
Proof. destruct fuel; reflexivity. Qed.

Lemma is_Dir_shape_eq a b : shape_of a = shape_of b -> is_Dir a = is_Dir b.
Proof. destruct a as [[| | |]|], b as [[| | |]|]; simpl; congruence. Qed.

Lemma not_Dir_at_or_below f q k :
  shape_of (raw_lookup f q) = SNone \/ shape_of (raw_lookup f q) = SLeaf ->
  is_Dir (raw_lookup f (q ++ k)) = false.
Proof.
  intros Hq. destruct k as [|x k].
  - rewrite app_nil_r. destruct (raw_lookup f q) as [[| | |]|]; try reflexivity.
    destruct Hq; discriminate.
  - rewrite (raw_lookup_below f q (x :: k) Hq); [reflexivity | discriminate].
Qed.

(** Writing a regular file at the place [q] a path resolves to (a place
    that was free, or held a regular file) leaves the path resolving to
    [q]. *)
Lemma canon_write_leaf f q n f' :
  q <> [] -> raw_set f q (Some n) = Some f' -> is_leaf n ->
  shape_of (raw_lookup f q) = SNone \/ shape_of (raw_lookup f q) = SLeaf ->
  forall fuel cur rest,
    canon fuel f cur rest true = Some q -> canon fuel f' cur rest true = Some q.
Proof.
  intros Hne Hset Hleaf Hq.
  pose proof (raw_lookup_set_eq f q n f' Hne Hset) as Hnew.
  induction fuel as [|fuel IH]; intros cur rest H.
  { destruct rest; [exact H | discriminate]. }
  destruct rest as [|c rest]; [rewrite canon_nil in *; exact H|].
  rewrite canon_step in H. rewrite canon_step.
  destruct (pystr_eqb c [] || pystr_eqb c dot); [apply IH; exact H|].
  destruct (pystr_eqb c dotdot); [apply IH; exact H|].
  destruct (decide (q `prefix_of` (cur ++ [c]))) as [[k Hk]|Hnp].
  - destruct k as [|x k _] using rev_ind.
    + rewrite app_nil_r in Hk. rewrite Hk in *. rewrite Hnew.
      unfold is_leaf in Hleaf. rewrite Hleaf.
      destruct Hq as [Hq|Hq]; rewrite Hq in H.
      * destruct (is_Dir (raw_lookup f cur)); [|discriminate].
        injection H as H. rewrite <- Hk in H.
        apply app_inv_head in H. injection H as ->. apply canon_nil.
      * destruct n; try discriminate; apply IH; exact H.
    + exfalso. rewrite app_assoc in Hk. apply app_inj_tail in Hk. destruct Hk as [-> ->].
      rewrite <- app_assoc in H.
      rewrite (raw_lookup_below f q (k ++ [x]) Hq) in H by (destruct k; discriminate).
      simpl in H. rewrite (not_Dir_at_or_below f q k Hq) in H. discriminate.
  - assert (Hnc : ~ q `prefix_of` cur).
    { intros Hp. apply Hnp. apply prefix_app_r. exact Hp. }
    rewrite (raw_lookup_set_other f q _ f' _ Hset Hne Hnp).
    rewrite (is_Dir_shape_eq _ _ (raw_lookup_set_other f q _ f' _ Hset Hne Hnc)).
    destruct (shape_of (raw_lookup f (cur ++ [c]))); simpl in *;
      try (apply IH; exact H); exact H.
Qed.

Lemma stat_write_leaf f q n f' p :
  raw_set f q (Some n) = Some f' -> q <> [] -> is_leaf n ->
  shape_of (raw_lookup f q) = SNone \/ shape_of (raw_lookup f q) = SLeaf ->
  canon resolve_fuel f [] p true = Some q ->
  canon resolve_fuel f' [] p true = Some q /\ stat f' p = Some n.
Proof.
  intros Hset Hne Hleaf Hq Hc.
  pose proof (canon_write_leaf f q n f' Hne Hset Hleaf Hq resolve_fuel [] p Hc) as Hc'.
  split; [exact Hc'|]. unfold stat. rewrite Hc'.
  apply (raw_lookup_set_eq f q n f' Hne Hset).
Qed.

(** ** The archive *)

Lemma bind_ret_inv {A B} (m : M A) (k : A -> M B) s b s' :
  bind m k s = (Ret b, s') -> exists a s1, m s = (Ret a, s1) /\ k a s1 = (Ret b, s').
Proof.
  unfold bind. destruct (m s) as [[a|e] s1]; [|discriminate]. eauto.
Qed.

Lemma fsM_ret_inv op j w u s' :
  fsM op (j, w) = (Ret u, s') -> exists f', op (fs w) = (None, f') /\ s' = (j, set_fs f' w).
Proof.
  unfold fsM. cbn [fst snd]. destruct (op (fs w)) as [[e|] f']; [discriminate|].
  intros H. injection H as _ <-. eauto.
Qed.

Lemma fs_write_ok f q new p f' :
  fs_write f q new p = (None, f') -> q <> [] /\ raw_set f q new = Some f'.
Proof.
  unfold fs_write, parent_is_dir. destruct (decide (q = [])) as [->|Hne].
  - rewrite bool_decide_eq_true_2 by reflexivity. discriminate.
  - destruct (negb (bool_decide (q = [])) && is_Dir (raw_lookup f (removelast q))); [|discriminate].
    destruct (raw_set f q new) as [f1|]; [|discriminate].
    intros H. injection H as <-. auto.
Qed.

(** The names the members get: the texts of the paths relative to the
    cache. *)
Lemma rel_names_spec ps names :
  rel_names ps = inr names ->
  Forall2 (fun p name => exists rel, p = binpkg_dir ++ rel /\ name = str_rel rel) ps names.
Proof.
  assert (Hrel : forall base p rel, relative_to base p = inr rel -> p = base ++ rel).
  { induction base as [|b base IH]; intros p rel H; simpl in H.
    - assert (p = rel) as -> by (destruct p; simpl in H; congruence). reflexivity.
    - destruct p as [|c p]; [discriminate|].
      destruct (pystr_eqb b c) eqn:E; [|discriminate].
      apply pystr_eqb_true in E. subst c. simpl. f_equal. apply IH. exact H. }
  revert names. induction ps as [|p ps IH]; intros names H; cbn [rel_names] in H.
  - injection H as <-. constructor.
  - destruct (relative_to binpkg_dir p) as [e|rel] eqn:E; [discriminate|].
    destruct (rel_names ps) as [e|l]; [discriminate|].
    injection H as <-. constructor; [|apply IH; reflexivity].
    exists rel. split; [apply Hrel; exact E | reflexivity].
Qed.

Lemma tar_add_inv q src name f f' :
  tar_add q src name f = (None, f') ->
  exists n ms, lstat f src = Some n /\ raw_lookup f q = Some (Tar ms)
               /\ fs_write f q (Some (Tar (ms ++ members_of name n))) q = (None, f').
Proof.
  unfold tar_add. destruct (lstat f src) as [n|]; [|discriminate].
  destruct (raw_lookup f q) as [[|ms| |]|]; try discriminate. eauto.
Qed.

Lemma add_packages_ret A q pkgs :
  forall j w j' w' ms,
    canon resolve_fuel (fs w) [] A true = Some q ->
    raw_lookup (fs w) q = Some (Tar ms) ->
    add_packages q pkgs (j, w) = (Ret tt, (j', w')) ->
    exists ms' names, canon resolve_fuel (fs w') [] A true = Some q
                      /\ raw_lookup (fs w') q = Some (Tar (ms ++ ms'))
                      /\ rel_names pkgs = inr names /\ stored names ms'.
Proof.
  induction pkgs as [|p pkgs IH]; intros j w j' w' ms Hc Hq H.
  - injection H as <- <-. exists [], []. rewrite app_nil_r.
    repeat split; auto. exists []. split; [reflexivity | constructor].
  - cbn [add_packages] in H.
    apply bind_ret_inv in H. destruct H as (rel & s1 & H1 & H).
    destruct (relative_to binpkg_dir p) as [e|rel0] eqn:Hrel; [discriminate|].
    injection H1 as <- <-.
    apply bind_ret_inv in H. destruct H as ([] & s2 & H2 & H).
    apply fsM_ret_inv in H2. destruct H2 as (f' & Hadd & ->).
    apply bind_ret_inv in H. destruct H as ([] & s3 & H3 & H).
    injection H3 as <-.
    apply tar_add_inv in Hadd. destruct Hadd as (n & ms0 & _ & Hq0 & Hadd).
    assert (ms0 = ms) as -> by congruence.
    apply fs_write_ok in Hadd. destruct Hadd as [Hne Hset].
    assert (Hold : shape_of (raw_lookup (fs w) q) = SNone \/ shape_of (raw_lookup (fs w) q) = SLeaf)
      by (right; rewrite Hq; reflexivity).
    destruct (stat_write_leaf (fs w) q _ f' A Hset Hne eq_refl Hold Hc) as [Hc' _].
    pose proof (raw_lookup_set_eq (fs w) q _ f' Hne Hset) as Hq'.
    destruct (IH _ (set_fs f' w) _ _ _ Hc' Hq' H) as (ms' & names & Hc2 & Hq2 & Hn & Hst).
    exists (members_of (str_rel rel0) n ++ ms'), (str_rel rel0 :: names).
    rewrite <- app_assoc in Hq2.
    split; [exact Hc2|]. split; [exact Hq2|]. split.
    + cbn [rel_names]. rewrite Hrel, Hn. reflexivity.
    + destruct Hst as (groups & -> & Hg). exists (members_of (str_rel rel0) n :: groups).
      split; [reflexivity|]. constructor; [eauto | exact Hg].
Qed.

Lemma tar_open_inv p j w q s' :
  tar_open p (j, w) = (Ret q, s') ->
  exists f2, canon resolve_fuel (fs w) [] p true = Some q
             /\ (shape_of (raw_lookup (fs w) q) = SNone \/ shape_of (raw_lookup (fs w) q) = SLeaf)
             /\ fs_write (fs w) q (Some (Tar [])) p = (None, f2)
             /\ s' = (j, set_fs f2 w).
Proof.
  unfold tar_open. cbn [fst snd].
  destruct (canon resolve_fuel (fs w) [] p true) as [q0|]; [|discriminate].
  destruct (raw_lookup (fs w) q0) as [[| | |]|] eqn:Hl; try discriminate;
    destruct (fs_write (fs w) q0 (Some (Tar [])) p) as [[e|] f2] eqn:Hw; try discriminate;
    intros H; injection H as <- <-; exists f2; rewrite Hl; simpl; repeat split; auto.
Qed.

Lemma report_artifact_inv artifact j w u s' :
  report_artifact artifact (j, w) = (Ret u, s') ->
  s'.2 = w /\ forget_log s'.1 = forget_log j.
Proof.
  unfold report_artifact, bind, get_world. cbn [fst snd].
  destruct (stat (fs w) artifact); [|discriminate].
  intros H. apply (f_equal snd) in H. cbn [snd logM mod_job fst] in H.
  rewrite <- H. split; reflexivity.
Qed.

(** The archive a successful [_create_artifact] leaves: at the location
    recorded on the job, holding for each package, in order, what [tar.add]
    stores under the package's path relative to the cache. *)
Lemma create_artifact_ret pkgs j w j' w' :
  _create_artifact pkgs (j, w) = (Ret tt, (j', w')) ->
  let artifact := path_join artifact_dir (build_id j ++ lit ".tar") in
  forget_log j' = forget_log (set_artifact_path (Some artifact) j)
  /\ exists ms names, stat (fs w') artifact = Some (Tar ms)
                      /\ rel_names pkgs = inr names /\ stored names ms.
Proof.
  unfold _create_artifact. intros H.
  apply bind_ret_inv in H. destruct H as ([] & s1 & H1 & H).
  apply fsM_ret_inv in H1. destruct H1 as (f1 & _ & ->).
  apply bind_ret_inv in H. destruct H as (j0 & s2 & H2 & H).
  injection H2 as <- <-.
  revert H. cbv zeta. cbn [fst].
  set (artifact := path_join artifact_dir (build_id j ++ lit ".tar")).
  intros H.
  apply bind_ret_inv in H. destruct H as ([] & s3 & H3 & H).
  assert (s3 = (append_log (nl ++ lit "=== Creating artifact tarball ===" ++ nl) j, set_fs f1 w))
    as -> by (revert H3; unfold logM, mod_job; cbn [fst snd]; congruence).
  apply bind_ret_inv in H. destruct H as (q & s4 & H4 & H).
  apply tar_open_inv in H4. destruct H4 as (f2 & Hc & Hold & Hw & ->).
  apply fs_write_ok in Hw. destruct Hw as [Hne Hset].
  destruct (stat_write_leaf _ q _ f2 artifact Hset Hne eq_refl Hold Hc) as [Hc2 _].
  pose proof (raw_lookup_set_eq _ q _ f2 Hne Hset) as Hq2.
  apply bind_ret_inv in H. destruct H as ([] & [j5 w5] & H5 & H).
  destruct (add_packages_ret artifact q pkgs _ (set_fs f2 (set_fs f1 w)) j5 w5 [] Hc2 Hq2 H5)
    as (ms & names & Hc5 & Hq5 & Hn & Hstored).
  apply bind_ret_inv in H. destruct H as ([] & s6 & H6 & H).
  assert (s6 = (set_artifact_path (Some artifact) j5, w5))
    as -> by (revert H6; unfold mod_job; cbn [fst snd]; congruence).
  apply (report_artifact_inv artifact) in H. destruct H as [Hw' Hj'].
  assert (Hq5j : forget_log j5 = forget_log j).
  { match type of H5 with add_packages _ _ ?s = _ =>
      pose proof (quiet_add_packages q pkgs s) as [Q _] end.
    rewrite H5 in Q. exact Q. }
  split.
  { change (forget_log j' = forget_log (set_artifact_path (Some artifact) j5)) in Hj'.
    rewrite Hj'. apply forget_log_fields in Hq5j. destruct Hq5j as (?&?&?&?&?&?&?&?&?&?).
    unfold forget_log, set_artifact_path. cbn. congruence. }
  exists ms, names. split; [|split; [exact Hn | exact Hstored]].
  change (fs w') with (fs (j', w').2). rewrite Hw'.
  unfold stat. rewrite Hc5. exact Hq5.
Qed.

Lemma iteration_perm w X : iteration w X ≡ₚ elements X.
Proof. apply merge_sort_Permutation. Qed.

(** Lines 122-131, when they end without raising: the list recorded on the
    job names the new packages by their paths relative to the cache, in the
    order the set of them is iterated; with no new package nothing else is
    touched; otherwise the archive is at the location recorded on the job
    and holds what [tar.add] stores under those names, in that order. *)

Lemma package_outputs_ret b j w j' w' :
  package_outputs b (j, w) = (Ret tt, (j', w')) ->
  exists new,
    new ≡ₚ new_packages_of b (fs w)
    /\ rel_names new = inr (packages_built j')
    /\ (new_packages_of b (fs w) = [] -> w' = w /\ artifact_path j' = artifact_path j)
    /\ (new_packages_of b (fs w) <> [] ->
        artifact_path j' = Some (artifact_of (build_id j))
        /\ exists ms, stat (fs w') (artifact_of (build_id j)) = Some (Tar ms)
                      /\ stored (packages_built j') ms).
Proof.
  unfold package_outputs, new_packages_of, artifact_of. intros H.
  apply bind_ret_inv in H. destruct H as (w0 & s1 & H1 & H).
  assert (w0 = w /\ s1 = (j, w)) as [-> ->]
    by (revert H1; unfold get_world; cbn [fst snd]; intros H1; split; congruence).
  clear H1. revert H. cbv zeta. cbn [fst snd].
  set (X := (if path_exists (fs w) binpkg_dir then snapshot (fs w) else ∅) ∖ b).
  pose proof (iteration_perm w X) as Hperm.
  set (new_packages := iteration w X) in *. clearbody new_packages.
  intros H. exists new_packages. split; [exact Hperm|].
  apply bind_ret_inv in H. destruct H as (built & s2 & H2 & H).
  destruct (rel_names new_packages) as [e|names] eqn:Hn; [discriminate|].
  injection H2 as <- <-.
  apply bind_ret_inv in H. destruct H as ([] & s3 & H3 & H). injection H3 as <-.
  apply bind_ret_inv in H. destruct H as ([] & s4 & H4 & H).
  apply bind_ret_inv in H. destruct H as ([] & s5 & H5 & H).
  match type of H4 with logM ?t _ = _ =>
    assert (s4 = (append_log t (set_packages_built names j), w))
      as -> by (revert H4; unfold logM, mod_job; cbn [fst snd]; congruence) end.
  match type of H5 with mod_job ?f ?s = _ =>
    assert (s5 = (f s.1, s.2))
      as -> by (revert H5; unfold mod_job; congruence) end.
  clear H4 H5. revert H. cbn [fst snd].
  match goal with |- _ (?a, _) = _ -> _ => set (j5 := a) end.
  assert (Hj5 : forget_log j5 = forget_log (set_packages_built names j)).
  { unfold j5. rewrite forget_log_foldl. reflexivity. }
  clearbody j5. intros H.
  apply forget_log_fields in Hj5. destruct Hj5 as (_&_&_&Hid&_&Hpb&_&_&_&Hart).
  cbn in Hid, Hpb, Hart.
  destruct new_packages as [|p ps] eqn:Hnew.
  - apply Permutation_nil in Hperm.
    injection H as <- <-. split; [congruence|]. split; [auto|].
    intros Hne. contradiction.
  - apply create_artifact_ret in H. cbv zeta in H.
    destruct H as (Hj' & ms & names' & Hst & Hms & Hstored).
    apply forget_log_fields in Hj'. destruct Hj' as (_&_&_&_&_&Hpb'&_&_&_&Hart').
    cbn in Hpb', Hart'. rewrite Hid in Hart', Hst.
    assert (names' = names) as -> by congruence.
    split; [congruence|]. split.
    { intros Hnil. rewrite Hnil in Hperm. apply Permutation_nil_r in Hperm. discriminate. }
    intros _. split; [exact Hart'|]. exists ms. split; [exact Hst|].
    rewrite Hpb', Hpb. exact Hstored.
Qed.

Lemma forget_out_static j j' :
  forget_out j' = forget_out j ->
  packages j' = packages j /\ config_hash j' = config_hash j
  /\ config_path j' = config_path j /\ build_id j' = build_id j.
Proof. intros H. injection H. intros. repeat split; assumption. Qed.







(** What the step after a build command's exit with code 0 leaves, when
    the job ends Complete. *)
Lemma exited_zero_archive (s s' : Server) (r : nat) (b : gset path) (j' : BuildJob) :
  reachable s -> wpc s = Reading r (Build b) ->
  step (Exited 0) s = Some s' -> heap s' !! r = Some j' -> status j' = COMPLETE ->
  (exists new, new ≡ₚ new_packages_of b (fs (world s))
               /\ Forall2 (fun p name => exists rel, p = binpkg_dir ++ rel /\ name = str_rel rel)
                          new (packages_built j'))
  /\ (new_packages_of b (fs (world s)) = [] ->
      artifact_path j' = None /\ fs (world s') = fs (world s))
  /\ (new_packages_of b (fs (world s)) <> [] ->
      artifact_path j' = Some (artifact_of (build_id j'))
      /\ exists ms, stat (fs (world s')) (artifact_of (build_id j')) = Some (Tar ms)
                    /\ stored (packages_built j') ms).
Proof.
  intros Hreach Hpc Hstep Hl' Hs. pose proof (Inv_reachable s Hreach) as HI.
  assert (Hr : running s = Some r) by (unfold running; rewrite Hpc; reflexivity).
  unfold step in Hstep. rewrite Hpc in Hstep.
  apply resume_spec in Hstep. destruct Hstep as (j & Hl & _ & _ & Hcase).
  pose proof (Inv_running_building s r j HI Hr Hl) as (_ & _ & Hart & _).
  assert (Hlt : (r < length (heap s))%nat) by (apply lookup_lt_Some in Hl; exact Hl).
  destruct Hcase as [(a & j1 & w1 & Hm & Hlast & _)
                    |[(a & j1 & w1 & Hm & _ & Hh & Hw & _)
                     |(e0 & j1 & w1 & Hm & Hh & _)]];
    try discriminate;
    rewrite Hh, list_lookup_insert_eq in Hl' by exact Hlt; injection Hl' as <-;
    [|discriminate].
  pose proof (run_build_end_zero b j (world s)) as Hz. rewrite Hm in Hz.
  destruct Hz as (jp & wp & Hpo & Hj1 & ->).
  apply forget_log_fields in Hj1. destruct Hj1 as (_&_&_&Hid&_&Hpb&_&_&_&Ha).
  cbn in Hid, Hpb, Ha.
  pose proof (calm_package_outputs b (j, world s)) as [Hcalm _]. rewrite Hpo in Hcalm.
  apply forget_out_static in Hcalm. destruct Hcalm as (_&_&_&Hidp).
  cbn in Hidp.
  pose proof (package_outputs_ret b j (world s) jp wp Hpo) as (new & Hperm & Hn & Hnil & Hcons).
  cbn [packages_built artifact_path build_id set_completed_at]. rewrite Hw. cbn [fs tick with_status].
  rewrite Hpb, Ha, Hid, Hidp.
  split; [exists new; split; [exact Hperm | apply rel_names_spec; exact Hn]|]. split.
  - intros Hnew. destruct (Hnil Hnew) as [-> Hap]. split; [congruence | reflexivity].
  - intros Hnew. exact (Hcons Hnew).
Qed.

(** ** The archive of a completed build *)



(** ** The archive and the new packages *)




(** ** The log only grows *)

Lemma grows_ret {A} (a : A) : grows (ret a).
Proof. intros s. reflexivity. Qed.

Lemma grows_raise {A} (e : exn) : grows (raise (A:=A) e).
Proof. intros s. reflexivity. Qed.

Lemma grows_bind {A B} (m : M A) (k : A -> M B) :
  grows m -> (forall a, grows (k a)) -> grows (bind m k).
Proof.
  intros Hm Hk s. unfold bind. specialize (Hm s).
  destruct (m s) as [[a|e] s']; [|exact Hm].
  etransitivity; [exact Hm | apply Hk].
Qed.

Lemma grows_quiet_log {A} (m : M A) :
  (forall s, log (m s).2.1 = log s.1) -> grows m.
Proof. intros H s. rewrite H. reflexivity. Qed.

Lemma grows_logM text : grows (logM text).
Proof. intros [j w]. apply prefix_app_r. reflexivity. Qed.

Lemma grows_get_job : grows get_job.
Proof. intros s. reflexivity. Qed.

Lemma grows_get_fs : grows get_fs.
Proof. intros s. reflexivity. Qed.

Lemma grows_get_world : grows get_world.
Proof. intros s. reflexivity. Qed.

Lemma grows_nowM : grows nowM.
Proof. intros [j w]. reflexivity. Qed.

Lemma grows_fsM op : grows (fsM op).
Proof. intros [j w]. unfold fsM. cbn [fst snd]. destruct (op (fs w)) as [[e|] f]; reflexivity. Qed.

Lemma grows_liftE {A} (r : exn + A) : grows (liftE r).
Proof. destruct r; [apply grows_raise | apply grows_ret]. Qed.

Lemma grows_assign_status st : grows (assign_status st).
Proof. intros [j w]. reflexivity. Qed.

Lemma grows_set_started_at d : grows (mod_job (set_started_at d)).
Proof. intros [j w]. reflexivity. Qed.

Lemma grows_set_error e : grows (mod_job (set_error e)).
Proof. intros [j w]. reflexivity. Qed.

Lemma grows_set_completed_at d : grows (mod_job (set_completed_at d)).
Proof. intros [j w]. reflexivity. Qed.

Lemma grows_set_packages_built l : grows (mod_job (set_packages_built l)).
Proof. intros [j w]. reflexivity. Qed.

Lemma grows_set_artifact_path p : grows (mod_job (set_artifact_path p)).
Proof. intros [j w]. reflexivity. Qed.

Lemma grows_run_command_begin cmd : grows (run_command_begin cmd).
Proof. intros [j w]. apply prefix_app_r. reflexivity. Qed.

Lemma grows_log_each (l : list pystr) (f : pystr -> pystr) :
  grows (mod_job (fun j => foldl (fun j pkg => append_log (f pkg) j) j l)).
Proof.
  intros [j w]. cbn [fst snd mod_job]. revert j.
  induction l as [|x l IH]; intros j; [reflexivity|].
  cbn [foldl]. etransitivity; [|apply IH]. apply prefix_app_r. reflexivity.
Qed.

Lemma grows_tar_open p : grows (tar_open p).
Proof.
  intros [j w]. unfold tar_open. cbn [fst snd].
  destruct (canon resolve_fuel (fs w) [] p true) as [q|]; [|reflexivity].
  destruct (raw_lookup (fs w) q) as [[| | |]|]; try reflexivity;
    destruct (fs_write (fs w) q (Some (Tar [])) p) as [[e|] f]; reflexivity.
Qed.

Create HintDb grows.
#[local] Hint Resolve grows_ret grows_raise grows_logM grows_get_job grows_get_fs
  grows_get_world grows_nowM grows_fsM grows_liftE grows_assign_status grows_set_started_at
  grows_set_error grows_set_completed_at grows_set_packages_built grows_set_artifact_path
  grows_run_command_begin grows_log_each grows_tar_open : grows.

Ltac grows_step :=
  match goal with
  | |- grows (bind _ _) => apply grows_bind; [|intros ?]
  | |- grows (if ?c then _ else _) => destruct c
  | |- grows (match ?c with _ => _ end) => destruct c
  | |- grows _ => solve [auto with grows]
  end.

Lemma grows_apply_items cfg names : grows (apply_items cfg names).
Proof.
  induction names as [|name rest IH]; [apply grows_ret|].
  cbn [apply_items]. repeat grows_step.
Qed.

Lemma grows_apply_config : grows _apply_config.
Proof. unfold _apply_config. repeat grows_step; apply grows_apply_items. Qed.

Lemma grows_add_packages tar pkgs : grows (add_packages tar pkgs).
Proof.
  induction pkgs as [|p rest IH]; [apply grows_ret|].
  cbn [add_packages]. repeat grows_step.
Qed.

Lemma grows_create_artifact pkgs : grows (_create_artifact pkgs).
Proof. unfold _create_artifact. repeat grows_step; apply grows_add_packages. Qed.

Lemma grows_package_outputs b : grows (package_outputs b).
Proof. unfold package_outputs. repeat grows_step; apply grows_create_artifact. Qed.

Lemma grows_build_header : grows build_header.
Proof. unfold build_header. repeat grows_step. Qed.

Lemma grows_build_begin : grows build_begin.
Proof. unfold build_begin. repeat grows_step. Qed.

Lemma grows_sync_or_build : grows sync_or_build.
Proof. unfold sync_or_build. repeat grows_step; apply grows_build_begin. Qed.

Lemma grows_run_build_begin : grows run_build_begin.
Proof.
  unfold run_build_begin. repeat grows_step;
    [apply grows_build_header | apply grows_apply_config | apply grows_sync_or_build].
Qed.

Lemma grows_run_build_end b code : grows (run_build_end b code).
Proof. unfold run_build_end. repeat grows_step; apply grows_package_outputs. Qed.

(** ** What never changes on a job, and where its archive goes *)

Lemma evolves_refl j : evolves j j.
Proof. unfold evolves. repeat split; auto. Qed.

Lemma evolves_trans j1 j2 j3 : evolves j1 j2 -> evolves j2 j3 -> evolves j1 j3.
Proof.
  intros (A1&B1&C1&D1&E1&F1) (A2&B2&C2&D2&E2&F2). unfold evolves.
  repeat split; try congruence.
  - etransitivity; eassumption.
  - rewrite D1 in F2.
    destruct F1 as [F1|F1], F2 as [F2|F2]; auto; solve [left; congruence | right; congruence].
Qed.

Lemma evolves_forget_log j j' :
  forget_log j' = forget_log j -> log j `prefix_of` log j' -> evolves j j'.
Proof.
  intros H Hl. apply forget_log_fields in H. destruct H as (?&?&?&?&?&?&?&?&?&?).
  unfold evolves. repeat split; auto.
Qed.

Lemma quiet_keeps_location {A} (m : M A) : quiet m -> keeps_location m.
Proof.
  intros H s. destruct (H s) as [Hj _].
  apply forget_log_fields in Hj. destruct Hj as (?&?&?&?&?&?&?&?&?&?). auto.
Qed.

Lemma located_bind {A B} (m : M A) (k : A -> M B) j s :
  keeps_location m ->
  artifact_path s.1 = artifact_path j -> build_id s.1 = build_id j ->
  (forall a s1, m s = (Ret a, s1) ->
                artifact_path s1.1 = artifact_path j -> build_id s1.1 = build_id j ->
                located j (k a s1).2.1) ->
  located j (bind m k s).2.1.
Proof.
  intros Hm Ha Hb Hk. unfold bind. destruct (Hm s) as [Ha1 Hb1].
  destruct (m s) as [[a|e] s1] eqn:E; cbn [fst snd] in *.
  - apply (Hk a s1 eq_refl); congruence.
  - split; [congruence | left; congruence].
Qed.

Lemma located_keeps {A} (m : M A) j s :
  keeps_location m ->
  artifact_path s.1 = artifact_path j -> build_id s.1 = build_id j ->
  located j (m s).2.1.
Proof.
  intros Hm Ha Hb. destruct (Hm s) as [Ha1 Hb1]. split; [congruence | left; congruence].
Qed.

Lemma create_artifact_located pkgs j s :
  artifact_path s.1 = artifact_path j -> build_id s.1 = build_id j ->
  located j (_create_artifact pkgs s).2.1.
Proof.
  intros Ha Hb. unfold _create_artifact.
  apply located_bind; [apply quiet_keeps_location, quiet_fsM | exact Ha | exact Hb|].
  intros [] s1 _ Ha1 Hb1.
  apply located_bind; [apply quiet_keeps_location, quiet_get_job | exact Ha1 | exact Hb1|].
  intros job s2 Hjob Ha2 Hb2. injection Hjob as <- <-. cbv zeta.
  apply located_bind; [apply quiet_keeps_location, quiet_logM | exact Ha2 | exact Hb2|].
  intros [] s3 _ Ha3 Hb3.
  apply located_bind; [apply quiet_keeps_location, quiet_tar_open | exact Ha3 | exact Hb3|].
  intros tar s4 _ Ha4 Hb4.
  apply located_bind; [apply quiet_keeps_location, quiet_add_packages | exact Ha4 | exact Hb4|].
  intros [] [j5 w5] _ Ha5 Hb5.
  unfold bind at 1. cbn [mod_job fst snd].
  match goal with |- located j (bind get_world ?k ?s).2.1 =>
    assert (Hq : quiet (bind get_world k)) end.
  { apply quiet_bind; [apply quiet_get_world|]. intros w0.
    destruct (stat (fs w0) _); [apply quiet_logM | apply quiet_raise]. }
  match goal with |- located j (?m ?s).2.1 => destruct (Hq s) as [Hj _] end.
  apply forget_log_fields in Hj. destruct Hj as (_&_&_&Hid&_&_&_&_&_&Hart).
  split.
  - rewrite Hid. exact Hb5.
  - right. rewrite Hart. cbn [fst artifact_path set_artifact_path].
    unfold artifact_of. rewrite Hb1. reflexivity.
Qed.

Lemma package_outputs_located b j w : located j (package_outputs b (j, w)).2.1.
Proof.
  unfold package_outputs.
  apply located_bind; [apply quiet_keeps_location, quiet_get_world | reflexivity | reflexivity|].
  intros f s1 _ Ha1 Hb1. cbv zeta.
  apply located_bind; [apply quiet_keeps_location, quiet_liftE | exact Ha1 | exact Hb1|].
  intros built s2 _ Ha2 Hb2.
  apply located_bind; [intros [j0 w0]; split; reflexivity | exact Ha2 | exact Hb2|].
  intros [] s3 _ Ha3 Hb3.
  apply located_bind; [apply quiet_keeps_location, quiet_logM | exact Ha3 | exact Hb3|].
  intros [] s4 _ Ha4 Hb4.
  apply located_bind; [apply quiet_keeps_location, quiet_log_each | exact Ha4 | exact Hb4|].
  intros [] s5 _ Ha5 Hb5.
  destruct (iteration _ _).
  - split; [exact Hb5 | left; exact Ha5].
  - apply create_artifact_located; assumption.
Qed.

(** ** A relation kept by every step

    [R] relates a job to its later states when it is a preorder, holds
    across each piece of [_run_build] and across what the worker's handler
    and [finally] do. *)
Lemma step_related (R : BuildJob -> BuildJob -> Prop) ev s s' r j :
  (forall j, R j j) ->
  (forall j1 j2 j3, R j1 j2 -> R j2 j3 -> R j1 j3) ->
  (forall e d j, R j (failed_job e d j)) ->
  (forall d j, R j (set_completed_at (Some d) j)) ->
  (forall j w, fresh j -> R j (run_build_begin (j, w)).2.1) ->
  (forall text j, R j (append_log text j)) ->
  (forall b code j w, R j (run_build_end b code (j, w)).2.1) ->
  Inv s -> step ev s = Some s' -> heap s !! r = Some j ->
  exists j', heap s' !! r = Some j' /\ R j j'.
Proof.
  intros Hrefl Htrans Hfail Hdone Hbegin Hlog Hend HI Hstep Hl.
  assert (Hres : forall {A} r0 (m : M A) next last s0,
             heap s0 = heap s -> world s0 = world s ->
             (forall j0, heap s !! r0 = Some j0 -> R j0 (m (j0, world s)).2.1) ->
             resume r0 m next last s0 = Some s' ->
             exists j', heap s' !! r = Some j' /\ R j j').
  { intros A r0 m next last s0 Hh0 Hw0 Hseg Hr.
    apply resume_spec in Hr. destruct Hr as (j0 & Hl0 & _ & _ & Hcase).
    rewrite Hh0 in Hl0. specialize (Hseg j0 Hl0). rewrite Hw0, Hh0 in Hcase.
    assert (Hlt : (r0 < length (heap s))%nat) by (apply lookup_lt_Some in Hl0; exact Hl0).
    assert (Hgo : forall X, heap s' = <[r0 := X]> (heap s) -> R j0 X ->
                            exists j', heap s' !! r = Some j' /\ R j j').
    { intros X Hh HR. rewrite Hh. destruct (decide (r = r0)) as [->|Hne].
      - exists X. rewrite list_lookup_insert_eq by exact Hlt.
        split; [reflexivity|]. assert (j0 = j) as -> by congruence. exact HR.
      - exists j. rewrite list_lookup_insert_ne by congruence. auto. }
    destruct Hcase as [(a & j1 & w1 & Hm & _ & Hh & _)
                      |[(a & j1 & w1 & Hm & _ & Hh & _)|(e & j1 & w1 & Hm & Hh & _)]];
      rewrite Hm in Hseg; apply (Hgo _ Hh); eauto. }
  unfold step in Hstep.
  destruct ev as [pkgs hash uuid|f| | |e|text|e|code].
  - destruct (path_exists _ _); [|destruct (wpc s); discriminate].
    assert (s' = submit (new_job pkgs hash (path_join CONFIG_CACHE hash) uuid) s)
      as -> by (destruct (wpc s); congruence).
    exists j. split; [apply lookup_app_l_Some; exact Hl | apply Hrefl].
  - assert (s' = mkServer (heap s) (jobs s) (queue s) (current_job s) (wpc s)
                          (set_fs f (world s))) as -> by (destruct (wpc s); congruence).
    exists j. auto.
  - destruct (wpc s) eqn:Hpc; try discriminate.
    destruct (queue s) as [|r0 q] eqn:Hq; [discriminate|].
    apply (Hres _ r0 run_build_begin (Spawning r0) false
                (mkServer (heap s) (jobs s) q (Some r0) Idle (world s)) eq_refl eq_refl);
      [|exact Hstep].
    intros j0 Hl0. apply Hbegin. eapply Inv_head_fresh; eassumption.
  - destruct (wpc s) as [|r0 st|r0 st]; try discriminate. injection Hstep as <-.
    exists j. auto.
  - destruct (wpc s) as [|r0 st|r0 st]; try discriminate.
    eapply (Hres _ r0 _ _ _ s eq_refl eq_refl); [|exact Hstep].
    intros j0 _. apply Hrefl.
  - destruct (wpc s) as [|r0 st|r0 st]; try discriminate.
    destruct (readable text); [|discriminate].
    eapply (Hres _ r0 _ _ _ s eq_refl eq_refl); [|exact Hstep].
    intros j0 _. apply Hlog.
  - destruct (wpc s) as [|r0 st|r0 st]; try discriminate.
    eapply (Hres _ r0 _ _ _ s eq_refl eq_refl); [|exact Hstep].
    intros j0 _. apply Hrefl.
  - destruct (wpc s) as [|r0 st|r0 st]; try discriminate. destruct st as [|b].
    + eapply (Hres _ r0 _ _ _ s eq_refl eq_refl); [|exact Hstep].
      intros j0 _. destruct (build_begin_spec j0 (world s)) as (b & text & ->). apply Hlog.
    + eapply (Hres _ r0 _ _ _ s eq_refl eq_refl); [|exact Hstep].
      intros j0 _. apply Hend.
Qed.

Lemma evolves_run_build_begin j w : evolves j (run_build_begin (j, w)).2.1.
Proof.
  pose proof (run_build_begin_frame j w) as (Fj & _). cbv zeta in Fj.
  pose proof (grows_run_build_begin (j, w)) as Hg.
  apply forget_log_fields in Fj. destruct Fj as (?&?&?&?&?&?&?&?&?&?).
  unfold evolves. repeat split; auto.
Qed.

Lemma evolves_run_build_end b code j w : evolves j (run_build_end b code (j, w)).2.1.
Proof.
  pose proof (grows_run_build_end b code (j, w)) as Hg.
  destruct (decide (code = 0)) as [->|Hne].
  - pose proof (run_build_end_zero b j w) as Hz.
    pose proof (package_outputs_located b j w) as [Hid Hloc].
    pose proof (calm_package_outputs b (j, w)) as [Hcalm _].
    apply forget_out_static in Hcalm. destruct Hcalm as (Hp & Hh & Hc & _).
    destruct (run_build_end b 0 (j, w)) as [[[]|e] [j1 w1]].
    + destruct Hz as (jp & wp & Hpo & Hj1 & _). rewrite Hpo in Hid, Hloc, Hp, Hh, Hc.
      apply forget_log_fields in Hj1. destruct Hj1 as (F1&F2&F3&F4&_&_&_&_&_&F10).
      cbn [fst snd] in *. cbn in F1, F2, F3, F4, F10.
      unfold evolves. cbn [fst snd].
      split; [congruence|]. split; [congruence|]. split; [congruence|].
      split; [congruence|]. split; [exact Hg|].
      destruct Hloc as [Hloc|Hloc]; [left | right]; congruence.
    + rewrite Hz in Hid, Hloc, Hp, Hh, Hc. cbn [fst snd] in *.
      unfold evolves. cbn [fst snd].
      split; [congruence|]. split; [congruence|]. split; [congruence|].
      split; [congruence|]. split; [exact Hg|]. exact Hloc.
  - rewrite (run_build_end_nonzero b code j w Hne). unfold evolves. cbn.
    repeat split; auto.
Qed.

Lemma evolves_append_log text j : evolves j (append_log text j).
Proof. apply evolves_forget_log; [reflexivity | apply prefix_app_r; reflexivity]. Qed.

Lemma evolves_step ev s s' r j :
  Inv s -> step ev s = Some s' -> heap s !! r = Some j ->
  exists j', heap s' !! r = Some j' /\ evolves j j'.
Proof.
  apply step_related.
  - apply evolves_refl.
  - apply evolves_trans.
  - intros e d j0. unfold evolves, failed_job. cbn.
    repeat split; auto. apply prefix_app_r. reflexivity.
  - intros d j0. unfold evolves. cbn. repeat split; auto.
  - intros j0 w _. apply evolves_run_build_begin.
  - apply evolves_append_log.
  - apply evolves_run_build_end.
Qed.

Lemma evolves_run evs : forall s s' r j,
  Inv s -> run evs s = Some s' -> heap s !! r = Some j ->
  exists j', heap s' !! r = Some j' /\ evolves j j'.
Proof.
  induction evs as [|ev evs IH]; intros s s' r j HI Hrun Hl; cbn [run] in Hrun.
  - injection Hrun as <-. exists j. split; [exact Hl | apply evolves_refl].
  - destruct (step ev s) as [s1|] eqn:E; [|discriminate]. cbn in Hrun.
    destruct (evolves_step ev s s1 r j HI E Hl) as (j1 & Hl1 & H1).
    destruct (IH s1 s' r j1 (Inv_step _ _ _ HI E) Hrun Hl1) as (j' & Hl' & H').
    exists j'. split; [exact Hl' | eapply evolves_trans; eassumption].
Qed.

(** X2: whatever happens between two moments of a reachable server, a job
    known at the first is still known at the second, with the same
    requested packages, configuration hash, configuration path and build
    id, and with a log that extends the log it had: what a reader saw of the
    log is a prefix of what any later reader sees. *)
Theorem job_request_is_kept_and_log_only_grows
        (s s' : Server) (evs : list event) (r : nat) (j : BuildJob) :
  reachable s -> run evs s = Some s' -> heap s !! r = Some j ->
  exists j', heap s' !! r = Some j'
             /\ packages j' = packages j /\ config_hash j' = config_hash j
             /\ config_path j' = config_path j /\ build_id j' = build_id j
             /\ log j `prefix_of` log j'.
Proof.
  intros Hreach Hrun Hl.
  destruct (evolves_run evs s s' r j (Inv_reachable s Hreach) Hrun Hl)
    as (j' & Hl' & H1 & H2 & H3 & H4 & H5 & _).
  exists j'. repeat split; assumption.
Qed.

Lemma job_request_is_kept_and_log_only_grows_witness :
  exists j', heap demo_reading !! 0%nat = Some j'
             /\ packages j' = packages (demo_first_job demo_queued)
             /\ config_hash j' = config_hash (demo_first_job demo_queued)
             /\ config_path j' = config_path (demo_first_job demo_queued)
             /\ build_id j' = build_id (demo_first_job demo_queued)
             /\ log (demo_first_job demo_queued) `prefix_of` log j'.
Proof.
  apply (job_request_is_kept_and_log_only_grows demo_queued demo_reading
           [Get; Spawned; Exited 0; Spawned] 0%nat (demo_first_job demo_queued)
           demo_queued_reachable).
  - vm_compute. reflexivity.
  - vm_compute. reflexivity.
Defined.

Lemma step_heap ev s s' r j' :
  step ev s = Some s' -> heap s' !! r = Some j' ->
  is_Some (heap s !! r) \/ (fresh j' /\ log j' = []).
Proof.
  intros Hstep Hl'.
  assert (Hres : forall {A} r0 (m : M A) next last s0,
             heap s0 = heap s -> resume r0 m next last s0 = Some s' ->
             is_Some (heap s !! r) \/ (fresh j' /\ log j' = [])).
  { intros A r0 m next last s0 Hh0 Hr. apply resume_spec in Hr.
    destruct Hr as (j0 & _ & _ & _ & Hcase). rewrite Hh0 in Hcase. left.
    apply lookup_lt_is_Some. apply lookup_lt_Some in Hl'.
    destruct Hcase as [(a & j1 & w1 & _ & _ & Hh & _)
                      |[(a & j1 & w1 & _ & _ & Hh & _)|(e & j1 & w1 & _ & Hh & _)]];
      rewrite Hh, length_insert in Hl'; exact Hl'. }
  unfold step in Hstep.
  destruct ev as [pkgs hash uuid|f| | |e|text|e|code].
  - destruct (path_exists _ _); [|destruct (wpc s); discriminate].
    assert (s' = submit (new_job pkgs hash (path_join CONFIG_CACHE hash) uuid) s)
      as -> by (destruct (wpc s); congruence).
    cbn [heap submit] in Hl'.
    destruct (decide (r < length (heap s))%nat) as [Hlt|Hge].
    + left. apply lookup_lt_is_Some. exact Hlt.
    + right. rewrite lookup_app_r in Hl' by lia.
      destruct (r - length (heap s))%nat; cbn in Hl'; [|discriminate].
      injection Hl' as <-. split; [apply fresh_new_job | reflexivity].
  - assert (s' = mkServer (heap s) (jobs s) (queue s) (current_job s) (wpc s)
                          (set_fs f (world s))) as -> by (destruct (wpc s); congruence).
    left. exists j'. exact Hl'.
  - destruct (wpc s); try discriminate. destruct (queue s) as [|r0 q]; [discriminate|].
    eapply (Hres _ _ _ _ _ (mkServer (heap s) (jobs s) q (Some r0) Idle (world s)) eq_refl).
    exact Hstep.
  - destruct (wpc s); try discriminate. injection Hstep as <-. left. exists j'. exact Hl'.
  - destruct (wpc s); try discriminate. eapply (Hres _ _ _ _ _ s eq_refl). exact Hstep.
  - destruct (wpc s); try discriminate.
    destruct (readable text); [|discriminate]. eapply (Hres _ _ _ _ _ s eq_refl). exact Hstep.
  - destruct (wpc s); try discriminate. eapply (Hres _ _ _ _ _ s eq_refl). exact Hstep.
  - destruct (wpc s) as [| |r0 st]; try discriminate.
    destruct st; eapply (Hres _ _ _ _ _ s eq_refl); exact Hstep.
Qed.

Lemma well_located_run evs : forall s s',
  Inv s -> well_located s -> run evs s = Some s' -> well_located s'.
Proof.
  induction evs as [|ev evs IH]; intros s s' HI Hwl Hrun; cbn [run] in Hrun.
  - injection Hrun as <-. exact Hwl.
  - destruct (step ev s) as [s1|] eqn:E; [|discriminate]. cbn in Hrun.
    apply (IH s1 s' (Inv_step _ _ _ HI E)); [|exact Hrun].
    intros r j1 Hl1.
    destruct (step_heap ev s s1 r j1 E Hl1) as [[j Hl]|[Hf _]].
    + destruct (evolves_step ev s s1 r j HI E Hl) as (j1' & Hl1' & Hev).
      assert (j1' = j1) as -> by congruence.
      destruct Hev as (_ & _ & _ & Hid & _ & Hloc). rewrite Hid.
      destruct Hloc as [Hloc|Hloc]; [|right; congruence].
      rewrite Hloc. destruct (Hwl r j Hl); auto.
    + left. apply Hf.
Qed.

(** X3: the artifact location of a job, when it has one, is
    [/var/cache/e4e/artifacts/<build_id>.tar]. *)
Theorem artifact_is_named_after_the_build (s : Server) (r : nat) (j : BuildJob) :
  reachable s -> heap s !! r = Some j ->
  artifact_path j = None \/ artifact_path j = Some (artifact_of (build_id j)).
Proof.
  intros (w & evs & Hrun) Hl.
  refine (well_located_run evs (init w) s (Inv_init w) _ Hrun r j Hl).
  intros r0 j0 H0. cbn in H0. rewrite lookup_nil in H0. discriminate.
Qed.

Lemma demo_built_reachable : reachable demo_built.
Proof.
  exists demo_world,
    [demo_submit "id1"; demo_submit "id2"; Get; Spawned; Exited 0; Spawned;
     Touch (new_package_written (fs (world demo_reading)))].
  vm_compute. reflexivity.
Qed.

Lemma demo_complete_reachable : reachable demo_complete.
Proof.
  exists demo_world,
    [demo_submit "id1"; demo_submit "id2"; Get; Spawned; Exited 0; Spawned;
     Touch (new_package_written (fs (world demo_reading))); Exited 0].
  vm_compute. reflexivity.
Qed.

Lemma artifact_is_named_after_the_build_witness :
  artifact_path (demo_first_job demo_complete) = None
  \/ artifact_path (demo_first_job demo_complete)
     = Some (artifact_of (build_id (demo_first_job demo_complete))).
Proof.
  apply (artifact_is_named_after_the_build demo_complete 0%nat
           (demo_first_job demo_complete) demo_complete_reachable).
  vm_compute. reflexivity.
Defined.

(** ** Times are written once *)

Lemma forget_out_times j j' :
  forget_out j' = forget_out j ->
  status j' = status j /\ error j' = error j
  /\ started_at j' = started_at j /\ completed_at j' = completed_at j.
Proof. intros H. injection H. intros. repeat split; assumption. Qed.

Lemma started_at_run_build_end b code j w :
  started_at (run_build_end b code (j, w)).2.1 = started_at j.
Proof.
  destruct (decide (code = 0)) as [->|Hne].
  - pose proof (run_build_end_zero b j w) as Hz.
    pose proof (calm_package_outputs b (j, w)) as [Hcalm _].
    apply forget_out_times in Hcalm. destruct Hcalm as (_ & _ & Hs & _).
    destruct (run_build_end b 0 (j, w)) as [[[]|e] [j1 w1]].
    + destruct Hz as (jp & wp & Hpo & Hj1 & _). rewrite Hpo in Hs.
      apply forget_log_fields in Hj1. destruct Hj1 as (_&_&_&_&_&_&_&F8&_).
      cbn [fst snd] in *. cbn in F8. congruence.
    + rewrite Hz in Hs. exact Hs.
  - rewrite (run_build_end_nonzero b code j w Hne). reflexivity.
Qed.

Lemma started_at_step ev s s' r j :
  Inv s -> step ev s = Some s' -> heap s !! r = Some j ->
  exists j', heap s' !! r = Some j' /\ (started_at j <> None -> started_at j' = started_at j).
Proof.
  apply (step_related (fun j j' => started_at j <> None -> started_at j' = started_at j)).
  - reflexivity.
  - intros j1 j2 j3 H12 H23 Hne. rewrite H23; [apply H12; exact Hne|].
    rewrite H12; assumption.
  - reflexivity.
  - reflexivity.
  - intros j0 w (_&_&_&_&Hs&_) Hne. contradiction.
  - reflexivity.
  - intros b code j0 w _. apply started_at_run_build_end.
Qed.

Lemma completed_step ev s s' r j :
  Inv s -> step ev s = Some s' -> heap s !! r = Some j -> completed_at j <> None ->
  heap s' !! r = Some j.
Proof.
  intros HI Hstep Hl Hc.
  destruct (step_effect ev s s' HI Hstep) as [[_ Hsame]|(r0 & j0 & j0' & new & Hl0 & Hh & Hwj & _)].
  - apply Hsame. exact Hl.
  - destruct (decide (r = r0)) as [->|Hne].
    + assert (j0 = j) as -> by congruence.
      destruct Hwj as [(_&_&_&Hf)|(_&_&_&Hb)].
      * destruct Hf as (_&_&_&_&_&Hn). contradiction.
      * destruct Hb as (_&_&_&_&_&Hn). contradiction.
    + rewrite Hh, list_lookup_insert_ne by congruence. exact Hl.
Qed.

(** X4: the start time of a job is written once, and a job that has a
    completion time is never touched again: whatever happens afterwards,
    every field of it, the log included, stays as it is. *)
Theorem times_are_written_once
        (s s' : Server) (evs : list event) (r : nat) (j : BuildJob) :
  reachable s -> run evs s = Some s' -> heap s !! r = Some j ->
  exists j', heap s' !! r = Some j'
             /\ (started_at j <> None -> started_at j' = started_at j)
             /\ (completed_at j <> None -> j' = j).
Proof.
  intros Hreach. pose proof (Inv_reachable s Hreach) as HI. clear Hreach.
  revert s s' j HI.
  induction evs as [|ev evs IH]; intros s s' j HI Hrun Hl; cbn [run] in Hrun.
  - injection Hrun as <-. exists j. auto.
  - destruct (step ev s) as [s1|] eqn:E; [|discriminate]. cbn in Hrun.
    destruct (started_at_step ev s s1 r j HI E Hl) as (j1 & Hl1 & Hs1).
    destruct (IH s1 s' j1 (Inv_step _ _ _ HI E) Hrun Hl1) as (j' & Hl' & Hs' & Hc').
    exists j'. split; [exact Hl'|]. split.
    + intros Hne. rewrite Hs'; [apply Hs1; exact Hne|]. rewrite Hs1; assumption.
    + intros Hne. pose proof (completed_step ev s s1 r j HI E Hl Hne) as Hsame.
      assert (j1 = j) as -> by congruence. apply Hc'. exact Hne.
Qed.

Lemma times_are_written_once_witness :
  exists j', heap demo_next !! 0%nat = Some j'
             /\ (started_at (demo_first_job demo_complete) <> None ->
                 started_at j' = started_at (demo_first_job demo_complete))
             /\ (completed_at (demo_first_job demo_complete) <> None ->
                 j' = demo_first_job demo_complete).
Proof.
  apply (times_are_written_once demo_complete demo_next [Get] 0%nat
           (demo_first_job demo_complete) demo_complete_reachable).
  - vm_compute. reflexivity.
  - vm_compute. reflexivity.
Defined.

(** ** What the status of a job tells *)

Lemma Inv_queue_elem s r :
  Inv s -> (r < length (heap s))%nat -> (r ∈ queue s <-> (started s <= r)%nat).
Proof.
  intros HI Hlt. rewrite (inv_queue s HI), elem_of_seq.
  pose proof (inv_len s HI). unfold started in *. lia.
Qed.

(** X5: in every state of the server the fields of a job agree with its
    status: it is Queued exactly when it has no start time, and exactly
    when it is in the queue; it is Building exactly when it is the current
    job; it is Complete or Failed exactly when it has a completion time;
    and it is Failed exactly when it has an error text. *)
Theorem job_fields_agree_with_status (s : Server) (r : nat) (j : BuildJob) :
  reachable s -> heap s !! r = Some j ->
  (status j = QUEUED <-> started_at j = None)
  /\ (status j = QUEUED <-> r ∈ queue s)
  /\ (status j = BUILDING <-> current_job s = Some r)
  /\ (terminal (status j) <-> completed_at j <> None)
  /\ (status j = FAILED <-> error j <> None).
Proof.
  intros Hreach Hl. pose proof (Inv_reachable s Hreach) as HI.
  pose proof (Inv_queue_elem s r HI (lookup_lt_Some _ _ _ Hl)) as Hq.
  rewrite (inv_current s HI). unfold terminal.
  destruct (inv_jobs s HI r j Hl)
    as [[Hge (Hs&_&_&He&Hst&Hc)]
       |[[Hr (Hs&_&_&He&Hst&Hc)]
        |(Hlt & Hr & Ht & Hst & Hc & He)]].
  - rewrite Hs, Hst, Hc, He, Hq.
    repeat split; try tauto; try discriminate; try congruence; try (intros [?|?]; discriminate).
    intros Hrun. pose proof (inv_running s HI r Hrun). lia.
  - pose proof (inv_running s HI r Hr). rewrite Hs, Hc, He, Hq.
    repeat split; try tauto; try discriminate; try congruence; try lia;
      try (intros [?|?]; discriminate).
  - rewrite Hq. unfold terminal in Ht.
    repeat split; try tauto; try lia;
      try (destruct Ht as [Ht|Ht]; rewrite Ht; intros; try discriminate; try contradiction;
           try tauto; try congruence; fail).
Qed.

Lemma job_fields_agree_with_status_witness :
  (status (demo_first_job demo_complete) = QUEUED
   <-> started_at (demo_first_job demo_complete) = None)
  /\ (status (demo_first_job demo_complete) = QUEUED <-> 0%nat ∈ queue demo_complete)
  /\ (status (demo_first_job demo_complete) = BUILDING <-> current_job demo_complete = Some 0%nat)
  /\ (terminal (status (demo_first_job demo_complete))
      <-> completed_at (demo_first_job demo_complete) <> None)
  /\ (status (demo_first_job demo_complete) = FAILED
      <-> error (demo_first_job demo_complete) <> None).
Proof.
  apply (job_fields_agree_with_status demo_complete 0%nat (demo_first_job demo_complete)
           demo_complete_reachable).
  vm_compute. reflexivity.
Defined.

(** ** The sync command *)

(** X6: the exit code of the sync command is not looked at.  When the sync
    command has exited, with whatever code, the job is still Building, its
    log has only grown, and the build command is the next, and only,
    command started. *)
Theorem sync_exit_code_is_ignored (s : Server) (r : nat) (code : Z) :
  reachable s -> wpc s = Reading r Sync ->
  exists s' j b text,
    step (Exited code) s = Some s'
    /\ heap s !! r = Some j
    /\ heap s' !! r = Some (append_log text j)
    /\ status j = BUILDING /\ error j = None
    /\ wpc s' = Spawning r (Build b)
    /\ current_job s' = Some r
    /\ spawned (world s') = spawned (world s) ++ [emerge_cmd j].
Proof.
  intros Hreach Hpc. pose proof (Inv_reachable s Hreach) as HI.
  assert (Hr : running s = Some r) by (unfold running; rewrite Hpc; reflexivity).
  destruct (Inv_running_lookup s r HI Hr) as [j Hl].
  pose proof (Inv_running_building s r j HI Hr Hl) as (Hs & _ & _ & He & _).
  destruct (build_begin_spec j (world s)) as (b & text & Hb).
  assert (Hlt : (r < length (heap s))%nat) by (apply lookup_lt_Some in Hl; exact Hl).
  exists (mkServer (<[r := append_log text j]> (heap s)) (jobs s) (queue s) (current_job s)
                   (Spawning r (Build b)) (with_spawn (emerge_cmd j) (world s))),
         j, b, text.
  split.
  - unfold step. rewrite Hpc. unfold resume. rewrite Hl. cbn [mbind option_bind].
    rewrite (guarded_ret _ _ _ _ Hb). reflexivity.
  - cbn [heap wpc world current_job]. rewrite list_lookup_insert_eq by exact Hlt.
    rewrite (inv_current s HI), Hr. repeat split; auto.
Qed.

Lemma sync_exit_code_is_ignored_witness :
  exists s' j b text,
    step (Exited 1) demo_syncing = Some s'
    /\ heap demo_syncing !! 0%nat = Some j
    /\ heap s' !! 0%nat = Some (append_log text j)
    /\ status j = BUILDING /\ error j = None
    /\ wpc s' = Spawning 0%nat (Build b)
    /\ current_job s' = Some 0%nat
    /\ spawned (world s') = spawned (world demo_syncing) ++ [emerge_cmd j].
Proof.
  apply (sync_exit_code_is_ignored demo_syncing 0%nat 1).
  - exists demo_world, [demo_submit "id1"; demo_submit "id2"; Get; Spawned].
    vm_compute. reflexivity.
  - vm_compute. reflexivity.
Defined.

(** ** The output of a command *)







(** ** The outputs of a job and its status *)

Lemma bind_raise_inv {A B} (m : M A) (k : A -> M B) s e s' :
  bind m k s = (Raise e, s') ->
  m s = (Raise e, s') \/ exists a s1, m s = (Ret a, s1) /\ k a s1 = (Raise e, s').
Proof.
  unfold bind. destruct (m s) as [[a|e0] s1]; [right; eauto|].
  intros H. injection H as <- <-. left. reflexivity.
Qed.

Lemma forget_log_artifact j j' :
  forget_log j' = forget_log j -> artifact_path j' = artifact_path j.
Proof. intros H. injection H. intros. assumption. Qed.

Lemma report_artifact_raise artifact j w e s' :
  report_artifact artifact (j, w) = (Raise e, s') -> stat (fs w) artifact = None.
Proof.
  unfold report_artifact, bind, get_world. cbn [fst snd].
  destruct (stat (fs w) artifact); [discriminate | reflexivity].
Qed.

Lemma quiet_job {A} (m : M A) j w o j' w' :
  quiet m -> m (j, w) = (o, (j', w')) -> forget_log j' = forget_log j.
Proof. intros Hq H. pose proof (Hq (j, w)) as [Q _]. rewrite H in Q. exact Q. Qed.

(** When [_create_artifact] raises, no location has been recorded. *)
Lemma create_artifact_raise pkgs j w e j' w' :
  _create_artifact pkgs (j, w) = (Raise e, (j', w')) -> artifact_path j' = artifact_path j.
Proof.
  unfold _create_artifact. intros H.
  apply bind_raise_inv in H. destruct H as [H | ([] & s1 & H1 & H)].
  { apply (quiet_job (fsM (fun f => mkdir_p f artifact_dir)) j w _ j' w' (quiet_fsM _)) in H.
    apply forget_log_artifact in H. exact H. }
  apply fsM_ret_inv in H1. destruct H1 as (f1 & _ & ->).
  apply bind_raise_inv in H. destruct H as [H | (j0 & s2 & H2 & H)]; [discriminate|].
  injection H2 as <- <-.
  revert H. cbv zeta. cbn [fst].
  set (artifact := path_join artifact_dir (build_id j ++ lit ".tar")).
  intros H.
  apply bind_raise_inv in H. destruct H as [H | ([] & s3 & H3 & H)]; [discriminate|].
  assert (s3 = (append_log (nl ++ lit "=== Creating artifact tarball ===" ++ nl) j, set_fs f1 w))
    as -> by (revert H3; unfold logM, mod_job; cbn [fst snd]; congruence).
  apply bind_raise_inv in H. destruct H as [H | (q & s4 & H4 & H)].
  { apply (quiet_job (tar_open artifact) _ _ _ j' w' (quiet_tar_open _)) in H.
    apply forget_log_artifact in H. exact H. }
  apply tar_open_inv in H4. destruct H4 as (f2 & Hc & Hold & Hw & ->).
  apply fs_write_ok in Hw. destruct Hw as [Hne Hset].
  destruct (stat_write_leaf _ q _ f2 artifact Hset Hne eq_refl Hold Hc) as [Hc2 _].
  pose proof (raw_lookup_set_eq _ q _ f2 Hne Hset) as Hq2.
  apply bind_raise_inv in H. destruct H as [H | ([] & [j5 w5] & H5 & H)].
  { apply (quiet_job (add_packages q pkgs) _ _ _ j' w' (quiet_add_packages _ _)) in H.
    apply forget_log_artifact in H. exact H. }
  destruct (add_packages_ret artifact q pkgs _ (set_fs f2 (set_fs f1 w)) j5 w5 [] Hc2 Hq2 H5)
    as (ms & names & Hc5 & Hq5 & Hn & _).
  apply bind_raise_inv in H. destruct H as [H | ([] & s6 & H6 & H)]; [discriminate|].
  assert (s6 = (set_artifact_path (Some artifact) j5, w5))
    as -> by (revert H6; unfold mod_job; cbn [fst snd]; congruence).
  apply (report_artifact_raise artifact) in H.
  assert (Hst : stat (fs w5) artifact = Some (Tar ([] ++ ms)))
    by (unfold stat; rewrite Hc5; exact Hq5).
  rewrite Hst in H. discriminate.
Qed.

Lemma package_outputs_raise b j w e j' w' :
  package_outputs b (j, w) = (Raise e, (j', w')) -> artifact_path j' = artifact_path j.
Proof.
  unfold package_outputs. intros H.
  apply bind_raise_inv in H. destruct H as [H | (w0 & s1 & H1 & H)]; [discriminate|].
  assert (w0 = w /\ s1 = (j, w)) as [-> ->]
    by (revert H1; unfold get_world; cbn [fst snd]; intros H1; split; congruence).
  clear H1. revert H. cbv zeta. cbn [fst snd].
  set (new_packages := iteration w ((if path_exists (fs w) binpkg_dir then snapshot (fs w) else ∅) ∖ b)).
  intros H.
  apply bind_raise_inv in H. destruct H as [H | (built & s2 & H2 & H)].
  { destruct (rel_names new_packages) as [e0|names]; [|discriminate].
    injection H as _ <- _. reflexivity. }
  destruct (rel_names new_packages) as [e0|names] eqn:Hn; [discriminate|].
  injection H2 as <- <-.
  apply bind_raise_inv in H. destruct H as [H | ([] & s3 & H3 & H)]; [discriminate|].
  injection H3 as <-.
  apply bind_raise_inv in H. destruct H as [H | ([] & s4 & H4 & H)]; [discriminate|].
  apply bind_raise_inv in H. destruct H as [H | ([] & s5 & H5 & H)]; [discriminate|].
  match type of H4 with logM ?t _ = _ =>
    assert (s4 = (append_log t (set_packages_built names j), w))
      as -> by (revert H4; unfold logM, mod_job; cbn [fst snd]; congruence) end.
  match type of H5 with mod_job ?f ?s = _ =>
    assert (s5 = (f s.1, s.2))
      as -> by (revert H5; unfold mod_job; congruence) end.
  clear H4 H5. revert H. cbn [fst snd].
  match goal with |- _ (?a, _) = _ -> _ => set (j5 := a) end.
  assert (Hj5 : forget_log j5 = forget_log (set_packages_built names j)).
  { unfold j5. rewrite forget_log_foldl. reflexivity. }
  clearbody j5. intros H.
  apply forget_log_artifact in Hj5. cbn in Hj5.
  destruct new_packages as [|p ps] eqn:Hnew; [discriminate|].
  apply create_artifact_raise in H. congruence.
Qed.

(** What the end of a build leaves on a job that had no outputs: a location
    is recorded exactly when packages are listed, and only on a job that
    ends Complete; a job that raises has none. *)
Lemma run_build_end_outputs b code j w :
  artifact_path j = None -> packages_built j = [] ->
  match run_build_end b code (j, w) with
  | (Ret _, (j', _)) =>
      (artifact_path j' = None <-> packages_built j' = [])
      /\ (artifact_path j' <> None -> status j' = COMPLETE)
  | (Raise _, (j', _)) => artifact_path j' = None
  end.
Proof.
  intros Ha Hp. destruct (decide (code = 0)) as [->|Hne].
  - pose proof (run_build_end_zero b j w) as Hz.
    destruct (run_build_end b 0 (j, w)) as [[[]|e] [j1 w1]].
    + destruct Hz as (jp & wp & Hpo & Hj1 & _).
      apply forget_log_fields in Hj1. destruct Hj1 as (_&_&_&_&Hs&Hpb&_&_&_&Hart).
      cbn in Hs, Hpb, Hart.
      destruct (package_outputs_ret b j w jp wp Hpo) as (new & Hperm & Hn & Hnil & Hcons).
      apply rel_names_spec in Hn. rewrite Hpb, Hart. split; [|intros _; exact Hs].
      destruct (new_packages_of b (fs w)) as [|p ps].
      * apply Permutation_nil_r in Hperm. subst new.
        inversion Hn. destruct (Hnil eq_refl) as [_ ->]. rewrite Ha. tauto.
      * destruct new as [|q qs]; [apply Permutation_nil_l in Hperm; discriminate|].
        inversion Hn. destruct (Hcons ltac:(discriminate)) as [-> _].
        split; discriminate.
    + apply package_outputs_raise in Hz. congruence.
  - rewrite (run_build_end_nonzero b code j w Hne). cbn.
    rewrite Ha, Hp. split; [tauto | intros H; contradiction].
Qed.

Lemma outputs_agree_none j :
  artifact_path j = None -> packages_built j = [] -> outputs_agree j.
Proof. intros Ha Hp. unfold outputs_agree. rewrite Ha, Hp. split; [intros H; contradiction | tauto]. Qed.

Lemma outputs_agree_step ev s s' r j' :
  Inv s -> (forall r j, heap s !! r = Some j -> outputs_agree j) ->
  step ev s = Some s' -> heap s' !! r = Some j' -> outputs_agree j'.
Proof.
  intros HI Hall Hstep Hl'.
  destruct (step_heap ev s s' r j' Hstep Hl') as [[j Hl]|[Hf _]].
  2:{ destruct Hf as (_ & Hp & Ha & _). apply outputs_agree_none; assumption. }
  destruct (step_outputs ev s s' r j j' HI Hstep Hl Hl') as [[Hp Ha]|(b & -> & Hpc & _)].
  - destruct (inv_jobs s HI r j Hl) as [[_ Hj]|[[_ Hj]|(_ & _ & Hj)]].
    + destruct Hj as (_ & Hpj & Haj & _). apply outputs_agree_none; congruence.
    + destruct Hj as (_ & Hpj & Haj & _). apply outputs_agree_none; congruence.
    + destruct Hj as (_ & _ & Hc & _).
      pose proof (completed_step ev s s' r j HI Hstep Hl Hc) as Hsame.
      assert (j' = j) as -> by congruence. apply (Hall r j Hl).
  - assert (Hr : running s = Some r) by (unfold running; rewrite Hpc; reflexivity).
    pose proof (Inv_running_building s r j HI Hr Hl) as (_ & Hpj & Haj & _).
    assert (Hlt : (r < length (heap s))%nat) by (apply lookup_lt_Some in Hl; exact Hl).
    pose proof (run_build_end_outputs b 0 j (world s) Haj Hpj) as Hout.
    unfold step in Hstep. rewrite Hpc in Hstep.
    apply resume_spec in Hstep. destruct Hstep as (j0 & Hl0 & _ & _ & Hcase).
    assert (j0 = j) as -> by congruence.
    destruct Hcase as [(a & j1 & w1 & Hm & Hlast & _)
                      |[(a & j1 & w1 & Hm & _ & Hh & _)
                       |(e0 & j1 & w1 & Hm & Hh & _)]];
      try discriminate;
      rewrite Hh, list_lookup_insert_eq in Hl' by exact Hlt; injection Hl' as <-;
      rewrite Hm in Hout.
    + destruct Hout as [H1 H2]. split; [exact H2 | intros _; exact H1].
    + split; [intros H; contradiction | discriminate].
Qed.

Lemma outputs_agree_run evs : forall s s',
  Inv s -> (forall r j, heap s !! r = Some j -> outputs_agree j) ->
  run evs s = Some s' -> forall r j, heap s' !! r = Some j -> outputs_agree j.
Proof.
  induction evs as [|ev evs IH]; intros s s' HI Hall Hrun; cbn [run] in Hrun.
  - injection Hrun as <-. exact Hall.
  - destruct (step ev s) as [s1|] eqn:E; [|discriminate]. cbn in Hrun.
    apply (IH s1 s' (Inv_step _ _ _ HI E)); [|exact Hrun].
    intros r j. apply (outputs_agree_step ev s s1 r j HI Hall E).
Qed.

Lemma outputs_agree_reachable s r j :
  reachable s -> heap s !! r = Some j -> outputs_agree j.
Proof.
  intros (w & evs & Hrun).
  refine (outputs_agree_run evs (init w) s (Inv_init w) _ Hrun r j).
  intros r0 j0 H0. cbn in H0. rewrite lookup_nil in H0. discriminate.
Qed.

(** ** Outputs and status *)

(** C4, as stated, fails: the build command exits with code 0, one new
    package is found and recorded, making the archive raises, and the job
    ends Failed with a nonempty list of built packages. *)
Lemma failed_job_with_built_packages :
  exists s' j',
    step (Exited 0) blocked_built = Some s' /\ heap s' !! 0%nat = Some j'
    /\ status j' = FAILED /\ packages_built j' = [lit "new-1.gpkg.tar"].
Proof.
  eexists. eexists. split; [vm_compute; reflexivity|].
  split; [vm_compute; reflexivity|]. split; reflexivity.
Qed.

(** C4 (amended): a job has an artifact location only when it is
    Complete, and a job that is Queued or Building has an empty list of
    built packages and no artifact location.  The two fields are written
    only by the step that follows a build command exiting with code 0, for
    the job that ran it; that step leaves the job Complete, or Failed when
    the packaging code raised (the list recorded before the archive is made
    is then kept, so a Failed job can have a list that is not empty). *)
Theorem outputs_written_only_after_successful_build (s : Server) :
  reachable s ->
  (forall r j, heap s !! r = Some j -> artifact_path j <> None -> status j = COMPLETE)
  /\ (forall r j, heap s !! r = Some j -> status j = QUEUED \/ status j = BUILDING ->
                  packages_built j = [] /\ artifact_path j = None)
  /\ (forall ev s' r j j',
        step ev s = Some s' -> heap s !! r = Some j -> heap s' !! r = Some j' ->
        (packages_built j' = packages_built j /\ artifact_path j' = artifact_path j)
        \/ (exists b, ev = Exited 0 /\ wpc s = Reading r (Build b)
                      /\ (status j' = COMPLETE
                          \/ (status j' = FAILED
                              /\ exists e, raises (Exited 0) s e
                                           /\ error j' = Some (str_exn e))))).
Proof.
  intros Hreach. pose proof (Inv_reachable s Hreach) as HI. split; [|split].
  - intros r j Hl. exact (proj1 (outputs_agree_reachable s r j Hreach Hl)).
  - intros r j Hl Hs.
    destruct (inv_jobs s HI r j Hl) as [[_ Hf]|[[_ Hb]|(_ & _ & [[Hf|Hf] _])]].
    + split; apply Hf.
    + split; apply Hb.
    + destruct Hs; congruence.
    + destruct Hs; congruence.
  - intros ev s' r j j' Hstep Hl Hl'. eapply step_outputs; eassumption.
Qed.

Lemma outputs_written_only_after_successful_build_witness :
  (artifact_path (demo_first_job demo_building) <> None
   -> status (demo_first_job demo_building) = COMPLETE)
  /\ packages_built (demo_first_job demo_building) = []
  /\ artifact_path (demo_first_job demo_building) = None.
Proof.
  pose proof (outputs_written_only_after_successful_build demo_building demo_building_reachable)
    as (H1 & H2 & _).
  split.
  - refine (H1 0%nat (demo_first_job demo_building) _). vm_compute. reflexivity.
  - refine (H2 0%nat (demo_first_job demo_building) _ _).
    + vm_compute. reflexivity.
    + right. vm_compute. reflexivity.
Defined.

(** X8: a job has an artifact location only when it is Complete, and a
    Complete job has one exactly when its list of built packages is not
    empty.  So a Failed job never has an artifact, whatever it built. *)
Theorem artifact_recorded_iff_packages_built (s : Server) (r : nat) (j : BuildJob) :
  reachable s -> heap s !! r = Some j ->
  (artifact_path j <> None -> status j = COMPLETE)
  /\ (status j = COMPLETE -> (artifact_path j = None <-> packages_built j = [])).
Proof. intros Hreach Hl. exact (outputs_agree_reachable s r j Hreach Hl). Qed.

Lemma artifact_recorded_iff_packages_built_witness :
  (artifact_path (demo_first_job demo_complete) <> None
   -> status (demo_first_job demo_complete) = COMPLETE)
  /\ (status (demo_first_job demo_complete) = COMPLETE ->
      (artifact_path (demo_first_job demo_complete) = None
       <-> packages_built (demo_first_job demo_complete) = [])).
Proof.
  apply (artifact_recorded_iff_packages_built demo_complete 0%nat
           (demo_first_job demo_complete) demo_complete_reachable).
  vm_compute. reflexivity.
Defined.

(** ** The registry of jobs *)

Lemma step_jobs ev s s' :
  step ev s = Some s' ->
  jobs s' = jobs s
  \/ exists pkgs hash uuid,
       ev = Submit pkgs hash uuid
       /\ s' = submit (new_job pkgs hash (path_join CONFIG_CACHE hash) uuid) s.
Proof.
  intros Hstep.
  assert (Hres : forall {A} r0 (m : M A) next last s0,
             jobs s0 = jobs s -> resume r0 m next last s0 = Some s' -> jobs s' = jobs s).
  { intros A r0 m next last s0 Hj0 Hr. apply resume_spec in Hr.
    destruct Hr as (j0 & _ & Hj & _). congruence. }
  unfold step in Hstep.
  destruct ev as [pkgs hash uuid|f| | |e|text|e|code].
  - right. exists pkgs, hash, uuid. split; [reflexivity|].
    destruct (path_exists _ _); [|destruct (wpc s); discriminate].
    destruct (wpc s); congruence.
  - left. assert (s' = mkServer (heap s) (jobs s) (queue s) (current_job s) (wpc s)
                                (set_fs f (world s))) as -> by (destruct (wpc s); congruence).
    reflexivity.
  - left. destruct (wpc s); try discriminate. destruct (queue s) as [|r0 q]; [discriminate|].
    eapply (Hres _ _ _ _ _ (mkServer (heap s) (jobs s) q (Some r0) Idle (world s)) eq_refl).
    exact Hstep.
  - left. destruct (wpc s); try discriminate. injection Hstep as <-. reflexivity.
  - left. destruct (wpc s); try discriminate. eapply (Hres _ _ _ _ _ s eq_refl). exact Hstep.
  - left. destruct (wpc s); try discriminate.
    destruct (readable text); [|discriminate]. eapply (Hres _ _ _ _ _ s eq_refl). exact Hstep.
  - left. destruct (wpc s); try discriminate. eapply (Hres _ _ _ _ _ s eq_refl). exact Hstep.
  - left. destruct (wpc s) as [| |r0 st]; try discriminate.
    destruct st; eapply (Hres _ _ _ _ _ s eq_refl); exact Hstep.
Qed.

Lemma registered_step ev s s' :
  Inv s -> registered s -> step ev s = Some s' -> registered s'.
Proof.
  intros HI Hreg Hstep id r Hid.
  destruct (step_jobs ev s s' Hstep) as [Hj|(pkgs & hash & uuid & -> & ->)].
  - rewrite Hj in Hid. destruct (Hreg id r Hid) as (j & Hl & Hb).
    destruct (evolves_step ev s s' r j HI Hstep Hl) as (j' & Hl' & Hev).
    exists j'. split; [exact Hl'|]. destruct Hev as (_ & _ & _ & Hb' & _). congruence.
  - cbn [jobs heap submit build_id new_job] in *.
    destruct (decide (id = uuid)) as [->|Hne].
    + rewrite lookup_insert_eq in Hid. injection Hid as <-.
      exists (new_job pkgs hash (path_join CONFIG_CACHE hash) uuid).
      split; [|reflexivity].
      rewrite lookup_app_r by lia. rewrite Nat.sub_diag. reflexivity.
    + rewrite lookup_insert_ne in Hid by congruence.
      destruct (Hreg id r Hid) as (j & Hl & Hb). exists j.
      split; [apply lookup_app_l_Some; exact Hl | exact Hb].
Qed.

Lemma registered_run evs : forall s s',
  Inv s -> registered s -> run evs s = Some s' -> registered s'.
Proof.
  induction evs as [|ev evs IH]; intros s s' HI Hreg Hrun; cbn [run] in Hrun.
  - injection Hrun as <-. exact Hreg.
  - destruct (step ev s) as [s1|] eqn:E; [|discriminate]. cbn in Hrun.
    exact (IH s1 s' (Inv_step _ _ _ HI E) (registered_step ev s s1 HI Hreg E) Hrun).
Qed.

Lemma registered_reachable s : reachable s -> registered s.
Proof.
  intros (w & evs & Hrun).
  refine (registered_run evs (init w) s (Inv_init w) _ Hrun).
  intros id r H. cbn in H. rewrite lookup_empty in H. discriminate.
Qed.

(** X9: [get_job] finds a job for every id of the registry, and the job it
    finds carries the id asked for. *)
Theorem get_job_returns_the_job_asked_for (s : Server) (id : pystr) :
  reachable s ->
  (is_Some (jobs s !! id) -> is_Some (get_job_by_id s id))
  /\ (forall j, get_job_by_id s id = Some j -> build_id j = id).
Proof.
  intros Hreach. pose proof (registered_reachable s Hreach) as Hreg.
  unfold get_job_by_id. split.
  - intros [r Hr]. rewrite Hr. cbn. destruct (Hreg id r Hr) as (j & Hl & _). eauto.
  - intros j H. destruct (jobs s !! id) as [r|] eqn:Hr; [|discriminate]. cbn in H.
    destruct (Hreg id r Hr) as (j0 & Hl & Hb). congruence.
Qed.

Lemma get_job_returns_the_job_asked_for_witness :
  (is_Some (jobs demo_complete !! lit "id2") -> is_Some (get_job_by_id demo_complete (lit "id2")))
  /\ (forall j, get_job_by_id demo_complete (lit "id2") = Some j -> build_id j = lit "id2").
Proof.
  apply (get_job_returns_the_job_asked_for demo_complete (lit "id2") demo_complete_reachable).
Defined.

(** X10: a job that has been submitted is found under its id at once, as
    it was made: Queued, with the packages and the configuration asked
    for, nothing built, no log, no times, no error; it is last in the
    queue; and every other id resolves as before. *)
Theorem submitted_job_is_found
        (s s' : Server) (pkgs : list pystr) (hash uuid : pystr) :
  reachable s -> step (Submit pkgs hash uuid) s = Some s' ->
  get_job_by_id s' uuid = Some (new_job pkgs hash (path_join CONFIG_CACHE hash) uuid)
  /\ queue s' = queue s ++ [length (heap s)]
  /\ heap s' !! length (heap s) = Some (new_job pkgs hash (path_join CONFIG_CACHE hash) uuid)
  /\ forall id, id <> uuid -> get_job_by_id s' id = get_job_by_id s id.
Proof.
  intros Hreach Hstep. pose proof (registered_reachable s Hreach) as Hreg.
  destruct (step_jobs _ s s' Hstep) as [Hj|(pkgs0 & hash0 & uuid0 & Hev & ->)].
  - exfalso. revert Hstep. unfold step.
    destruct (path_exists _ _); [|destruct (wpc s); discriminate].
    intros Hstep.
    assert (s' = submit (new_job pkgs hash (path_join CONFIG_CACHE hash) uuid) s)
      as -> by (destruct (wpc s); congruence).
    cbn [jobs submit build_id new_job] in Hj.
    assert (Hl : (<[uuid := length (heap s)]> (jobs s)) !! uuid = Some (length (heap s)))
      by apply lookup_insert_eq.
    rewrite Hj in Hl. destruct (Hreg uuid _ Hl) as (j & Hlj & _).
    apply lookup_lt_Some in Hlj. lia.
  - injection Hev as <- <- <-.
    assert (Hnew : (heap s ++ [new_job pkgs hash (path_join CONFIG_CACHE hash) uuid])
                     !! length (heap s)
                   = Some (new_job pkgs hash (path_join CONFIG_CACHE hash) uuid)).
    { rewrite lookup_app_r by lia. rewrite Nat.sub_diag. reflexivity. }
    unfold get_job_by_id. cbn [jobs heap queue submit build_id new_job].
    split; [rewrite lookup_insert_eq; exact Hnew|].
    split; [reflexivity|]. split; [exact Hnew|].
    intros id Hne. rewrite lookup_insert_ne by congruence.
    destruct (jobs s !! id) as [r|] eqn:Hr; [|reflexivity]. cbn.
    destruct (Hreg id r Hr) as (j & Hl & _).
    rewrite Hl. apply lookup_app_l_Some. exact Hl.
Qed.

Lemma submitted_job_is_found_witness :
  get_job_by_id demo_queued (lit "id2")
  = Some (new_job [lit "foo"; lit "bar"] (lit "h1") (path_join CONFIG_CACHE (lit "h1")) (lit "id2"))
  /\ queue demo_queued = queue (default (init demo_world) (step (demo_submit "id1") (init demo_world)))
                         ++ [length (heap (default (init demo_world)
                                                   (step (demo_submit "id1") (init demo_world))))]
  /\ heap demo_queued
       !! length (heap (default (init demo_world) (step (demo_submit "id1") (init demo_world))))
     = Some (new_job [lit "foo"; lit "bar"] (lit "h1") (path_join CONFIG_CACHE (lit "h1")) (lit "id2"))
  /\ forall id, id <> lit "id2" ->
                get_job_by_id demo_queued id
                = get_job_by_id (default (init demo_world) (step (demo_submit "id1") (init demo_world))) id.
Proof.
  apply (submitted_job_is_found
           (default (init demo_world) (step (demo_submit "id1") (init demo_world)))
           demo_queued [lit "foo"; lit "bar"] (lit "h1") (lit "id2")).
  - exists demo_world, [demo_submit "id1"]. vm_compute. reflexivity.
  - vm_compute. reflexivity.
Defined.

(** ** The endpoints [GET /health] and [GET /build/{build_id}/artifact] *)

Lemma filter_from {A} (P : A -> Prop) `{forall x, Decision (P x)} (l : list A) : forall k,
  (forall i x, l !! i = Some x -> (P x <-> (k <= i)%nat)) ->
  length (filter P l) = (length l - k)%nat.
Proof.
  induction l as [|x l IH]; intros k Hall; [reflexivity|].
  destruct k as [|k].
  - rewrite filter_cons_True by (apply (Hall 0%nat x eq_refl); lia).
    cbn [length]. rewrite (IH 0%nat); [lia|].
    intros i y Hy. pose proof (Hall (S i) y Hy). split; [lia|]. intros _. apply H0. lia.
  - rewrite filter_cons_False by (intros HP; apply (Hall 0%nat x eq_refl) in HP; lia).
    cbn [length]. rewrite (IH k); [lia|].
    intros i y Hy. pose proof (Hall (S i) y Hy). rewrite H0. lia.
Qed.

(** X11: the queue size that [GET /health] and [GET /queue] report is the
    number of jobs whose status is Queued. *)
Theorem queue_size_counts_queued_jobs (s : Server) :
  reachable s ->
  queue_size s = length (filter (fun j => status j = QUEUED) (heap s)).
Proof.
  intros Hreach. pose proof (Inv_reachable s Hreach) as HI.
  rewrite (filter_from _ (heap s) (started s)).
  - unfold queue_size, started. pose proof (inv_len s HI). lia.
  - intros i j Hl.
    destruct (inv_jobs s HI i j Hl) as [[Hge Hj]|[[Hr Hj]|(Hlt & _ & Hj)]].
    + destruct Hj as (Hs & _). tauto.
    + pose proof (inv_running s HI i Hr). destruct Hj as (Hs & _).
      rewrite Hs. split; [discriminate | lia].
    + destruct Hj as ([Hs|Hs] & _); rewrite Hs; split; try discriminate; lia.
Qed.

Lemma queue_size_counts_queued_jobs_witness :
  queue_size demo_building
  = length (filter (fun j => status j = QUEUED) (heap demo_building)).
Proof.
  apply (queue_size_counts_queued_jobs demo_building demo_building_reachable).
Defined.

(** X12: when [GET /build/{build_id}/artifact] answers with a file, the
    build of that id is Complete, it has built packages, and the file is
    the one at [artifacts/<build_id>.tar], which exists, sent as
    [binpkgs-<build_id>.tar]. *)
Theorem artifact_download_is_the_archive_of_the_build
        (s : Server) (id : pystr) (p : path) (media_type filename : pystr) :
  reachable s -> get_build_artifact s id = FileResponse p media_type filename ->
  exists j, get_job_by_id s id = Some j /\ build_id j = id
            /\ status j = COMPLETE /\ packages_built j <> []
            /\ p = artifact_of id /\ path_exists (fs (world s)) p = true
            /\ media_type = lit "application/x-tar"
            /\ filename = lit "binpkgs-" ++ id ++ lit ".tar".
Proof.
  intros Hreach. unfold get_build_artifact.
  destruct (get_job_by_id s id) as [j|] eqn:Hget; [|discriminate].
  destruct (bool_decide (status j = COMPLETE)) eqn:Hs; [|discriminate].
  apply bool_decide_eq_true in Hs. cbn [negb].
  destruct (artifact_path j) as [p0|] eqn:Ha; [|discriminate].
  destruct (path_exists (fs (world s)) p0) eqn:He; [|discriminate].
  intros H.
  assert (p0 = p) as -> by congruence.
  assert (media_type = lit "application/x-tar") as -> by congruence.
  assert (filename = lit "binpkgs-" ++ id ++ lit ".tar") as -> by congruence.
  clear H.
  assert (Hl : exists r, jobs s !! id = Some r /\ heap s !! r = Some j).
  { revert Hget. unfold get_job_by_id. destruct (jobs s !! id) as [r|]; [|discriminate].
    cbn. eauto. }
  destruct Hl as (r & Hr & Hl).
  destruct (registered_reachable s Hreach id r Hr) as (j0 & Hl0 & Hid).
  assert (j0 = j) as -> by congruence.
  pose proof (outputs_agree_reachable s r j Hreach Hl) as [_ Hout].
  destruct Hreach as (w & evs & Hrun).
  assert (Hloc : artifact_path j = None \/ artifact_path j = Some (artifact_of (build_id j))).
  { refine (well_located_run evs (init w) s (Inv_init w) _ Hrun r j Hl).
    intros r0 j1 H0. cbn in H0. rewrite lookup_nil in H0. discriminate. }
  exists j. split; [reflexivity|]. split; [exact Hid|]. split; [exact Hs|].
  split.
  { intros Hp. apply (Hout Hs) in Hp. congruence. }
  split; [|auto].
  destruct Hloc as [Hloc|Hloc]; congruence.
Qed.

Lemma artifact_download_is_the_archive_of_the_build_witness :
  exists j, get_job_by_id demo_complete (lit "id1") = Some j /\ build_id j = lit "id1"
            /\ status j = COMPLETE /\ packages_built j <> []
            /\ artifact_of (lit "id1") = artifact_of (lit "id1")
            /\ path_exists (fs (world demo_complete)) (artifact_of (lit "id1")) = true
            /\ lit "application/x-tar" = lit "application/x-tar"
            /\ lit "binpkgs-" ++ lit "id1" ++ lit ".tar" = lit "binpkgs-" ++ lit "id1" ++ lit ".tar".
Proof.
  apply (artifact_download_is_the_archive_of_the_build demo_complete (lit "id1")
           (artifact_of (lit "id1")) (lit "application/x-tar")
           (lit "binpkgs-" ++ lit "id1" ++ lit ".tar") demo_complete_reachable).
  vm_compute. reflexivity.
Defined.

(** X13: a build that ends Complete with new packages can be downloaded at
    once: right after the step that completes it, the artifact endpoint
    answers with the archive of the build. *)
Theorem completed_build_can_be_downloaded
        (s s' : Server) (r : nat) (b : gset path) (j' : BuildJob) :
  reachable s -> wpc s = Reading r (Build b) ->
  step (Exited 0) s = Some s' -> heap s' !! r = Some j' -> status j' = COMPLETE ->
  jobs s !! build_id j' = Some r ->
  new_packages_of b (fs (world s)) <> [] ->
  get_build_artifact s' (build_id j')
  = FileResponse (artifact_of (build_id j')) (lit "application/x-tar")
                 (lit "binpkgs-" ++ build_id j' ++ lit ".tar").
Proof.
  intros Hreach Hpc Hstep Hl' Hs Hreg Hnew.
  destruct (exited_zero_archive s s' r b j' Hreach Hpc Hstep Hl' Hs) as (_ & _ & Hcons).
  destruct (Hcons Hnew) as (Ha & ms & Hst & _).
  assert (Hj : jobs s' = jobs s).
  { destruct (step_jobs _ s s' Hstep) as [Hj|(?&?&?&Hev&_)]; [exact Hj | discriminate]. }
  assert (Hex : path_exists (fs (world s')) (artifact_of (build_id j')) = true).
  { unfold path_exists. apply bool_decide_eq_true. rewrite Hst. eauto. }
  unfold get_build_artifact, get_job_by_id. rewrite Hj, Hreg. cbn [mbind option_bind].
  rewrite Hl', Ha, Hex.
  rewrite bool_decide_eq_true_2 by exact Hs. reflexivity.
Qed.

Lemma completed_build_can_be_downloaded_witness :
  get_build_artifact demo_complete (build_id (demo_first_job demo_complete))
  = FileResponse (artifact_of (build_id (demo_first_job demo_complete)))
                 (lit "application/x-tar")
                 (lit "binpkgs-" ++ build_id (demo_first_job demo_complete) ++ lit ".tar").
Proof.
  apply (completed_build_can_be_downloaded demo_built demo_complete 0%nat demo_before
           (demo_first_job demo_complete) demo_built_reachable).
  - vm_compute. reflexivity.
  - vm_compute. reflexivity.
  - vm_compute. reflexivity.
  - vm_compute. reflexivity.
  - vm_compute. reflexivity.
  - vm_compute. discriminate.
Defined.

(** ** The tail of the log *)

(** X14: for a positive number of lines [n], [get_log_tail] returns the
    last [n] lines of the log joined by newlines, and all of them when the
    log has no more than [n]. *)
Theorem log_tail_is_the_last_lines (j : BuildJob) (n : Z) :
  0 < n ->
  exists older newer,
    splitlines (log j) = older ++ newer
    /\ length newer = Nat.min (Z.to_nat n) (length (splitlines (log j)))
    /\ get_log_tail j n = join nl newer.
Proof.
  intros Hn. unfold get_log_tail, slice_from.
  set (l := splitlines (log j)).
  assert (E : (- n <? 0) = true) by (apply Z.ltb_lt; lia). rewrite E.
  exists (take (Z.to_nat (Z.max 0 (- n + Z.of_nat (length l)))) l),
         (drop (Z.to_nat (Z.max 0 (- n + Z.of_nat (length l)))) l).
  split; [symmetry; apply take_drop|]. split; [|reflexivity].
  rewrite length_drop. lia.
Qed.

Lemma log_tail_is_the_last_lines_witness :
  exists older newer,
    splitlines (log (demo_first_job demo_complete)) = older ++ newer
    /\ length newer = Nat.min (Z.to_nat 3) (length (splitlines (log (demo_first_job demo_complete))))
    /\ get_log_tail (demo_first_job demo_complete) 3 = join nl newer.
Proof.
  apply (log_tail_is_the_last_lines (demo_first_job demo_complete) 3). lia.
Defined.

(** X15: for a negative number of lines [n], [get_log_tail] does not
    return a tail: it returns the log without its first [-n] lines. *)
Theorem log_tail_of_negative_count_drops_first_lines (j : BuildJob) (n : Z) :
  n < 0 ->
  get_log_tail j n = join nl (drop (Z.to_nat (- n)) (splitlines (log j))).
Proof.
  intros Hn. unfold get_log_tail, slice_from.
  set (l := splitlines (log j)).
  assert (E : (- n <? 0) = false) by (apply Z.ltb_ge; lia). rewrite E.
  destruct (decide (- n <= Z.of_nat (length l))) as [Hle|Hgt].
  - rewrite Z.min_l by exact Hle. reflexivity.
  - rewrite Z.min_r by lia. rewrite !drop_ge by lia. reflexivity.
Qed.

Lemma log_tail_of_negative_count_drops_first_lines_witness :
  get_log_tail (demo_first_job demo_complete) (-2)
  = join nl (drop (Z.to_nat (- (-2))) (splitlines (log (demo_first_job demo_complete)))).
Proof.
  apply (log_tail_of_negative_count_drops_first_lines (demo_first_job demo_complete) (-2)). lia.
Defined.

(** ** The head of the log *)

Lemma build_header_log j w :
  build_header (j, w)
  = (Ret tt, (append_log (log_header (clock w (ticks w)) j)
                (set_started_at (Some (clock w (ticks w))) (set_status BUILDING j)),
              tick (with_status BUILDING w))).
Proof.
  unfold log_header.
  cbv -[lit nl join app isoformat clock ticks].
  rewrite <- !app_assoc. reflexivity.
Qed.

Lemma run_build_begin_opens j w :
  log j = [] ->
  log_header (clock w (ticks w)) j `prefix_of` log (run_build_begin (j, w)).2.1.
Proof.
  intros Hlog.
  assert (Hg : grows (bind _apply_config (fun _ => sync_or_build))).
  { apply grows_bind; [apply grows_apply_config | intros _; apply grows_sync_or_build]. }
  unfold run_build_begin. unfold bind at 1. rewrite build_header_log.
  etransitivity; [|apply Hg]. cbn [fst snd log append_log].
  change (log (set_started_at (Some (clock w (ticks w))) (set_status BUILDING j))) with (log j).
  rewrite Hlog. reflexivity.
Qed.

Lemma get_step_job s s' r j :
  wpc s = Idle -> head (queue s) = Some r -> step Get s = Some s' -> heap s !! r = Some j ->
  heap s' !! r = Some (run_build_begin (j, world s)).2.1
  \/ exists e d, heap s' !! r = Some (failed_job e d (run_build_begin (j, world s)).2.1).
Proof.
  intros Hpc Hq Hstep Hl. unfold step in Hstep. rewrite Hpc in Hstep.
  destruct (queue s) as [|r0 q]; [discriminate|]. injection Hq as ->.
  assert (Hlt : (r < length (heap s))%nat) by (apply lookup_lt_Some in Hl; exact Hl).
  apply resume_spec in Hstep. cbn [heap world] in Hstep.
  destruct Hstep as (j0 & Hl0 & _ & _ & Hcase).
  assert (j0 = j) as -> by congruence.
  destruct Hcase as [(a & j1 & w1 & Hm & _ & Hh & _)
                    |[(a & j1 & w1 & _ & Hlast & _)|(e & j1 & w1 & Hm & Hh & _)]];
    try discriminate; rewrite Hh, Hm, list_lookup_insert_eq by exact Hlt.
  - left. reflexivity.
  - right. eauto.
Qed.

Lemma log_opens_step ev s s' r j' :
  Inv s -> (forall r j, heap s !! r = Some j -> log_opens j) ->
  step ev s = Some s' -> heap s' !! r = Some j' -> log_opens j'.
Proof.
  intros HI Hall Hstep Hl'.
  destruct (step_heap ev s s' r j' Hstep Hl') as [[j Hl]|[Hf Hlog]].
  2:{ unfold log_opens. destruct Hf as (_&_&_&_&Hs&_). rewrite Hs. exact Hlog. }
  pose proof (Hall r j Hl) as Hj.
  destruct (started_at j) as [d|] eqn:Hd.
  - destruct (evolves_step ev s s' r j HI Hstep Hl) as (j1 & Hl1 & Hp & Hh & _ & _ & Hg & _).
    destruct (started_at_step ev s s' r j HI Hstep Hl) as (j2 & Hl2 & Hs).
    assert (j1 = j') as -> by congruence. assert (j2 = j') as -> by congruence.
    unfold log_opens in *. rewrite Hs, Hd by (rewrite Hd; discriminate).
    rewrite Hd in Hj. unfold log_header in *. rewrite Hp, Hh.
    etransitivity; [exact Hj | exact Hg].
  - unfold log_opens in Hj. rewrite Hd in Hj.
    destruct (step_effect ev s s' HI Hstep)
      as [[_ Hsame]|(r0 & j0 & j0' & new & Hl0 & Hh & Hwj & _)].
    { apply Hsame in Hl. assert (j' = j) as -> by congruence.
      unfold log_opens. rewrite Hd. exact Hj. }
    destruct (decide (r = r0)) as [->|Hne].
    2:{ rewrite Hh, list_lookup_insert_ne in Hl' by congruence.
        assert (j' = j) as -> by congruence. unfold log_opens. rewrite Hd. exact Hj. }
    assert (j0 = j) as -> by congruence.
    destruct Hwj as [(-> & Hpc & Hq & _)|(_ & _ & _ & Hb)].
    2:{ destruct Hb as (_&_&_&_&Hn&_). contradiction. }
    assert (Hhd : head (queue s) = Some r0) by (rewrite Hq; reflexivity).
    pose proof (run_build_begin_opens j (world s) Hj) as Hopen.
    pose proof (run_build_begin_frame j (world s)) as (Hfr & _).
    pose proof (get_step_job s s' r0 j Hpc Hhd Hstep Hl) as Hn.
    revert Hopen Hfr Hn. cbv zeta.
    generalize (run_build_begin (j, world s)).2.1. intros jb Hopen Hfr Hn.
    apply forget_log_fields in Hfr. destruct Hfr as (Hp0&Hc0&_&_&_&_&_&Hs0&_).
    assert (Hp : packages jb = packages j) by exact Hp0.
    assert (Hc : config_hash jb = config_hash j) by exact Hc0.
    assert (Hs : started_at jb = Some (clock (world s) (ticks (world s)))) by exact Hs0.
    clear Hp0 Hc0 Hs0.
    destruct Hn as [Hn|(e & d & Hn)]; unfold log_opens.
    + assert (j' = jb) as -> by congruence.
      rewrite Hs. unfold log_header in *. rewrite Hp, Hc. exact Hopen.
    + assert (j' = failed_job e d jb) as -> by congruence.
      cbn [started_at failed_job set_completed_at append_log set_error set_status].
      rewrite Hs. unfold log_header in *.
      change (packages (failed_job e d jb)) with (packages jb).
      change (config_hash (failed_job e d jb)) with (config_hash jb).
      change (log (failed_job e d jb))
        with (log jb ++ (nl ++ nl ++ lit "FATAL ERROR: " ++ str_exn e ++ nl)).
      rewrite Hp, Hc.
      etransitivity; [exact Hopen | apply prefix_app_r; reflexivity].
Qed.

Lemma log_opens_run evs : forall s s',
  Inv s -> (forall r j, heap s !! r = Some j -> log_opens j) ->
  run evs s = Some s' -> forall r j, heap s' !! r = Some j -> log_opens j.
Proof.
  induction evs as [|ev evs IH]; intros s s' HI Hall Hrun; cbn [run] in Hrun.
  - injection Hrun as <-. exact Hall.
  - destruct (step ev s) as [s1|] eqn:E; [|discriminate]. cbn in Hrun.
    apply (IH s1 s' (Inv_step _ _ _ HI E)); [|exact Hrun].
    intros r j. apply (log_opens_step ev s s1 r j HI Hall E).
Qed.

(** X16: a job that has not started has an empty log, and the log of a job
    that has started opens with its start time, the packages asked for and
    the configuration hash, as [_run_build] wrote them first. *)
Theorem log_opens_with_the_request (s : Server) (r : nat) (j : BuildJob) :
  reachable s -> heap s !! r = Some j ->
  match started_at j with
  | None => log j = []
  | Some d =>
      ((lit "Starting build at " ++ isoformat d ++ nl)
       ++ (lit "Packages: " ++ join (lit ", ") (packages j) ++ nl)
       ++ (lit "Config hash: " ++ config_hash j ++ nl ++ nl)) `prefix_of` log j
  end.
Proof.
  intros (w & evs & Hrun) Hl.
  refine (log_opens_run evs (init w) s (Inv_init w) _ Hrun r j Hl).
  intros r0 j0 H0. cbn in H0. rewrite lookup_nil in H0. discriminate.
Qed.

Lemma log_opens_with_the_request_witness :
  match started_at (demo_first_job demo_complete) with
  | None => log (demo_first_job demo_complete) = []
  | Some d =>
      ((lit "Starting build at " ++ isoformat d ++ nl)
       ++ (lit "Packages: " ++ join (lit ", ") (packages (demo_first_job demo_complete)) ++ nl)
       ++ (lit "Config hash: " ++ config_hash (demo_first_job demo_complete) ++ nl ++ nl))
        `prefix_of` log (demo_first_job demo_complete)
  end.
Proof.
  apply (log_opens_with_the_request demo_complete 0%nat (demo_first_job demo_complete)
           demo_complete_reachable).
  vm_compute. reflexivity.
Defined.

(** ** The commands the server starts *)

Lemma spawned_step ev s s' :
  Inv s -> step ev s = Some s' ->
  spawned (world s') = spawned (world s)
  \/ exists cmd, spawned (world s') = spawned (world s) ++ [cmd] /\ server_command s cmd.
Proof.
  intros HI Hstep.
  destruct (wpc s) as [|r st|r st] eqn:Hpc.
  - pose proof Hstep as Hstep0. unfold step in Hstep. rewrite Hpc in Hstep.
    destruct ev as [pkgs hash uuid|f| | |e|text|e|code]; try discriminate.
    + left. destruct (path_exists _ _); [|discriminate].
      injection Hstep as <-. reflexivity.
    + left. injection Hstep as <-. reflexivity.
    + clear Hstep. destruct (queue s) as [|r q] eqn:Hq.
      { unfold step in Hstep0. rewrite Hpc, Hq in Hstep0. discriminate. }
      destruct (Inv_head_lookup s r q HI Hq) as [j Hl].
      destruct (stage_config (j, world s)) as [[[]|e] [j1 w1]] eqn:Hst.
      * destruct (get_after_staging s r q j j1 w1 Hpc Hq Hl Hst) as (s2 & j2 & Hs2 & _ & Hcase).
        assert (s2 = s') as -> by congruence. right.
        destruct Hcase as [(m & _ & _ & Hsp & _)|(_ & Hsp & _)].
        -- exists (emerge_cmd j). split; [exact Hsp|]. right. eauto.
        -- exists sync_cmd. split; [exact Hsp|]. left. reflexivity.
      * destruct (get_staging_fails s r q j e (j1, w1) Hpc Hq Hl Hst) as (s2 & Hs2 & Hsp & _).
        assert (s2 = s') as -> by congruence. left. exact Hsp.
  - destruct st as [|b].
    + destruct (step_in_sync ev s s' r HI (or_introl Hpc) Hstep) as [[Hsp _]|(j & Hl & Hsp & _)].
      * left. exact Hsp.
      * right. exists (emerge_cmd j). split; [exact Hsp|]. right. eauto.
    + assert (Hb : in_build (wpc s) r) by (exists b; left; exact Hpc).
      destruct (step_in_build ev s s' r HI Hb Hstep) as [Hsp _]. left. exact Hsp.
  - destruct st as [|b].
    + destruct (step_in_sync ev s s' r HI (or_intror Hpc) Hstep) as [[Hsp _]|(j & Hl & Hsp & _)].
      * left. exact Hsp.
      * right. exists (emerge_cmd j). split; [exact Hsp|]. right. eauto.
    + assert (Hb : in_build (wpc s) r) by (exists b; right; exact Hpc).
      destruct (step_in_build ev s s' r HI Hb Hstep) as [Hsp _]. left. exact Hsp.
Qed.

Lemma server_command_run evs s s' cmd :
  Inv s -> run evs s = Some s' -> server_command s cmd -> server_command s' cmd.
Proof.
  intros HI Hrun [->|(r & j & Hl & ->)]; [left; reflexivity|].
  destruct (evolves_run evs s s' r j HI Hrun Hl) as (j' & Hl' & Hp & _).
  right. exists r, j'. split; [exact Hl'|]. unfold emerge_cmd. rewrite Hp. reflexivity.
Qed.

Lemma spawned_run evs : forall s s',
  Inv s -> run evs s = Some s' ->
  exists new, spawned (world s') = spawned (world s) ++ new
              /\ Forall (server_command s') new.
Proof.
  induction evs as [|ev evs IH]; intros s s' HI Hrun; cbn [run] in Hrun.
  - injection Hrun as <-. exists []. rewrite app_nil_r. split; [reflexivity | constructor].
  - destruct (step ev s) as [s1|] eqn:E; [|discriminate]. cbn in Hrun.
    pose proof (Inv_step _ _ _ HI E) as HI1.
    destruct (IH s1 s' HI1 Hrun) as (new & Hsp & Hall).
    destruct (spawned_step ev s s1 HI E) as [Hs1|(cmd & Hs1 & Hcmd)].
    + exists new. rewrite Hsp, Hs1. split; [reflexivity | exact Hall].
    + exists (cmd :: new). rewrite Hsp, Hs1, <- app_assoc. split; [reflexivity|].
      constructor; [|exact Hall].
      apply (server_command_run (ev :: evs) s s' cmd HI); [|exact Hcmd].
      cbn [run]. rewrite E. exact Hrun.
Qed.

(** X17: the server starts no other command than [emerge --sync] and the
    build command of a job that was submitted to it: whatever happens, the
    commands started since it was set up are all of these two kinds. *)
Theorem only_emerge_commands_are_started (w : World) (evs : list event) (s : Server) :
  run evs (init w) = Some s ->
  exists new, spawned (world s) = spawned w ++ new
              /\ Forall (fun cmd => cmd = sync_cmd
                                    \/ exists r j, heap s !! r = Some j /\ cmd = emerge_cmd j) new.
Proof. intros Hrun. exact (spawned_run evs (init w) s (Inv_init w) Hrun). Qed.

Lemma only_emerge_commands_are_started_witness :
  exists new, spawned (world demo_reading) = spawned demo_world ++ new
              /\ Forall (fun cmd => cmd = sync_cmd
                                    \/ exists r j, heap demo_reading !! r = Some j
                                                   /\ cmd = emerge_cmd j) new.
Proof.
  apply (only_emerge_commands_are_started demo_world
           [demo_submit "id1"; demo_submit "id2"; Get; Spawned; Exited 0; Spawned] demo_reading).
  vm_compute. reflexivity.
Defined.

(** X18: a build that ended Complete without any new package cannot be
    downloaded: the artifact endpoint answers 404, "Artifact not found". *)
Theorem complete_build_without_packages_has_no_download
        (s : Server) (id : pystr) (j : BuildJob) :
  reachable s -> get_job_by_id s id = Some j ->
  status j = COMPLETE -> packages_built j = [] ->
  get_build_artifact s id = HTTPException 404 (lit "Artifact not found").
Proof.
  intros Hreach Hget Hs Hp.
  assert (Hl : exists r, heap s !! r = Some j).
  { revert Hget. unfold get_job_by_id. destruct (jobs s !! id) as [r|]; [|discriminate].
    cbn. eauto. }
  destruct Hl as (r & Hl).
  pose proof (outputs_agree_reachable s r j Hreach Hl) as [_ Hout].
  apply (Hout Hs) in Hp.
  unfold get_build_artifact. rewrite Hget, Hp.
  rewrite bool_decide_eq_true_2 by exact Hs. reflexivity.
Qed.

Lemma complete_build_without_packages_has_no_download_witness :
  get_build_artifact demo_nothing_built (lit "id1")
  = HTTPException 404 (lit "Artifact not found").
Proof.
  apply (complete_build_without_packages_has_no_download demo_nothing_built (lit "id1")
           (demo_first_job demo_nothing_built)).
  - exists demo_world,
      [demo_submit "id1"; demo_submit "id2"; Get; Spawned; Exited 0; Spawned; Exited 0].
    vm_compute. reflexivity.
  - vm_compute. reflexivity.
  - vm_compute. reflexivity.
  - vm_compute. reflexivity.
Defined.

(** ** The endpoint [GET /build/{build_id}] *)

Lemma status_value_inj a b : status_value a = status_value b -> a = b.
Proof. destruct a, b; intros H; try reflexivity; vm_compute in H; discriminate. Qed.

(** X19: what the status endpoint reports about a build agrees with
    itself: the id is the one asked for; the start time is null exactly
    when the status is "queued"; there is a completion time exactly when
    the status is "complete" or "failed"; and there is an error text
    exactly when the status is "failed". *)
Theorem status_report_is_coherent (s : Server) (id : pystr) (body : status_body) :
  reachable s -> get_build_status s id = StatusBody body ->
  body_build_id body = id
  /\ (body_status body = lit "queued" <-> body_started_at body = None)
  /\ (body_status body = lit "complete" \/ body_status body = lit "failed"
      <-> body_completed_at body <> None)
  /\ (body_status body = lit "failed" <-> body_error body <> None).
Proof.
  intros Hreach. unfold get_build_status.
  destruct (get_job_by_id s id) as [j|] eqn:Hget; [|discriminate].
  intros H. injection H as <-. cbn [body_build_id body_status body_started_at
                                      body_completed_at body_error].
  assert (Hl : exists r, jobs s !! id = Some r /\ heap s !! r = Some j).
  { revert Hget. unfold get_job_by_id. destruct (jobs s !! id) as [r|]; [|discriminate].
    cbn. eauto. }
  destruct Hl as (r & Hr & Hl).
  destruct (registered_reachable s Hreach id r Hr) as (j0 & Hl0 & Hid).
  assert (j0 = j) as -> by congruence.
  split; [exact Hid|].
  change (lit "queued") with (status_value QUEUED).
  change (lit "complete") with (status_value COMPLETE).
  change (lit "failed") with (status_value FAILED).
  assert (Hinj : forall a, status_value (status j) = status_value a <-> status j = a).
  { intros a. split; [apply status_value_inj | intros ->; reflexivity]. }
  rewrite !Hinj.
  pose proof (Inv_reachable s Hreach) as HI.
  destruct (inv_jobs s HI r j Hl)
    as [[_ (Hs&_&_&He&Hst&Hc)]|[[_ (Hs&_&_&He&Hst&Hc)]|(_ & _ & Ht & Hst & Hc & He)]].
  - rewrite Hs, Hst, Hc, He. cbn. repeat split; try tauto; try congruence;
      try (intros [?|?]; discriminate); try discriminate.
  - rewrite Hs, Hc, He. destruct (started_at j); [|contradiction]. cbn.
    repeat split; try tauto; try congruence; try (intros [?|?]; discriminate); try discriminate.
  - destruct (started_at j); [|contradiction]. destruct (completed_at j); [|contradiction].
    cbn. split; [|split].
    + destruct Ht as [Ht|Ht]; rewrite Ht; split; discriminate.
    + split; [discriminate|]. intros _. destruct Ht as [Ht|Ht]; rewrite Ht; auto.
    + exact He.
Qed.

Lemma status_report_is_coherent_witness :
  exists body,
    get_build_status demo_complete (lit "id1") = StatusBody body
    /\ body_build_id body = lit "id1"
    /\ (body_status body = lit "queued" <-> body_started_at body = None)
    /\ (body_status body = lit "complete" \/ body_status body = lit "failed"
        <-> body_completed_at body <> None)
    /\ (body_status body = lit "failed" <-> body_error body <> None).
Proof.
  eexists. split; [vm_compute; reflexivity|].
  apply (status_report_is_coherent demo_complete (lit "id1") _ demo_complete_reachable).
  vm_compute. reflexivity.
Defined.
